(** * Product recommender: extraction, validation, ranking, filtering, formatting

    A shallow embedding of [backend/recommender.py] and of the deterministic
    parts of [backend/utils.py], with the properties of the ranking pipeline
    stated and proved over it.

    Conventions of the embedding.
    - A Python [str] is a [list ascii], each character read as the code point
      of its number: the development covers text whose code points are below
      256 (ASCII and the Latin-1 supplement), where [lower], [isalnum],
      [isspace], [\w], [\s] and [\d] are the tables below.
    - Python [int] is [Z]; Python [float] scores are exact rationals [Q].
    - The mention dictionaries are records; a key the source may find absent
      ([score]) is an [option].
    - The remote language-model calls are capabilities that may fail
      ([option] results); every call site carries the fallback of the source. *)

From Stdlib Require Import List Ascii String ZArith QArith Lia Bool Arith.
From Stdlib Require Import Qminmax Permutation DecimalString Sorted Lqa.
Import ListNotations.

#[local] Abbreviation length := List.length (only parsing).

Set Implicit Arguments.
Local Open Scope Z_scope.

(** ** Python strings *)

Module Str.

Definition str := list ascii.

Definition of_string (s : string) : str := list_ascii_of_string s.

Definition code (c : ascii) : nat := nat_of_ascii c.

Definition between (lo hi : nat) (c : ascii) : bool :=
  (Nat.leb lo (code c) && Nat.leb (code c) hi)%bool.

(** The letters with a lowercase form: A-Z, and in the Latin-1 supplement
    192..214 and 216..222 (215 is the multiplication sign). *)
Definition is_upper (c : ascii) : bool :=
  (between 65 90 c || between 192 214 c || between 216 222 c)%bool.

(** The letters with an uppercase form below 256: a-z, 224..246 and 248..254
    (the uppercase forms of 181, 223 and 255 lie outside the range). *)
Definition is_lower (c : ascii) : bool :=
  (between 97 122 c || between 224 246 c || between 248 254 c)%bool.

(** [\d] of the [re] module: the decimal digits. *)
Definition is_digit (c : ascii) : bool := between 48 57 c.

(** [str.isalnum] on one character: the ASCII letters and digits, and in the
    Latin-1 supplement the ordinal indicators 170 and 186, the superscripts
    178, 179 and 185, the micro sign 181, the fractions 188..190 and the
    letters 192..214, 216..246 and 248..255. *)
Definition is_alnum (c : ascii) : bool :=
  (between 48 57 c || between 65 90 c || between 97 122 c
   || Nat.eqb (code c) 170 || between 178 179 c || Nat.eqb (code c) 181
   || between 185 186 c || between 188 190 c
   || between 192 214 c || between 216 246 c || between 248 255 c)%bool.

(** [\w] of the [re] module: what [isalnum] accepts, and the underscore. *)
Definition is_word (c : ascii) : bool := (is_alnum c || Nat.eqb (code c) 95)%bool.

(** [\s] and [str.isspace]: tab, line feed, vertical tab, form feed, carriage
    return, the four separators 28..31, the space, and in the Latin-1
    supplement the next-line control 133 and the no-break space 160. *)
Definition is_space (c : ascii) : bool :=
  (between 9 13 c || between 28 31 c || Nat.eqb (code c) 32
   || Nat.eqb (code c) 133 || Nat.eqb (code c) 160)%bool.

Definition lower_char (c : ascii) : ascii :=
  if is_upper c then ascii_of_nat (code c + 32) else c.
Definition upper_char (c : ascii) : ascii :=
  if is_lower c then ascii_of_nat (code c - 32) else c.

(** [s.lower()]. *)
Definition lower (s : str) : str := map lower_char s.

(** [s.upper()] for a text without the characters 181, 223 and 255, whose
    uppercase forms are not below 256; the source applies it to one letter
    matched by [[a-z]]. *)
Definition upper (s : str) : str := map upper_char s.

Definition eqb_char (a b : ascii) : bool := Ascii.eqb a b.

Fixpoint eqb (a b : str) : bool :=
  match a, b with
  | [], [] => true
  | x :: a', y :: b' => (eqb_char x y && eqb a' b')%bool
  | _, _ => false
  end.

Fixpoint starts_with (p s : str) : bool :=
  match p, s with
  | [], _ => true
  | x :: p', y :: s' => (eqb_char x y && starts_with p' s')%bool
  | _ :: _, [] => false
  end.

(** [sub in s]. *)
Fixpoint contains (sub s : str) : bool :=
  match s with
  | [] => starts_with sub []
  | _ :: s' => (starts_with sub s || contains sub s')%bool
  end.

(** [s.find(sub)]: the lowest index, or [-1]. *)
Fixpoint find_from (i : Z) (sub s : str) : Z :=
  if starts_with sub s then i
  else match s with
       | [] => -1
       | _ :: s' => find_from (i + 1) sub s'
       end.

Definition find (sub s : str) : Z := find_from 0 sub s.

(** [s[a:b]] for indices that are already clamped to be non-negative. *)
Definition slice (a b : nat) (s : str) : str := skipn a (firstn b s).

Fixpoint lstrip (s : str) : str :=
  match s with
  | c :: s' => if is_space c then lstrip s' else s
  | [] => []
  end.

Definition rstrip (s : str) : str := rev (lstrip (rev s)).

Definition strip (s : str) : str := rstrip (lstrip s).

(** [sep.join(parts)]. *)
Fixpoint join (sep : str) (parts : list str) : str :=
  match parts with
  | [] => []
  | [p] => p
  | p :: rest => p ++ sep ++ join sep rest
  end.

(** [s.replace(a, b)] for a one-character [a]. *)
Definition replace_char (a : ascii) (b : str) (s : str) : str :=
  flat_map (fun c => if eqb_char c a then b else [c]) s.

(** [s.split()]: the maximal runs of non-whitespace characters. *)
Fixpoint split_ws_aux (cur : str) (s : str) : list str :=
  match s with
  | [] => match cur with [] => [] | _ => [rev cur] end
  | c :: s' =>
      if is_space c
      then match cur with
           | [] => split_ws_aux [] s'
           | _ => rev cur :: split_ws_aux [] s'
           end
      else split_ws_aux (c :: cur) s'
  end.

Definition split_ws (s : str) : list str := split_ws_aux [] s.

(** [re.sub(r'\s+', ' ', s)]: every run of whitespace becomes one space;
    [in_run] says that the previous character was whitespace. *)
Fixpoint collapse_from (in_run : bool) (s : str) : str :=
  match s with
  | [] => []
  | c :: s' =>
      if is_space c
      then if in_run then collapse_from true s'
           else " "%char :: collapse_from true s'
      else c :: collapse_from false s'
  end.

Definition collapse_ws (s : str) : str := collapse_from false s.

(** [int(digits)] and [str(n)] for non-negative integers. *)
Definition digit_val (c : ascii) : Z := Z.of_nat (code c - 48).

Definition int_of (s : str) : Z :=
  fold_left (fun acc c => 10 * acc + digit_val c) s 0.

Definition of_Z (n : Z) : str :=
  of_string (NilZero.string_of_int (Z.to_int n)).

Definition mem (x : str) (l : list str) : bool := existsb (eqb x) l.

End Str.

Import Str.
Notation "` s" := (Str.of_string s) (at level 1, format "` s").

(** ** Regular expressions

    The fragment of Python's [re] the source uses: literals, character sets,
    the classes [\d], [\s], [\w], grouping (capturing and [(?:...)]), ordered
    alternation and the greedy quantifiers [?], [*], [+], [{m}], [{m,n}].
    Patterns are kept as the strings of the source and parsed by [Re.parse]; the
    matcher is a backtracking search with Python's leftmost, first-alternative,
    greedy priorities. *)

Module Re.

Inductive citem : Type :=
| CChar (c : ascii)
| CRange (a b : ascii)
| CDigit
| CSpace
| CWord.

Inductive regex : Type :=
| Eps
| Lit (c : ascii)
| Cls (neg : bool) (items : list citem)
| Seq (r1 r2 : regex)
| Alt (r1 r2 : regex)
| Rep (lo : nat) (hi : option nat) (r : regex)
| Grp (n : nat) (r : regex).

(** *** Parsing a pattern string *)

Fixpoint take_digits (s : str) : str * str :=
  match s with
  | c :: s' => if is_digit c
               then let (d, rest) := take_digits s' in (c :: d, rest)
               else ([], s)
  | [] => ([], [])
  end.

Definition nat_of (d : str) : nat := Z.to_nat (int_of d).

Definition escape_item (c : ascii) : citem :=
  if eqb_char c "d" then CDigit
  else if eqb_char c "s" then CSpace
  else if eqb_char c "w" then CWord
  else CChar c.

(** The items of a set, up to the closing bracket. *)
Fixpoint parse_items (fuel : nat) (s : str) : option (list citem * str) :=
  match fuel with
  | O => None
  | S f =>
      match s with
      | [] => None
      | "]"%char :: rest => Some ([], rest)
      | "\"%char :: c :: rest =>
          match parse_items f rest with
          | Some (items, rest') => Some (escape_item c :: items, rest')
          | None => None
          end
      | a :: "-"%char :: b :: rest =>
          if eqb_char b "]"
          then match parse_items f ("-"%char :: b :: rest) with
               | Some (items, rest') => Some (CChar a :: items, rest')
               | None => None
               end
          else match parse_items f rest with
               | Some (items, rest') => Some (CRange a b :: items, rest')
               | None => None
               end
      | a :: rest =>
          match parse_items f rest with
          | Some (items, rest') => Some (CChar a :: items, rest')
          | None => None
          end
      end
  end.

Definition parse_set (s : str) : option (regex * str) :=
  match s with
  | "^"%char :: rest =>
      match parse_items (S (length rest)) rest with
      | Some (items, rest') => Some (Cls true items, rest')
      | None => None
      end
  | _ =>
      match parse_items (S (length s)) s with
      | Some (items, rest') => Some (Cls false items, rest')
      | None => None
      end
  end.

(** A quantifier after an atom, if there is one. *)
Definition parse_quant (r : regex) (s : str) : regex * str :=
  match s with
  | "?"%char :: rest => (Rep 0 (Some 1%nat) r, rest)
  | "*"%char :: rest => (Rep 0 None r, rest)
  | "+"%char :: rest => (Rep 1 None r, rest)
  | "{"%char :: rest =>
      let (lo, rest1) := take_digits rest in
      match lo, rest1 with
      | _ :: _, "}"%char :: rest2 => (Rep (nat_of lo) (Some (nat_of lo)) r, rest2)
      | _ :: _, ","%char :: rest2 =>
          let (hi, rest3) := take_digits rest2 in
          match hi, rest3 with
          | _ :: _, "}"%char :: rest4 =>
              (Rep (nat_of lo) (Some (nat_of hi)) r, rest4)
          | [], "}"%char :: rest4 => (Rep (nat_of lo) None r, rest4)
          | _, _ => (r, s)
          end
      | _, _ => (r, s)
      end
  | _ => (r, s)
  end.

(** Recursive descent; [g] counts the capturing groups opened so far, so that
    groups are numbered by their opening parenthesis. *)
Fixpoint parse_alt (fuel : nat) (s : str) (g : nat) : option (regex * str * nat) :=
  match fuel with
  | O => None
  | S f =>
      match parse_seq f s g with
      | Some (r1, "|"%char :: rest, g1) =>
          match parse_alt f rest g1 with
          | Some (r2, rest', g2) => Some (Alt r1 r2, rest', g2)
          | None => None
          end
      | other => other
      end
  end
with parse_seq (fuel : nat) (s : str) (g : nat) : option (regex * str * nat) :=
  match fuel with
  | O => None
  | S f =>
      match s with
      | [] => Some (Eps, [], g)
      | "|"%char :: _ => Some (Eps, s, g)
      | ")"%char :: _ => Some (Eps, s, g)
      | _ =>
          match parse_atom f s g with
          | Some (r1, rest, g1) =>
              let (r1q, rest1) := parse_quant r1 rest in
              match parse_seq f rest1 g1 with
              | Some (Eps, rest2, g2) => Some (r1q, rest2, g2)
              | Some (r2, rest2, g2) => Some (Seq r1q r2, rest2, g2)
              | None => None
              end
          | None => None
          end
      end
  end
with parse_atom (fuel : nat) (s : str) (g : nat) : option (regex * str * nat) :=
  match fuel with
  | O => None
  | S f =>
      match s with
      | "("%char :: "?"%char :: ":"%char :: rest =>
          match parse_alt f rest g with
          | Some (r, ")"%char :: rest', g') => Some (r, rest', g')
          | _ => None
          end
      | "("%char :: rest =>
          match parse_alt f rest (S g) with
          | Some (r, ")"%char :: rest', g') => Some (Grp (S g) r, rest', g')
          | _ => None
          end
      | "["%char :: rest =>
          match parse_set rest with
          | Some (r, rest') => Some (r, rest', g)
          | None => None
          end
      | "\"%char :: c :: rest =>
          match escape_item c with
          | CChar x => Some (Lit x, rest, g)
          | item => Some (Cls false [item], rest, g)
          end
      | c :: rest => Some (Lit c, rest, g)
      | [] => None
      end
  end.

Definition parse (pattern : string) : option regex :=
  let s := of_string pattern in
  match parse_alt (3 * length s + 3) s 0 with
  | Some (r, [], _) => Some r
  | _ => None
  end.

(** A pattern of the source; an unparsable string matches nothing. *)
Definition pat (pattern : string) : regex :=
  match parse pattern with
  | Some r => r
  | None => Cls false []
  end.

(** *** Matching *)

Definition item_has (c : ascii) (i : citem) : bool :=
  match i with
  | CChar x => eqb_char x c
  | CRange a b => between (code a) (code b) c
  | CDigit => is_digit c
  | CSpace => is_space c
  | CWord => is_word c
  end.

Definition caps := list (nat * str).

Fixpoint group (n : nat) (c : caps) : option str :=
  match c with
  | [] => None
  | (k, v) :: c' => if Nat.eqb k n then Some v else group n c'
  end.

Section Matcher.

  (** [re.IGNORECASE]. *)
  Variable ignorecase : bool.

Definition lit_matches (x c : ascii) : bool :=
    if ignorecase then eqb_char (lower_char x) (lower_char c) else eqb_char x c.

Definition set_matches (neg : bool) (items : list citem) (c : ascii) : bool :=
    let hit :=
      (existsb (item_has c) items
       || (ignorecase && (existsb (item_has (lower_char c)) items
                          || existsb (item_has (upper_char c)) items)))%bool in
    if neg then negb hit else hit.

Definition consumed (s s' : str) : str := firstn (length s - length s') s.

  (** [run r s c k]: match [r] at the head of [s], then continue with [k] on
      what is left; [None] makes the caller backtrack. *)
Fixpoint run (r : regex) (s : str) (c : caps)
           (k : str -> caps -> option (str * caps)) {struct r}
    : option (str * caps) :=
    match r with
    | Eps => k s c
    | Lit x =>
        match s with
        | y :: s' => if lit_matches x y then k s' c else None
        | [] => None
        end
    | Cls neg items =>
        match s with
        | y :: s' => if set_matches neg items y then k s' c else None
        | [] => None
        end
    | Seq r1 r2 => run r1 s c (fun s' c' => run r2 s' c' k)
    | Alt r1 r2 =>
        match run r1 s c k with
        | Some res => Some res
        | None => run r2 s c k
        end
    | Grp n r1 => run r1 s c (fun s' c' => k s' ((n, consumed s s') :: c'))
    | Rep lo hi r1 =>
        (fix loop (fuel lo : nat) (hi : option nat) (s : str) (c : caps)
             {struct fuel} : option (str * caps) :=
           match fuel with
           | O => None
           | S f =>
               let more :=
                 match hi with
                 | Some O => None
                 | _ =>
                     run r1 s c
                       (fun s' c' =>
                          if (Nat.eqb lo 0 && Nat.eqb (length s') (length s))%bool
                          then None
                          else loop f (Nat.pred lo) (option_map Nat.pred hi) s' c')
                 end in
               match more with
               | Some res => Some res
               | None => if Nat.eqb lo 0 then k s c else None
               end
           end) (lo + length s + 1)%nat lo hi s c
    end.

  (** A match object: where it starts, group 0, and the numbered groups. *)
Record match_obj : Type := MatchObj {
    m_start : nat;
    m_text : str;
    m_groups : caps
  }.

Definition match_here (r : regex) (i : nat) (s : str) : option match_obj :=
    match run r s [] (fun s' c => Some (s', c)) with
    | Some (s', c) => Some (MatchObj i (consumed s s') c)
    | None => None
    end.

  (** [re.search]: the first position at which the pattern matches. *)
Fixpoint search_from (r : regex) (i : nat) (s : str) : option match_obj :=
    match match_here r i s with
    | Some mo => Some mo
    | None =>
        match s with
        | [] => None
        | _ :: s' => search_from r (S i) s'
        end
    end.

Definition search (r : regex) (s : str) : option match_obj := search_from r 0 s.

  (** [re.finditer]: the successive non-overlapping matches, left to right. *)
Fixpoint finditer_from (fuel : nat) (r : regex) (s : str) : list match_obj :=
    match fuel with
    | O => []
    | S f =>
        match search_from r 0 s with
        | None => []
        | Some mo =>
            let step := Nat.max 1 (length (m_text mo)) in
            mo :: finditer_from f r (skipn (m_start mo + step) s)
        end
    end.

Definition finditer (r : regex) (s : str) : list match_obj :=
    finditer_from (S (length s)) r s.

End Matcher.

(** [bool(re.search(pattern, s))] without flags. *)
Definition found (r : regex) (s : str) : bool :=
  match search false r s with Some _ => true | None => false end.

(** [match.group(n)] for [n >= 1]; [None] when the group did not take part. *)
Definition group_of (mo : match_obj) (n : nat) : option str := group n (m_groups mo).

(** [re.sub] of a one-character set by the empty string. *)
Definition delete_set (r : regex) (s : str) : str :=
  match r with
  | Cls neg items => filter (fun c => negb (set_matches false neg items c)) s
  | _ => s
  end.

End Re.

Import Re.

(** [any(t in s for t in terms)]. *)
Definition any_in (terms : list string) (s : str) : bool :=
  existsb (fun t => contains (of_string t) s) terms.

(** ** utils.py: the local fallbacks of the language-model capabilities *)

(** The outcome of the three remote calls: [None] stands for a missing key, a
    failed request or an answer that cannot be parsed. *)
Record capabilities : Type := Capabilities {
  nlp_models : str -> option (list str);
  nlp_sentiment : str -> option Q;
  nlp_describe : str -> str -> str -> list str -> option str
}.

(** No capability is available. *)
Definition offline : capabilities :=
  Capabilities (fun _ => None) (fun _ => None) (fun _ _ _ _ => None).

Module Utils.

Definition phone_patterns : list string := [
  "iPhone\s+\d+(\s+Pro)?(\s+Max)?";
  "Samsung\s+Galaxy\s+S\d+(\s+Ultra)?";
  "Google\s+Pixel\s+\d+(\s+Pro)?";
  "OnePlus\s+\d+(\s+Pro)?";
  "Xiaomi\s+Mi\s+\d+";
  "Motorola\s+\w+\s+\d+"
]%string.

Definition vacuum_patterns : list string := [
  "Dyson\s+V\d+(\s+\w+)?";
  "Shark\s+\w+(\s+\w+)*";
  "Miele\s+\w+(\s+\w+)*";
  "Bissell\s+\w+(\s+\w+){0,3}";
  "Hoover\s+\w+(\s+\w+){0,3}";
  "Tineco\s+\w+(\s+\w+){0,3}";
  "Eureka\s+\w+(\s+\w+){0,3}"
]%string.

Definition generic_pattern : string :=
  "([A-Z][a-zA-Z0-9]+ [A-Z0-9][a-zA-Z0-9]+(?:[- ][A-Z0-9][a-zA-Z0-9]+){0,2})".

Definition regex_extract_product_models (text : str) : list str :=
  let all_patterns := (phone_patterns ++ vacuum_patterns)%list in
  let products :=
    fold_left
      (fun products pattern =>
         products ++ map (fun mo => strip (m_text mo))
                         (finditer true (pat pattern) text))
      all_patterns [] in
  fold_left
    (fun products mo =>
       if mem (m_text mo) products then products
       else products ++ [strip (m_text mo)])
    (finditer false (pat generic_pattern) text) products.

Definition extract_product_models (svc : capabilities) (text : str) : list str :=
  match text with
  | [] => []
  | _ => match nlp_models svc text with
         | Some products => products
         | None => regex_extract_product_models text
         end
  end.

Definition positive_terms : list string := [
  "good"; "great"; "excellent"; "best"; "love"; "recommend"; "amazing";
  "fantastic"; "worth"; "quality"; "reliable"; "impressive"; "perfect";
  "awesome"; "satisfied"
]%string.

Definition negative_terms : list string := [
  "bad"; "poor"; "terrible"; "worst"; "hate"; "avoid"; "disappointing";
  "broken"; "waste"; "regret"; "awful"; "horrible"; "useless"; "failed";
  "cheap"; "overpriced"
]%string.

Definition count_in (terms : list string) (s : str) : Z :=
  Z.of_nat (length (filter (fun t => contains (of_string t) s) terms)).

Definition basic_sentiment_analysis (text : str) : Q :=
  let text_lower := lower text in
  let positive_count := count_in positive_terms text_lower in
  let negative_count := count_in negative_terms text_lower in
  let total_count := positive_count + negative_count in
  if total_count =? 0 then 1 # 2
  else (inject_Z positive_count / inject_Z total_count)%Q.

Definition analyze_sentiment (svc : capabilities) (text : str) : Q :=
  match text with
  | [] => 1 # 2
  | _ => match nlp_sentiment svc text with
         | Some sentiment_score => Qmax 0 (Qmin 1 sentiment_score)
         | None => basic_sentiment_analysis text
         end
  end.

End Utils.

(** ** recommender.py *)

Module Recommender.

(** *** The validity scorer *)

(** The running [confidence_score] and [reason] list of [is_valid_product]. *)
Definition verdict : Type := (Z * list str)%type.

Definition bump (d : Z) (why : str) (v : verdict) : verdict :=
  (fst v + d, snd v ++ [why]).

Definition brands : list string := [
  "samsung"; "apple"; "sony"; "lg"; "microsoft"; "dell"; "hp";
  "lenovo"; "asus"; "acer"; "alienware"; "msi"; "gigabyte"; "dyson";
  "intel"; "amd"; "nvidia"; "corsair"; "logitech"; "razer"; "bose";
  "sony"; "jbl"; "shure"; "shark"; "bosch"; "miele"; "canon"; "nikon"
]%string.

Definition gpu_pattern : string := "(rtx|gtx|radeon rx|arc)\s*[a-b]?\d{3,4}".
Definition nvidia_pattern : string := "(rtx|gtx)\s*(\d{4})".
Definition intel_pattern : string := "arc\s*([a-z])?(\d{3})".
Definition amd_pattern : string := "(radeon rx|rx)\s*(\d{4})".
Definition standalone_gpu_pattern : string := "(rtx|gtx|radeon)\s*\d{4}".
Definition system_pattern : string := "(system|desktop|tower|pc|computer|gaming pc)".

Definition valid_arc_models : list Z := [770; 750; 580; 380; 350; 325; 310].

Definition system_terms : list string :=
  ["system"; "desktop"; "tower"; "pc"; "computer"; "gaming pc"]%string.
Definition prebuilt_brands : list string :=
  ["alienware"; "hp omen"; "corsair"; "lenovo legion"; "asus rog"; "msi";
   "acer predator"]%string.
Definition component_terms : list string :=
  ["ryzen"; "core i"; "intel"; "processor"; "gpu"; "card"; "ram"]%string.
Definition ownership_terms : list string :=
  ["i bought"; "i own"; "i use"; "i have"; "purchased"; "using"]%string.
Definition recommend_terms : list string :=
  ["recommend"; "suggested"; "best"; "top"; "great"; "excellent"]%string.

Definition group_text (mo : match_obj) (n : nat) : str :=
  match group_of mo n with Some g => g | None => [] end.

(** 1. Sufficient length. *)
Definition check_length (product_name : str) (v : verdict) : verdict :=
  if Z.of_nat (length product_name) <? 6
  then bump (-3) `"Too short for a complete product name" v
  else (fst v + 1, snd v).

(** 2. Letters and numbers. *)
Definition check_alnum (product_name : str) (v : verdict) : verdict :=
  let has_letters := found (pat "[a-zA-Z]") product_name in
  let has_numbers := found (pat "\d") product_name in
  if (has_letters && has_numbers)%bool
  then bump 2 `"Contains both letters and numbers" v
  else if negb has_numbers then bump (-1) `"Missing model numbers" v
  else v.

(** 3. Brand, or a capitalised word. *)
Definition check_brand (product_name product_lower : str) (v : verdict) : verdict :=
  if any_in brands product_lower
  then bump 2 `"Contains known brand name" v
  else if found (pat "[A-Z][a-z]+") product_name
       then bump 1 `"Contains capitalized brand-like words" v
       else bump (-1) `"No identifiable brand" v.

Definition check_nvidia (product_lower : str) (v : verdict) : verdict :=
  match search false (pat nvidia_pattern) product_lower with
  | Some nvidia_match =>
      let model_num := int_of (group_text nvidia_match 2) in
      if model_num >=? 5000
      then bump (-3) (`"Likely future/non-existent NVIDIA GPU model: " ++ of_Z model_num) v
      else bump 2 `"Valid NVIDIA GPU model number range" v
  | None => v
  end.

Definition check_intel (product_lower : str) (v : verdict) : verdict :=
  match search false (pat intel_pattern) product_lower with
  | Some intel_match =>
      let series := upper (group_text intel_match 1) in
      match series with
      | [] => bump (-1) `"Missing Intel Arc series letter (should be A-series)" v
      | _ =>
          if negb (Str.eqb series `"A")
          then bump (-3) (`"Likely non-existent Intel Arc series: " ++ series ++ `"-series") v
          else
            let model_num := int_of (group_text intel_match 2) in
            if negb (existsb (Z.eqb model_num) valid_arc_models)
            then bump (-2) (`"Unusual Intel Arc model number: " ++ of_Z model_num) v
            else bump 2 `"Valid Intel Arc GPU model" v
      end
  | None => v
  end.

Definition check_amd (product_lower : str) (v : verdict) : verdict :=
  match search false (pat amd_pattern) product_lower with
  | Some amd_match =>
      let model_num := int_of (group_text amd_match 2) in
      if model_num >=? 8000
      then bump (-3) (`"Likely future/non-existent AMD GPU model: " ++ of_Z model_num) v
      else bump 2 `"Valid AMD GPU model number range" v
  | None => v
  end.

Definition check_memory (product_lower : str) (v : verdict) : verdict :=
  if contains `"gb" product_lower
  then bump 1 `"Includes memory specification" v
  else v.

Definition check_gpu (product_lower : str) (v : verdict) : verdict :=
  if found (pat gpu_pattern) product_lower
  then check_memory product_lower
         (check_amd product_lower
            (check_intel product_lower
               (check_nvidia product_lower v)))
  else v.

Definition check_system (product_name product_lower : str) (v : verdict) : verdict :=
  let v1 :=
    if any_in system_terms product_lower
    then bump 2 `"Contains system-level terms" v else v in
  let v2 :=
    if any_in prebuilt_brands product_lower
    then bump 3 `"Known prebuilt system brand" v1 else v1 in
  let v3 :=
    if (found (pat standalone_gpu_pattern) product_lower
        && negb (found (pat system_pattern) product_lower))%bool
    then if Z.of_nat (length product_name) <? 20
         then bump (-3) `"Appears to be just a GPU, not a complete system" v2
         else v2
    else v2 in
  if any_in component_terms product_lower
  then if ((Z.of_nat (length product_name) <? 15)
           && negb (found (pat system_pattern) product_lower))%bool
       then bump (-2) `"Appears to be just a component, not a complete system" v3
       else v3
  else v3.

(** 4. Rules of the product category. *)
Definition check_category (product_name product_lower product_type_lower : str)
           (v : verdict) : verdict :=
  if (contains `"graphics" product_type_lower
      || contains `"gpu" product_type_lower
      || contains `"gaming" product_type_lower)%bool
  then check_gpu product_lower v
  else if (contains `"computer" product_type_lower
           || contains `"pc" product_type_lower
           || contains `"desktop" product_type_lower
           || contains `"gaming pc" product_type_lower)%bool
       then check_system product_name product_lower v
       else v.

(** 5. The surrounding text. *)
Definition check_context (product_lower context_text : str) (v : verdict) : verdict :=
  match context_text with
  | [] => v
  | _ =>
      let context_lower := lower context_text in
      let v1 :=
        if any_in ownership_terms context_lower
        then
          let product_index := find product_lower context_lower in
          if product_index >=? 0
          then
            let pre_text :=
              slice (Z.to_nat (Z.max 0 (product_index - 50)))
                    (Z.to_nat product_index) context_lower in
            if any_in ownership_terms pre_text
            then bump 3 `"Product mentioned in ownership context" v
            else v
          else v
        else v in
      if any_in recommend_terms context_lower
      then bump 1 `"Product mentioned in recommendation context" v1
      else v1
  end.

Definition validity (product_name context_text product_type : str) : verdict :=
  let product_lower := lower product_name in
  let product_type_lower := lower product_type in
  check_context product_lower context_text
    (check_category product_name product_lower product_type_lower
       (check_brand product_name product_lower
          (check_alnum product_name
             (check_length product_name (0, []))))).

(** [(is_valid, confidence_score, reason)]. *)
Definition is_valid_product (product_name context_text product_type : str)
  : bool * Z * str :=
  let v := validity product_name context_text product_type in
  (fst v >=? 3, fst v, join `", " (snd v)).

(** *** The pattern fallback of the candidate extractor *)

Definition phone_patterns : list string := [
  "(iPhone \d+(?:\s+Pro)?(?:\s+Max)?)";
  "(Samsung Galaxy S\d+(?:\s+Ultra)?)";
  "(Google Pixel \d+(?:\s+Pro)?)";
  "(OnePlus \d+(?:\s+Pro)?)";
  "(Xiaomi Mi \d+)";
  "(Motorola \w+ \d+)"
]%string.

Definition vacuum_patterns : list string := [
  "(Dyson V\d+(?:\s+\w+)?)";
  "(Shark Navigator(?:\s+\w+)*)";
  "(Miele Complete(?:\s+\w+)*)";
  "(Bissell \w+(?:\s+\w+){0,3})";
  "(Hoover \w+(?:\s+\w+){0,3})";
  "(Tineco \w+(?:\s+\w+){0,3})";
  "(Eureka \w+(?:\s+\w+){0,3})"
]%string.

Definition laptop_patterns : list string := [
  "(MacBook (?:Air|Pro)(?: \d+)?(?:-inch)?)";
  "(Dell XPS \d+)";
  "(HP (?:Spectre|Envy|Pavilion|EliteBook) \w+(?:[- ]\w+)*)";
  "(Lenovo (?:ThinkPad|Yoga|Legion|IdeaPad) \w+(?:[- ]\w+)*)";
  "(ASUS (?:ZenBook|VivoBook|ROG|TUF) \w+(?:[- ]\w+)*)";
  "(Acer (?:Aspire|Predator|Swift|Nitro) \w+(?:[- ]\w+)*)";
  "(Microsoft Surface (?:Laptop|Book|Pro) \d+)"
]%string.

Definition headphone_patterns : list string := [
  "(Sony WH-\d+XM\d+)";
  "(Bose QuietComfort \d+)";
  "(Apple AirPods(?: Pro| Max)?)";
  "(Sennheiser (?:HD|Momentum) \d+(?:[- ]\w+)*)";
  "(Jabra Elite \d+[tT]?)";
  "(Audio-Technica ATH-\w+)";
  "(Beats(?: By Dre)? \w+(?:[- ]\w+)*)"
]%string.

Definition monitor_patterns : list string := [
  "(LG (?:UltraGear|UltraWide) \w+(?:[- ]\w+)*)";
  "(Samsung (?:Odyssey|ViewFinity) \w+(?:[- ]\w+)*)";
  "(ASUS (?:ROG|ProArt|TUF) \w+(?:[- ]\w+)*)";
  "(Dell (?:Alienware|UltraSharp) \w+(?:[- ]\w+)*)";
  "(BenQ \w+(?:[- ]\w+){0,3})";
  "(Acer (?:Predator|Nitro) \w+(?:[- ]\w+)*)";
  "(MSI \w+(?:[- ]\w+){0,3})";
  "(ViewSonic \w+(?:[- ]\w+){0,3})"
]%string.

Definition generic_patterns : list string := [
  "([A-Z][a-zA-Z0-9]+ [A-Z0-9][a-zA-Z0-9]+(?:[- ][A-Z0-9][a-zA-Z0-9]+){0,3})"
]%string.

Definition capitalized_pattern : string :=
  "[A-Z][a-zA-Z0-9]+(?:\s+[A-Z0-9][a-zA-Z0-9]+){1,3}".

Definition patterns_for (product_type_lower : str) : list string :=
  if (contains `"phone" product_type_lower
      || contains `"smartphone" product_type_lower)%bool then phone_patterns
  else if contains `"vacuum" product_type_lower then vacuum_patterns
  else if contains `"laptop" product_type_lower then laptop_patterns
  else if contains `"headphone" product_type_lower then headphone_patterns
  else if contains `"monitor" product_type_lower then monitor_patterns
  else generic_patterns.

(** The first pattern with a match gives its first match. *)
Fixpoint first_match (patterns : list string) (text : str) : option str :=
  match patterns with
  | [] => None
  | pattern :: rest =>
      match search true (pat pattern) text with
      | Some mo => Some (strip (m_text mo))
      | None => first_match rest text
      end
  end.

Definition extract_model_from_text (text product_type : str) : option str :=
  let product_type_lower := lower product_type in
  match first_match (patterns_for product_type_lower) text with
  | Some model => Some model
  | None =>
      let product_mention_index := find product_type_lower (lower text) in
      if product_mention_index =? -1 then None
      else
        let surrounding_text :=
          slice (Z.to_nat (Z.max 0 (product_mention_index - 30)))
                (Z.to_nat (Z.min (Z.of_nat (length text))
                                 (product_mention_index + 50))) text in
        match search false (pat capitalized_pattern) surrounding_text with
        | Some mo => Some (strip (m_text mo))
        | None => None
        end
  end.

(** *** The excerpt builder *)

Definition is_sentence_end (c : ascii) : bool :=
  (eqb_char c "." || eqb_char c "!" || eqb_char c "?")%bool.

(** [re.split(r'(?<=[.!?])\s+', context)]: cut at each run of whitespace that
    follows a full stop, an exclamation mark or a question mark. *)
Inductive split_mode : Type := InText | AfterEnd | InGap.

Fixpoint split_sentences_aux (cur : str) (mode : split_mode) (s : str) : list str :=
  match s with
  | [] => [rev cur]
  | c :: s' =>
      if is_space c
      then match mode with
           | AfterEnd => rev cur :: split_sentences_aux [] InGap s'
           | InGap => split_sentences_aux [] InGap s'
           | InText => split_sentences_aux (c :: cur) InText s'
           end
      else split_sentences_aux (c :: cur)
             (if is_sentence_end c then AfterEnd else InText) s'
  end.

Definition split_sentences (s : str) : list str := split_sentences_aux [] InText s.

(** [s.replace('  ', ' ')]. *)
Fixpoint squeeze_pairs (s : str) : str :=
  match s with
  | a :: s' =>
      match s' with
      | b :: s'' =>
          if (eqb_char a " " && eqb_char b " ")%bool
          then " "%char :: squeeze_pairs s''
          else a :: squeeze_pairs s'
      | [] => [a]
      end
  | [] => []
  end.

Definition generate_description (text product_model : str) (attributes : list str) : str :=
  let product_mention_index := find product_model text in
  if negb (product_mention_index =? -1)
  then
    let start := Z.max 0 (product_mention_index - 100) in
    let stop := Z.min (Z.of_nat (length text)) (product_mention_index + 150) in
    let context := slice (Z.to_nat start) (Z.to_nat stop) text in
    let sentences := split_sentences context in
    let description :=
      if (2 <=? length sentences)%nat
      then join `" " (firstn 3 sentences) else context in
    let description := strip (squeeze_pairs description) in
    let attributes_str := join `", " attributes in
    match attributes_str with
    | [] => description
    | _ =>
        if negb (existsb (fun attr => contains (lower attr) (lower description))
                         attributes)
        then description ++ `" This " ++ product_model
                         ++ `" is known for being " ++ attributes_str ++ `"."
        else description
    end
  else
    `"The " ++ product_model ++ `" is highly recommended by users who want a "
      ++ (match attributes with [] => `"quality" | _ => join `", " attributes end)
      ++ `" product.".

(** [generate_ai_description]: the remote rewrite, or the excerpt unchanged. *)
Definition generate_ai_description (svc : capabilities)
           (product_name original_description product_type : str)
           (attributes : list str) : str :=
  match nlp_describe svc product_name original_description product_type attributes with
  | Some content => strip content
  | None => original_description
  end.

Definition generate_amazon_link (product_model : str) : str :=
  let clean_name := replace_char " " `"+" product_model in
  `"https://www.amazon.com/s?k=" ++ clean_name ++ `"&tag=allurecomreco-20".

Definition generate_image_url (product_model : str) : str :=
  let clean_name := replace_char " " `"+" product_model in
  `"https://placehold.co/400x400/f5f5f5/333?text=" ++ clean_name.

(** *** Evidence, mentions and recommendations *)

Record comment : Type := Comment {
  c_text : str;
  c_upvotes : Z
}.

Record thread : Type := Thread {
  t_title : str;
  t_url : str;
  t_comments : list comment
}.

Record video : Type := Video {
  v_title : str;
  v_url : str;
  v_transcript : str;
  v_views : Z;
  v_likes : Z
}.

(** The engagement keys of a mention: [upvotes] on the forum stream; [views],
    [likes] and [title] on the video stream. *)
Inductive engagement : Type :=
| ForumMetrics (upvotes : Z)
| VideoMetrics (views likes : Z) (title : str).

Record mention : Type := Mention {
  product : str;
  metrics : engagement;
  sentiment : Q;
  source : str;
  description : str;
  validity_score : Z;
  validity_reason : str;
  product_type : str;
  attributes : list str;
  score : option Q
}.

Definition upvotes (m : mention) : Z :=
  match metrics m with ForumMetrics u => u | VideoMetrics _ _ _ => 0 end.
Definition views (m : mention) : Z :=
  match metrics m with VideoMetrics v _ _ => v | ForumMetrics _ => 0 end.
Definition likes (m : mention) : Z :=
  match metrics m with VideoMetrics _ l _ => l | ForumMetrics _ => 0 end.
Definition title (m : mention) : str :=
  match metrics m with VideoMetrics _ _ t => t | ForumMetrics _ => [] end.

(** [mention.get("score", 0)]. *)
Definition get_score (m : mention) : Q :=
  match score m with Some x => x | None => 0%Q end.

(** [mention["score"] = x]. *)
Definition set_score (x : Q) (m : mention) : mention :=
  Mention (product m) (metrics m) (sentiment m) (source m) (description m)
          (validity_score m) (validity_reason m) (product_type m) (attributes m)
          (Some x).

Record recommendation : Type := Recommendation {
  r_product : str;
  r_description : str;
  r_sources : list str;
  r_buy_link : str;
  r_image_url : str;
  r_validity_score : Z;
  r_attributes : list str
}.

Definition Qltb (a b : Q) : bool := negb (Qle_bool b a).

(** [list.sort(key=..., reverse=True)]: stable, descending; [lt a b] says that
    the key of [a] is below the key of [b]. *)
Section Sort.
  Variable A : Type.
  Variable lt : A -> A -> bool.

Fixpoint insert_desc (x : A) (l : list A) : list A :=
    match l with
    | [] => [x]
    | y :: l' => if lt x y then y :: insert_desc x l' else x :: l
    end.

Fixpoint sort_desc (l : list A) : list A :=
    match l with
    | [] => []
    | x :: l' => insert_desc x (sort_desc l')
    end.
End Sort.

(** The [unique_products] dictionary: keys in insertion order. *)
Definition dict : Type := list (str * mention).

Fixpoint dict_get (key : str) (d : dict) : option mention :=
  match d with
  | [] => None
  | (k, v) :: d' => if Str.eqb key k then Some v else dict_get key d'
  end.

Fixpoint dict_set (key : str) (m : mention) (d : dict) : dict :=
  match d with
  | [] => [(key, m)]
  | (k, v) :: d' =>
      if Str.eqb key k then (k, m) :: d' else (k, v) :: dict_set key m d'
  end.

Definition dict_values (d : dict) : list mention := map snd d.

(** The duplicate removal shared by both streams, for a key function. *)
Definition keep_best (key_of : mention -> str) (d : dict) (m : mention) : dict :=
  let product_key := key_of m in
  match dict_get product_key d with
  | None => dict_set product_key m d
  | Some kept =>
      if Qltb (get_score kept) (get_score m)
      then dict_set product_key m d else d
  end.

Definition remove_duplicates (key_of : mention -> str) (l : list mention)
  : list mention :=
  dict_values (fold_left (keep_best key_of) l []).

(** [[product.lower()] + [attr.lower() for attr in attributes if attr]]. *)
Definition product_type_terms (product : str) (attributes : list str) : list str :=
  lower product
    :: map lower (filter (fun attr => negb (Str.eqb attr [])) attributes).

Definition validity_impact (m : mention) : Z :=
  Z.min 5 (Z.max 0 (validity_score m)).

Definition term_bonus (terms : list str) (product_name : str) (start : Q) : Q :=
  fold_left (fun sc term => if contains term product_name then sc + 1 else sc)%Q
            terms start.

Section Pipeline.

  Variable svc : capabilities.

  (** **** The forum stream *)

  (** The accumulator of the thread loop, with a record of the texts handed
      to [extract_model_from_text]. *)
Record forum_state : Type := ForumState {
    product_mentions : list mention;
    pattern_calls : list str
  }.

  Section Forum.
    Variable product : str.
    Variable attributes : list str.

Definition forum_mention (thread_url text : str) (upvotes : Z) (sentiment : Q)
               (model : str) (validity_score : Z) (validity_reason : str) : mention :=
      Mention model (ForumMetrics upvotes) sentiment thread_url
              (generate_description text model attributes)
              validity_score validity_reason product attributes None.

    (** The inner loop over the models of one comment. *)
Definition add_model (thread_url text : str) (upvotes : Z) (sentiment : Q)
               (acc : list mention) (model : str) : list mention :=
      let '(_, validity_score, validity_reason) :=
        is_valid_product model text product in
      if validity_score <? 0 then acc
      else acc ++ [forum_mention thread_url text upvotes sentiment model
                                 validity_score validity_reason].

Definition scan_comment (thread_url : str) (acc : list mention) (c : comment)
      : list mention :=
      let text := c_text c in
      let models := Utils.extract_product_models svc text in
      match models with
      | [] => acc
      | _ =>
          let sentiment := Utils.analyze_sentiment svc text in
          fold_left (add_model thread_url text (c_upvotes c) sentiment) models acc
      end.

    (** The first loop over the comments of a thread. *)
Definition model_pass (th : thread) (st : forum_state) : forum_state :=
      ForumState (fold_left (scan_comment (t_url th)) (t_comments th)
                            (product_mentions st))
                 (pattern_calls st).

Definition already_listed (model_name : str) (l : list mention) : bool :=
      existsb (fun m => Str.eqb (lower (Recommender.product m)) (lower model_name)) l.

Definition pattern_comment (thread_url : str) (st : forum_state) (c : comment)
      : forum_state :=
      let text := c_text c in
      let calls := pattern_calls st ++ [text] in
      let skip := ForumState (product_mentions st) calls in
      match extract_model_from_text text product with
      | None => skip
      | Some [] => skip
      | Some model_name =>
          let '(_, validity_score, validity_reason) :=
            is_valid_product model_name text product in
          if validity_score <? 0 then skip
          else
            let sentiment := Utils.analyze_sentiment svc text in
            if negb (already_listed model_name (product_mentions st))
            then ForumState
                   (product_mentions st
                      ++ [forum_mention thread_url text (c_upvotes c) sentiment
                                        model_name validity_score validity_reason])
                   calls
            else skip
      end.

    (** The second loop over the comments of a thread. *)
Definition pattern_pass (th : thread) (st : forum_state) : forum_state :=
      fold_left (pattern_comment (t_url th)) (t_comments th) st.

Definition process_thread (st : forum_state) (th : thread) : forum_state :=
      let st1 := model_pass th st in
      if (length (product_mentions st1) <? 2)%nat
      then pattern_pass th st1 else st1.

Definition collect_forum (threads : list thread) : forum_state :=
      fold_left process_thread threads (ForumState [] []).

Definition score_forum (terms : list str) (m : mention) : mention :=
      let base_score :=
        (sentiment m * 5 + Qmin 5 (inject_Z (upvotes m) / 10))%Q in
      let combined := (base_score + inject_Z (validity_impact m * 2))%Q in
      let product_name := lower (Recommender.product m) in
      let matched := term_bonus terms product_name combined in
      set_score (if (8 <? length (Recommender.product m))%nat
                 then (matched + 1)%Q else matched) m.

    (** The key [(score, sentiment, upvotes)] of the forum sort, compared as
        Python compares tuples. *)
Definition forum_key_lt (a b : mention) : bool :=
      (Qltb (get_score a) (get_score b)
       || (Qeq_bool (get_score a) (get_score b)
           && (Qltb (sentiment a) (sentiment b)
               || (Qeq_bool (sentiment a) (sentiment b)
                   && (upvotes a <? upvotes b)))))%bool.

Definition forum_key (m : mention) : str :=
      delete_set (pat "[^a-zA-Z0-9]") (lower (Recommender.product m)).

Definition process_reddit_data (threads : list thread) : list mention :=
      let mentions := product_mentions (collect_forum threads) in
      let terms := product_type_terms product attributes in
      let scored := map (score_forum terms) mentions in
      let sorted := sort_desc forum_key_lt scored in
      remove_duplicates forum_key sorted.
  End Forum.

  (** **** The video stream *)

  Section Videos.
    Variable product : str.
    Variable attributes : list str.

Definition video_mention (v : video) (sentiment : Q) (model : str)
               (validity_score : Z) (validity_reason : str) : mention :=
      Mention model (VideoMetrics (v_views v) (v_likes v) (v_title v)) sentiment
              (v_url v) (generate_description (v_transcript v) model attributes)
              validity_score validity_reason product attributes None.

Definition add_video_model (v : video) (sentiment : Q)
               (acc : list mention) (model : str) : list mention :=
      let '(_, validity_score, validity_reason) :=
        is_valid_product model (v_transcript v) product in
      if validity_score <? 0 then acc
      else acc ++ [video_mention v sentiment model validity_score validity_reason].

Definition scan_video (acc : list mention) (v : video) : list mention :=
      let models := Utils.extract_product_models svc (v_transcript v) in
      match models with
      | [] => acc
      | _ =>
          let sentiment := Utils.analyze_sentiment svc (v_transcript v) in
          fold_left (add_video_model v sentiment) models acc
      end.

Definition collect_videos (videos : list video) : list mention :=
      fold_left scan_video videos [].

Definition score_video (terms : list str) (m : mention) : mention :=
      let base_score :=
        (sentiment m * 3 + Qmin 3 (inject_Z (likes m) / 100)
         + Qmin 4 (inject_Z (views m) / 10000))%Q in
      let combined := (base_score + inject_Z (validity_impact m * 2))%Q in
      let titled :=
        if contains (lower (Recommender.product m)) (lower (title m))
        then (combined + 3)%Q else combined in
      let product_name := lower (Recommender.product m) in
      set_score (term_bonus terms product_name titled) m.

Definition video_key_lt (a b : mention) : bool :=
      Qltb (get_score a) (get_score b).

Definition video_key (m : mention) : str :=
      strip (lower (Recommender.product m)).

Definition process_youtube_data (videos : list video) : list mention :=
      let mentions := collect_videos videos in
      let terms := product_type_terms product attributes in
      let scored := map (score_video terms) mentions in
      let sorted := sort_desc video_key_lt scored in
      remove_duplicates video_key sorted.
  End Videos.

  (** **** The category filter and the formatter *)

Definition system_search_terms : list string :=
    ["computer"; "pc"; "desktop"; "gaming pc"; "laptop"]%string.

Definition filter_gpu_pattern : string :=
    "(rtx|gtx|radeon rx|arc)\s*[a-z]?\d{3,4}".
Definition filter_system_pattern : string :=
    "(system|desktop|tower|pc|computer|gaming pc|laptop)".
Definition filter_component_terms : list string :=
    ["ryzen"; "core i"; "intel"; "amd"; "processor"; "cpu"; "gpu"; "card";
     "ram"; "memory"]%string.
Definition system_brands : list string :=
    ["alienware"; "hp omen"; "dell xps"; "lenovo legion"; "asus rog"; "corsair";
     "msi"; "acer predator"; "ibuypower"; "cyberpower"]%string.

  (** [is_system_search], read off the first mention. *)
Definition is_system_search (mentions : list mention) : bool :=
    match mentions with
    | first :: _ =>
        match product_type first with
        | [] => false
        | _ => any_in system_search_terms (lower (product_type first))
        end
    | [] => false
    end.

  (** The [is_component] flag of the partition loop. *)
Definition is_component (m : mention) : bool :=
    let product_name := lower (product m) in
    let standalone_gpu :=
      (found (pat filter_gpu_pattern) product_name
       && negb (found (pat filter_system_pattern) product_name)
       && (length product_name <? 20)%nat)%bool in
    let other_component :=
      (any_in filter_component_terms product_name
       && negb (found (pat filter_system_pattern) product_name))%bool in
    if any_in system_brands product_name then false
    else (standalone_gpu || other_component)%bool.

Definition systems_of (mentions : list mention) : list mention :=
    filter (fun m => negb (is_component m)) mentions.
Definition components_of (mentions : list mention) : list mention :=
    filter is_component mentions.

Definition is_trusted (m : mention) : bool := 3 <=? validity_score m.

  (** What [selected_products] is bound to: a list built by the filter, or
      the very list object the caller passed in. *)
Inductive selection : Type :=
  | Fresh (l : list mention)
  | Aliased.

Definition prefer_trusted (l : list mention) (otherwise : selection) : selection :=
    match filter is_trusted l with
    | [] => otherwise
    | valid_products => Fresh valid_products
    end.

Definition category_filter (mentions : list mention) : selection :=
    if is_system_search mentions
    then match systems_of mentions with
         | [] => prefer_trusted mentions Aliased
         | systems => prefer_trusted systems (Fresh systems)
         end
    else prefer_trusted mentions Aliased.

Definition selected_of (mentions : list mention) (sel : selection) : list mention :=
    match sel with Fresh l => l | Aliased => mentions end.

Definition score_lt (a b : mention) : bool := Qltb (get_score a) (get_score b).

  (** [selected_products] after [selected_products.sort(...)]. *)
Definition selected_products (mentions : list mention) : list mention :=
    sort_desc score_lt (selected_of mentions (category_filter mentions)).

  (** [product_mentions] after that sort: reordered too when the two names
      denote one list. *)
Definition mentions_after_sort (mentions : list mention) : list mention :=
    match category_filter mentions with
    | Fresh _ => mentions
    | Aliased => selected_products mentions
    end.

Definition sanitize (product_model : str) : str :=
    let kept := delete_set (pat "[^\w\s\-]") product_model in
    strip (collapse_ws kept).

Definition add_source (sources : list str) (url : str) : list str :=
    match url with
    | [] => sources
    | _ => if (negb (mem url sources) && (length sources <? 3)%nat)%bool
           then sources ++ [url] else sources
    end.

Definition default_sources (src : str) : list str :=
    if Str.eqb src `"reddit" then [`"https://www.reddit.com"]
    else if Str.eqb src `"youtube" then [`"https://www.youtube.com"]
    else [].

Definition collect_sources (top_product : mention) (mentions : list mention)
             (src : str) : list str :=
    let own := match source top_product with [] => [] | url => [url] end in
    let more :=
      if (1 <? length mentions)%nat
      then fold_left (fun acc m => add_source acc (source m))
                     (firstn 4 (skipn 1 mentions)) own
      else own in
    match more with
    | [] => default_sources src
    | _ => more
    end.

Definition derived_attributes (top_product : mention) : list str :=
    let words := split_ws (product_type top_product) in
    let implied := if (1 <? length words)%nat then skipn 1 words else [] in
    (implied ++ attributes top_product)%list.

  (** The selection is never empty for a non-empty input, so the second
      [None] below is not reachable (see [selected_products_nonempty]). *)
Definition format_recommendation (mentions : list mention) (src : str)
    : option recommendation :=
    match mentions with
    | [] => None
    | _ =>
        match selected_products mentions with
        | [] => None
        | top_product :: _ =>
            let product_model := product top_product in
            if (length product_model <? 3)%nat then None
            else
              let product_model := sanitize product_model in
              let enhanced_description :=
                generate_ai_description svc product_model (description top_product)
                  (product_type top_product) (derived_attributes top_product) in
              Some (Recommendation
                      product_model
                      enhanced_description
                      (collect_sources top_product (mentions_after_sort mentions) src)
                      (generate_amazon_link product_model)
                      (generate_image_url product_model)
                      (validity_score top_product)
                      (attributes top_product))
        end
    end.

(** [process_and_rank_products], from what the two scrapers returned (the
    empty list for a scraper that failed or ran out of time). *)
Definition process_and_rank_products (product : str) (attributes : list str)
           (threads : list thread) (videos : list video)
  : option recommendation * option recommendation :=
  let reddit_products := process_reddit_data product attributes threads in
  let youtube_products := process_youtube_data product attributes videos in
  (match reddit_products with
   | [] => None
   | _ => format_recommendation reddit_products `"reddit"
   end,
   match youtube_products with
   | [] => None
   | _ => format_recommendation youtube_products `"youtube"
   end).

End Pipeline.

End Recommender.

Import Recommender.

Unset Implicit Arguments.

(** * The vocabulary of the properties *)

(** What the mention builder guarantees of every mention. *)
Definition well_built (m : mention) : Prop :=
  0 <= validity_score m /\ product m <> [].

(** [s] is the mention of [l] that duplicate removal keeps for its key: the
    mentions of that key before it score strictly less, those after it score
    no more. *)
Definition champion (key_of : mention -> str) (l : list mention) (s : mention) : Prop :=
  exists l1 l2,
    l = l1 ++ s :: l2
    /\ (forall m, In m l1 -> key_of m = key_of s -> (get_score m < get_score s)%Q)
    /\ (forall m, In m l2 -> key_of m = key_of s -> (get_score m <= get_score s)%Q).

(** What the dictionary holds after the scan of [l]. *)
Definition dedup_inv (key_of : mention -> str) (d : dict) (l : list mention) : Prop :=
  NoDup (map fst d)
  /\ (forall k v, In (k, v) d -> key_of v = k /\ champion key_of l v)
  /\ (forall m, In m l -> exists v, In (key_of m, v) d).

(** The scored and sorted mentions of a stream, as the duplicate removal
    scans them. *)
Definition forum_candidates (svc : capabilities) (product : str) (attributes : list str)
           (threads : list thread) : list mention :=
  sort_desc forum_key_lt
    (map (score_forum (product_type_terms product attributes))
         (product_mentions (collect_forum svc product attributes threads))).

Definition video_candidates (svc : capabilities) (product : str) (attributes : list str)
           (videos : list video) : list mention :=
  sort_desc video_key_lt
    (map (score_video (product_type_terms product attributes))
         (collect_videos svc product attributes videos)).

(** The rank formulas, written as the specification writes them. *)
Definition clamp (lo hi x : Z) : Z := Z.max lo (Z.min hi x).

Definition matching (terms : list str) (product_name : str) : Z :=
  Z.of_nat (length (filter (fun term => contains term product_name) terms)).

Definition indicator (b : bool) : Q := if b then 1%Q else 0%Q.

Definition forum_rank (terms : list str) (m : mention) : Q :=
  (sentiment m * 5 + Qmin 5 (inject_Z (upvotes m) / 10)
   + 2 * inject_Z (clamp 0 5 (validity_score m))
   + inject_Z (matching terms (lower (product m)))
   + indicator (8 <? length (product m))%nat)%Q.

Definition video_rank (terms : list str) (in_title : mention -> bool) (m : mention) : Q :=
  (sentiment m * 3 + Qmin 3 (inject_Z (likes m) / 100)
   + Qmin 4 (inject_Z (views m) / 10000)
   + 2 * inject_Z (clamp 0 5 (validity_score m))
   + 3 * indicator (in_title m)
   + inject_Z (matching terms (lower (product m))))%Q.

(** The title test of the source: both sides lowercased. *)
Definition named_in_title (m : mention) : bool :=
  contains (lower (product m)) (lower (title m)).

(** The specification's reading of the query terms (the product type and
    every attribute) and of the title test (the title as written). *)
Definition query_terms_as_claimed (product : str) (attributes : list str) : list str :=
  lower product :: map lower attributes.

Definition named_in_title_as_claimed (m : mention) : bool :=
  contains (lower (product m)) (title m).

(** A product type that names a complete-system category. *)
Definition system_category (product_type : str) : bool :=
  any_in system_search_terms (lower product_type).

(** The specification's reading of the component test: the keyword rule
    applies to short names only, as in the validity scorer (fewer than 15
    characters there). *)
Definition is_component_as_claimed (m : mention) : bool :=
  let product_name := lower (product m) in
  let standalone_gpu :=
    (found (pat filter_gpu_pattern) product_name
     && negb (found (pat filter_system_pattern) product_name)
     && (length product_name <? 20)%nat)%bool in
  let other_component :=
    (any_in filter_component_terms product_name
     && (length product_name <? 15)%nat
     && negb (found (pat filter_system_pattern) product_name))%bool in
  if any_in system_brands product_name then false
  else (standalone_gpu || other_component)%bool.

(** The characters of a sanitized name: what [[^\w\s\-]] leaves, with every
    whitespace run turned into one space. *)
Definition allowed_char (c : ascii) : bool :=
  (is_word c || eqb_char c " " || eqb_char c "-")%bool.

(** The specification's reading: alphanumerics, spaces and hyphens. *)
Definition allowed_as_claimed (c : ascii) : bool :=
  (is_alnum c || eqb_char c " " || eqb_char c "-")%bool.

(** No two whitespace characters in a row. *)
Fixpoint single_spaced (s : str) : bool :=
  match s with
  | a :: s' =>
      match s' with
      | b :: _ => (negb (is_space a && is_space b) && single_spaced s')%bool
      | [] => true
      end
  | [] => true
  end.

(** The characters the first substitution of [sanitize] keeps. *)
Definition keeps (c : ascii) : bool :=
  (is_word c || is_space c || eqb_char "-" c)%bool.

(** The source list [l] extends [own] with URLs of [scanned] only. *)
Definition sources_ok (own : list str) (scanned : list mention) (l : list str) : Prop :=
  (exists more, l = own ++ more)
  /\ (forall url, In url l ->
        In url own \/ (url <> [] /\ exists m, In m scanned /\ source m = url)).



(** From position [n] on, no mention of [l] repeats, up to letter case, the
    name of a mention before it. *)
Definition fresh_after (n : nat) (l : list mention) : Prop :=
  forall l1 m l2, l = l1 ++ m :: l2 -> (n <= length l1)%nat ->
    forall m', In m' l1 -> lower (product m') <> lower (product m).

(** Between 0 and 1. *)
Definition unit_interval (x : Q) : Prop := (0 <= x)%Q /\ (x <= 1)%Q.

(** The record the forum stream builds for the candidate [model] of the
    comment [c] of the thread [th]. *)
Definition forum_record (svc : capabilities) (product : str) (attributes : list str)
           (th : thread) (c : comment) (model : str) : mention :=
  let '(_, validity_score, validity_reason) :=
    is_valid_product model (c_text c) product in
  forum_mention product attributes (t_url th) (c_text c) (c_upvotes c)
                (Utils.analyze_sentiment svc (c_text c)) model
                validity_score validity_reason.

(** The record the video stream builds for the candidate [model] of [v]. *)
Definition video_record (svc : capabilities) (product : str) (attributes : list str)
           (v : video) (model : str) : mention :=
  let '(_, validity_score, validity_reason) :=
    is_valid_product model (v_transcript v) product in
  video_mention product attributes v
                (Utils.analyze_sentiment svc (v_transcript v)) model
                validity_score validity_reason.

(** [m] is the record of a candidate name of a comment of one of [threads],
    found by either extractor. *)
Definition built_from_forum (svc : capabilities) (product : str) (attributes : list str)
           (threads : list thread) (m : mention) : Prop :=
  exists th c model,
    In th threads /\ In c (t_comments th)
    /\ (In model (Utils.extract_product_models svc (c_text c))
        \/ extract_model_from_text (c_text c) product = Some model)
    /\ m = forum_record svc product attributes th c model.

(** [m] is the record of a candidate name of one of [videos]. *)
Definition built_from_video (svc : capabilities) (product : str) (attributes : list str)
           (videos : list video) (m : mention) : Prop :=
  exists v model,
    In v videos
    /\ In model (Utils.extract_product_models svc (v_transcript v))
    /\ m = video_record svc product attributes v model.

(** A reason list that says something: not empty, and no empty entry. *)
Definition telling (reasons : list str) : Prop :=
  reasons <> [] /\ Forall (fun r => r <> []) reasons.

(** A check that moves the score by [lo] to [hi] and only adds reasons. *)
Definition moves_by (lo hi : Z) (v v' : verdict) : Prop :=
  fst v + lo <= fst v' <= fst v + hi
  /\ (Forall (fun r => r <> []) (snd v) -> Forall (fun r => r <> []) (snd v'))
  /\ (snd v <> [] -> snd v' <> []).

(** [a] ranks no lower than [b]. *)
Definition outranks (a b : mention) : Prop := (get_score b <= get_score a)%Q.

(** A list in descending order of score. *)
Definition descending (l : list mention) : Prop := StronglySorted outranks l.

(** [l'] is [l] with mentions added at its end. *)
Definition extends (l l' : list mention) : Prop := exists more, l' = l ++ more.

(** [sub] occurs in [s] as a run of consecutive characters. *)
Definition infix (sub s : str) : Prop := exists l1 l2, s = l1 ++ sub ++ l2.

(** No whitespace at either end. *)
Definition trimmed (s : str) : Prop := strip s = s.

(** No whitespace at all. *)
Definition unbroken (s : str) : Prop := Forall (fun c => is_space c = false) s.

(** What holds of a recommendation drawn from evidence with the URLs [urls],
    for the request attributes [attributes] and the stream default
    [fallback]. *)
Definition grounded (attributes urls : list str) (fallback : str) (r : recommendation)
  : Prop :=
  0 <= r_validity_score r
  /\ r_attributes r = attributes
  /\ (1 <= length (r_sources r) <= 3)%nat
  /\ NoDup (r_sources r)
  /\ (forall url, In url (r_sources r) -> url = fallback \/ In url urls).

(** [p] holds of [s] or of one of its suffixes: somewhere in [s]. *)
Fixpoint somewhere (p : str -> bool) (s : str) : bool :=
  (p s || match s with
          | [] => false
          | _ :: s' => somewhere p s'
          end)%bool.

(** The pattern of a literal word, and of a choice between literal words, as
    the parser builds them. *)
Fixpoint word (w : str) : regex :=
  match w with
  | [] => Eps
  | [c] => Lit c
  | c :: w' => Seq (Lit c) (word w')
  end.

Fixpoint one_of (words : list string) : regex :=
  match words with
  | [] => Cls false []
  | [w] => word `w
  | w :: rest => Alt (word `w) (one_of rest)
  end.

(** The loop of a quantified pattern, for the matcher [step] of its body. *)
Definition rep_loop (step : str -> caps -> (str -> caps -> option (str * caps))
                           -> option (str * caps))
           (k : str -> caps -> option (str * caps)) :=
  fix loop (fuel lo : nat) (hi : option nat) (s : str) (c : caps) {struct fuel}
    : option (str * caps) :=
    match fuel with
    | O => None
    | S f =>
        let more :=
          match hi with
          | Some O => None
          | _ =>
              step s c
                (fun s' c' =>
                   if (Nat.eqb lo 0 && Nat.eqb (length s') (length s))%bool
                   then None
                   else loop f (Nat.pred lo) (option_map Nat.pred hi) s' c')
          end in
        match more with
        | Some res => Some res
        | None => if Nat.eqb lo 0 then k s c else None
        end
    end.

(** Whether a match attempt succeeded. *)
Definition succeeded (o : option (str * caps)) : bool :=
  match o with Some _ => true | None => false end.

(** The continuation that ends a match. *)
Definition finish (s : str) (c : caps) : option (str * caps) := Some (s, c).

(** The component test as amended, with tables of its own. *)
Definition system_keywords : list string :=
  ["system"; "desktop"; "tower"; "pc"; "computer"; "gaming pc"; "laptop"]%string.

Definition component_keywords : list string :=
  ["ryzen"; "core i"; "intel"; "amd"; "processor"; "cpu"; "gpu"; "card"; "ram";
   "memory"]%string.

Definition known_system_brands : list string :=
  ["alienware"; "hp omen"; "dell xps"; "lenovo legion"; "asus rog"; "corsair"; "msi";
   "acer predator"; "ibuypower"; "cyberpower"]%string.

Definition gpu_families : list string := ["rtx"; "gtx"; "radeon rx"; "arc"]%string.

Definition three_digits (s : str) : bool :=
  match s with
  | a :: b :: c :: _ => (is_digit a && is_digit b && is_digit c)%bool
  | _ => false
  end.

(** A model number at the head of [s]: whitespace if any, at most one letter
    from a to z, then three digits. *)
Definition model_number (s : str) : bool :=
  let s := lstrip s in
  (three_digits s
   || match s with
      | c :: s' => (between 97 122 c && three_digits s')%bool
      | [] => false
      end)%bool.

(** A GPU family name at the head of [s], followed by a model number. *)
Definition gpu_model (s : str) : bool :=
  existsb (fun family =>
             (starts_with `family s && model_number (skipn (length `family) s))%bool)
          gpu_families.

Definition is_component_as_amended (m : mention) : bool :=
  let name := lower (product m) in
  (negb (any_in known_system_brands name)
   && negb (any_in system_keywords name)
   && ((somewhere gpu_model name && (length (product m) <? 20)%nat)
       || any_in component_keywords name))%bool.

(** The query terms as amended: the lowercased product type, then every
    attribute that is not the empty text, lowercased. *)
Fixpoint attribute_terms (attributes : list str) : list str :=
  match attributes with
  | [] => []
  | [] :: rest => attribute_terms rest
  | attr :: rest => lower attr :: attribute_terms rest
  end.

Definition query_terms_as_amended (product : str) (attributes : list str) : list str :=
  lower product :: attribute_terms attributes.

(** The characters of a product as amended: a letter or a digit (below 256:
    the ASCII ones, the ordinal indicators, superscripts, fractions and the
    micro sign of the Latin-1 supplement, and its letters), the underscore,
    the space or the hyphen. *)
Definition letter_or_digit_ranges : list (nat * nat) :=
  [(48, 57); (65, 90); (97, 122); (170, 170); (178, 179); (181, 181); (185, 186);
   (188, 190); (192, 214); (216, 246); (248, 255)]%nat.

Definition letter_or_digit (c : ascii) : bool :=
  existsb (fun range => between (fst range) (snd range) c) letter_or_digit_ranges.

Definition allowed_as_amended (c : ascii) : bool :=
  (letter_or_digit c || eqb_char c "_" || eqb_char c " " || eqb_char c "-")%bool.

(** No two spaces in a row. *)
Fixpoint spaces_apart (s : str) : bool :=
  match s with
  | a :: s' =>
      match s' with
      | b :: _ => (negb (eqb_char a " " && eqb_char b " ") && spaces_apart s')%bool
      | [] => true
      end
  | [] => true
  end.






(** The keys of the duplicate removal as stated: on the forum stream the
    lowercased name without the characters that are no ASCII letter or digit,
    on the video stream the lowercased name without the whitespace at its
    ends. *)
Definition ascii_letter_or_digit (c : ascii) : bool :=
  (between 48 57 c || between 65 90 c || between 97 122 c)%bool.

Definition forum_key_as_stated (m : mention) : str :=
  filter ascii_letter_or_digit (lower (product m)).

Definition video_key_as_stated (m : mention) : str :=
  strip (lower (product m)).

(** * Sample evidence *)

Module Examples.

Definition vacuum_thread : thread :=
  Thread `"Which vacuum?" `"https://www.reddit.com/r/vacuums/1"
         [Comment `"I love the Dyson V15 Detect" 10].

Definition vacuum_video : video :=
  Video `"Dyson V15 Detect review" `"https://www.youtube.com/watch?v=1"
        `"I love the Dyson V15 Detect" 20000 300.

(** What the forum stream builds and scores for [vacuum_thread]. *)
Definition vacuum_mention (attributes : list str) : mention :=
  let text := `"I love the Dyson V15 Detect" in
  let '(_, validity_score, validity_reason) :=
    is_valid_product `"Dyson V15 Detect" text `"vacuum" in
  score_forum (product_type_terms `"vacuum" attributes)
    (forum_mention `"vacuum" attributes `"https://www.reddit.com/r/vacuums/1" text 10
       (Utils.analyze_sentiment offline text) `"Dyson V15 Detect"
       validity_score validity_reason).

Definition vacuum_video_mention : mention :=
  let '(_, validity_score, validity_reason) :=
    is_valid_product `"Dyson V15 Detect" (v_transcript vacuum_video) `"vacuum" in
  score_video (product_type_terms `"vacuum" [])
    (video_mention `"vacuum" [] vacuum_video
       (Utils.analyze_sentiment offline (v_transcript vacuum_video))
       `"Dyson V15 Detect" validity_score validity_reason).

Definition spaced_video : video :=
  Video `"Review" `"https://www.youtube.com/watch?v=1" `"Dyson V15 Detect" 20000 300.
Definition hyphen_video : video :=
  Video `"Another" `"https://www.youtube.com/watch?v=2" `"Dyson V15-Detect" 100 1.
Definition spaced_hyphen_thread : thread :=
  Thread `"Which vacuum?" `"https://www.reddit.com/r/vacuums/1"
         [Comment `"Dyson V15 Detect" 10; Comment `"Dyson V15-Detect" 1].
Definition single_thread : thread :=
  Thread `"Which vacuum?" `"https://www.reddit.com/r/vacuums/2"
         [Comment `"Dyson V15 Detect" 10].

(** A plain mention for the formatter. *)
Definition listed (name : string) (validity : Z) (category url : string) (rank : Q)
  : mention :=
  Mention `name (ForumMetrics 0) (1 # 2) `url [] validity [] `category [] (Some rank).

Definition gpu_mention : mention := listed "RTX 4090" 4 "gaming pc" "https://u/1" 19.
Definition prebuilt_mention : mention :=
  listed "Alienware Aurora R16" 6 "gaming pc" "https://u/2" 12.
Definition boxed_cpu : mention :=
  listed "Ryzen 9 7950X3D Boxed Edition" 5 "gaming pc" "https://u/3" 10.
Definition underscore_mention : mention :=
  listed "Dyson_V15" 5 "vacuum" "https://u/4" 10.
Definition short_after_cleaning : mention :=
  listed "A1!!" 2 "phone" "https://u/5" 10.
Definition trusted_mention : mention :=
  listed "Dyson V15 Detect" 5 "vacuum" "https://u/6" 10.
Definition doubtful_mention : mention :=
  listed "Shark Navigator" 0 "vacuum" "https://u/7" 1.

Definition scenario_a_thread : thread :=
  Thread `"Best vacuum?" `"https://www.reddit.com/r/vacuums/3"
         [Comment `"I bought the Dyson V15 Detect and love it, 200 upvotes" 200].

(** A name of punctuation only. *)
Definition punctuation_mention : mention :=
  listed "!!!!!!" 3 "phone" "https://u/8" 10.

(** A name that is short as extracted. *)
Definition short_mention : mention :=
  listed "A1" 2 "phone" "https://u/9" 10.

(** A remote extraction that names "A1!!", and a comment that mentions it. *)
Definition naming_a1 : capabilities :=
  Capabilities (fun _ => Some [`"A1!!"]) (fun _ => None) (fun _ _ _ _ => None).

Definition a1_thread : thread :=
  Thread `"Which phone?" `"https://www.reddit.com/r/phones/1"
         [Comment `"I bought the A1!! and it is great" 10].

End Examples.

Import Examples.

(** * Facts about strings *)

Lemma eqb_char_eq (a b : ascii) : eqb_char a b = true <-> a = b.
Proof. unfold eqb_char. apply Ascii.eqb_eq. Qed.

Lemma str_eqb_eq (a b : str) : Str.eqb a b = true <-> a = b.
Proof.
  revert b. induction a as [|x a IH]; intros [|y b]; simpl; split; intro H;
    try reflexivity; try discriminate.
  - apply andb_true_iff in H as [Hc Hs]. apply eqb_char_eq in Hc.
    apply IH in Hs. congruence.
  - injection H as -> ->. apply andb_true_iff. split.
    + now apply eqb_char_eq.
    + now apply IH.
Qed.

Lemma str_eqb_refl (a : str) : Str.eqb a a = true.
Proof. now apply str_eqb_eq. Qed.

Lemma str_eqb_neq (a b : str) : Str.eqb a b = false <-> a <> b.
Proof.
  split.
  - intros H E. apply str_eqb_eq in E. congruence.
  - intro H. destruct (Str.eqb a b) eqn:E; [|reflexivity].
    apply str_eqb_eq in E. contradiction.
Qed.

Lemma lower_char_idem (c : ascii) : lower_char (lower_char c) = lower_char c.
Proof.
  destruct c as [b0 b1 b2 b3 b4 b5 b6 b7].
  destruct b0, b1, b2, b3, b4, b5, b6, b7; reflexivity.
Qed.

Lemma lower_idem (s : str) : lower (lower s) = lower s.
Proof.
  unfold lower. rewrite map_map. apply map_ext. intro c. apply lower_char_idem.
Qed.

Lemma lower_length (s : str) : length (lower s) = length s.
Proof. unfold lower. apply length_map. Qed.

Lemma find_from_empty (i : Z) (s : str) : find_from i [] s = i.
Proof. destruct s; reflexivity. Qed.

Lemma Qltb_lt (a b : Q) : Qltb a b = true <-> (a < b)%Q.
Proof.
  unfold Qltb. rewrite negb_true_iff. split.
  - intro H. apply Qnot_le_lt. intro L. apply Qle_bool_iff in L. congruence.
  - intro H. destruct (Qle_bool b a) eqn:E; [|reflexivity].
    apply Qle_bool_iff in E. exfalso. apply (Qlt_not_le _ _ H E).
Qed.

Lemma Qltb_ge (a b : Q) : Qltb a b = false <-> (b <= a)%Q.
Proof.
  unfold Qltb. rewrite negb_false_iff. apply Qle_bool_iff.
Qed.

(** * Facts about the stable sort *)

Section SortFacts.
  Variable A : Type.
  Variable lt : A -> A -> bool.

Lemma insert_desc_perm (x : A) (l : list A) :
    Permutation (insert_desc lt x l) (x :: l).
  Proof.
    induction l as [|y l IH]; simpl; [reflexivity|].
    destruct (lt x y); [|reflexivity].
    rewrite IH. apply perm_swap.
  Qed.

Lemma sort_desc_perm (l : list A) : Permutation (sort_desc lt l) l.
  Proof.
    induction l as [|x l IH]; simpl; [reflexivity|].
    rewrite insert_desc_perm. now constructor.
  Qed.

Lemma sort_desc_In (l : list A) (x : A) : In x (sort_desc lt l) <-> In x l.
  Proof.
    split; apply Permutation_in; [|symmetry]; apply sort_desc_perm.
  Qed.

Lemma sort_desc_nil_inv (l : list A) : sort_desc lt l = [] -> l = [].
  Proof.
    intro H. apply Permutation_nil. rewrite <- H. apply sort_desc_perm.
  Qed.
End SortFacts.

(** * Facts about the duplicate removal *)

Lemma dict_get_In (k : str) (d : dict) (v : mention) :
  dict_get k d = Some v -> In (k, v) d.
Proof.
  induction d as [|[k' v'] d IH]; simpl; [discriminate|].
  destruct (Str.eqb k k') eqn:E.
  - apply str_eqb_eq in E. intros [= ->]. left. congruence.
  - intro H. right. now apply IH.
Qed.

Lemma dict_get_None (k : str) (d : dict) :
  dict_get k d = None <-> ~ In k (map fst d).
Proof.
  induction d as [|[k' v'] d IH]; simpl.
  - split; [intros _ []|reflexivity].
  - destruct (Str.eqb k k') eqn:E.
    + apply str_eqb_eq in E. split; [discriminate|]. intro H. exfalso. apply H. now left.
    + apply str_eqb_neq in E. rewrite IH. split.
      * intros H [H1|H1]; [congruence|contradiction].
      * intros H H1. apply H. now right.
Qed.

Lemma dict_set_keys_new (k : str) (m : mention) (d : dict) :
  dict_get k d = None -> dict_set k m d = d ++ [(k, m)].
Proof.
  induction d as [|[k' v'] d IH]; simpl; [reflexivity|].
  destruct (Str.eqb k k'); [discriminate|]. intro H. now rewrite IH.
Qed.

Lemma dict_set_keys_old (k : str) (m v : mention) (d : dict) :
  dict_get k d = Some v -> map fst (dict_set k m d) = map fst d.
Proof.
  induction d as [|[k' v'] d IH]; simpl; [discriminate|].
  destruct (Str.eqb k k') eqn:E; simpl; [reflexivity|].
  intro H. now rewrite IH.
Qed.

Lemma dict_set_In_inv (k : str) (m : mention) (d : dict) (k' : str) (v' : mention) :
  NoDup (map fst d) ->
  In (k', v') (dict_set k m d) ->
  (k' = k /\ v' = m) \/ (k' <> k /\ In (k', v') d).
Proof.
  induction d as [|[k0 v0] d IH]; simpl; intro ND.
  - intros [[= <- <-]|[]]. now left.
  - inversion ND as [|? ? Hnotin ND']; subst.
    destruct (Str.eqb k k0) eqn:E.
    + apply str_eqb_eq in E. subst k0. intros [[= <- <-]|H]; [now left|].
      right. split; [|now right].
      intros ->. apply Hnotin. apply (in_map fst) in H. exact H.
    + apply str_eqb_neq in E. intros [[= <- <-]|H].
      * right. split; [congruence|now left].
      * destruct (IH ND' H) as [H1|[H1 H2]]; [now left|].
        right. split; [assumption|now right].
Qed.

Lemma dict_set_In_new (k : str) (m : mention) (d : dict) : In (k, m) (dict_set k m d).
Proof.
  induction d as [|[k0 v0] d IH]; simpl; [now left|].
  destruct (Str.eqb k k0) eqn:E.
  - apply str_eqb_eq in E. subst. now left.
  - now right.
Qed.

Lemma dict_set_In_other (k : str) (m : mention) (d : dict) (k' : str) (v' : mention) :
  k' <> k -> In (k', v') d -> In (k', v') (dict_set k m d).
Proof.
  intro Hne. induction d as [|[k0 v0] d IH]; simpl; [intros []|].
  destruct (Str.eqb k k0) eqn:E.
  - apply str_eqb_eq in E. subst k0. intros [[= <- <-]|H]; [congruence|now right].
  - intros [H|H]; [now left|right; now apply IH].
Qed.

Lemma dict_set_NoDup (k : str) (m : mention) (d : dict) :
  NoDup (map fst d) -> NoDup (map fst (dict_set k m d)).
Proof.
  intro ND. destruct (dict_get k d) as [v|] eqn:G.
  - now rewrite (dict_set_keys_old _ m _ _ G).
  - rewrite (dict_set_keys_new _ m _ G), map_app. simpl.
    apply NoDup_app; [assumption|constructor; [intros []|constructor]|].
    intros x Hx [<-|[]]. now apply dict_get_None in G.
Qed.

Section DedupFacts.
  Variable key_of : mention -> str.

Lemma champion_bound (l : list mention) (s m : mention) :
    champion key_of l s -> In m l -> key_of m = key_of s ->
    (get_score m <= get_score s)%Q.
  Proof.
    intros (l1 & l2 & -> & Hbefore & Hafter) Hin Hk.
    apply in_app_or in Hin as [Hin|[<-|Hin]].
    - apply Qlt_le_weak. now apply Hbefore.
    - apply Qle_refl.
    - now apply Hafter.
  Qed.

Lemma champion_snoc_other (l : list mention) (s m : mention) :
    champion key_of l s -> key_of m <> key_of s -> champion key_of (l ++ [m]) s.
  Proof.
    intros (l1 & l2 & -> & Hbefore & Hafter) Hne.
    exists l1, (l2 ++ [m]). split; [|split].
    - now rewrite <- app_assoc.
    - exact Hbefore.
    - intros x Hx Hk. apply in_app_or in Hx as [Hx|[<-|[]]].
      + now apply Hafter.
      + contradiction.
  Qed.

Lemma champion_snoc_kept (l : list mention) (s m : mention) :
    champion key_of l s -> (get_score m <= get_score s)%Q ->
    champion key_of (l ++ [m]) s.
  Proof.
    intros (l1 & l2 & -> & Hbefore & Hafter) Hle.
    exists l1, (l2 ++ [m]). split; [|split].
    - now rewrite <- app_assoc.
    - exact Hbefore.
    - intros x Hx Hk. apply in_app_or in Hx as [Hx|[<-|[]]].
      + now apply Hafter.
      + exact Hle.
  Qed.

Lemma keep_best_inv (d : dict) (l : list mention) (m : mention) :
    dedup_inv key_of d l -> dedup_inv key_of (keep_best key_of d m) (l ++ [m]).
  Proof.
    intros (ND & Hent & Hcov). unfold keep_best.
    destruct (dict_get (key_of m) d) as [kept|] eqn:G.
    - pose proof (dict_get_In _ _ _ G) as Hkept.
      destruct (Hent _ _ Hkept) as [Hkk Hchamp].
      destruct (Qltb (get_score kept) (get_score m)) eqn:Cmp.
      + apply Qltb_lt in Cmp. split; [|split].
        * now apply dict_set_NoDup.
        * intros k v Hin. apply dict_set_In_inv in Hin; [|exact ND].
          destruct Hin as [[-> ->]|[Hne Hin]].
          -- split; [reflexivity|]. exists l, []. split; [reflexivity|]. split.
             ++ intros x Hx Hk. apply Qle_lt_trans with (get_score kept); [|exact Cmp].
                apply (champion_bound _ _ _ Hchamp Hx). congruence.
             ++ intros x [].
          -- destruct (Hent _ _ Hin) as [Hk Hc]. split; [exact Hk|].
             apply champion_snoc_other; [exact Hc|congruence].
        * intros x Hx. apply in_app_or in Hx as [Hx|[<-|[]]].
          -- destruct (Hcov _ Hx) as [v Hv].
             destruct (str_eqb_eq (key_of x) (key_of m)) as [_ Heq].
             destruct (Str.eqb (key_of x) (key_of m)) eqn:E.
             ++ apply str_eqb_eq in E. rewrite E. exists m. apply dict_set_In_new.
             ++ apply str_eqb_neq in E. exists v. now apply dict_set_In_other.
          -- exists m. apply dict_set_In_new.
      + apply Qltb_ge in Cmp. split; [exact ND|split].
        * intros k v Hin. destruct (Hent _ _ Hin) as [Hk Hc]. split; [exact Hk|].
          destruct (Str.eqb k (key_of m)) eqn:E.
          -- apply str_eqb_eq in E. subst k.
             assert (v = kept) as ->.
             { clear - ND Hin Hkept E. rewrite <- E in Hkept.
               induction d as [|[k0 v0] d IH]; [destruct Hin|].
               simpl in ND. inversion ND as [|? ? Hnotin ND']; subst.
               destruct Hin as [[= -> ->]|Hin], Hkept as [[= ?]|Hkept].
               - congruence.
               - exfalso. apply Hnotin. apply (in_map fst) in Hkept. exact Hkept.
               - subst. exfalso. apply Hnotin. apply (in_map fst) in Hin. exact Hin.
               - now apply IH. }
             now apply champion_snoc_kept.
          -- apply str_eqb_neq in E. apply champion_snoc_other; [exact Hc|congruence].
        * intros x Hx. apply in_app_or in Hx as [Hx|[<-|[]]].
          -- now apply Hcov.
          -- exists kept. exact Hkept.
    - split; [|split].
      + now apply dict_set_NoDup.
      + intros k v Hin. apply dict_set_In_inv in Hin; [|exact ND].
        destruct Hin as [[-> ->]|[Hne Hin]].
        * split; [reflexivity|]. exists l, []. split; [reflexivity|]. split.
          -- intros x Hx Hk. exfalso. destruct (Hcov _ Hx) as [v Hv].
             apply dict_get_None in G. apply G. rewrite <- Hk.
             apply (in_map fst) in Hv. exact Hv.
          -- intros x [].
        * destruct (Hent _ _ Hin) as [Hk Hc]. split; [exact Hk|].
          apply champion_snoc_other; [exact Hc|congruence].
      + intros x Hx. apply in_app_or in Hx as [Hx|[<-|[]]].
        * destruct (Hcov _ Hx) as [v Hv]. exists v.
          apply dict_set_In_other; [|exact Hv].
          intro Hk. apply dict_get_None in G. apply G. rewrite <- Hk.
          apply (in_map fst) in Hv. exact Hv.
        * exists m. apply dict_set_In_new.
  Qed.

Lemma fold_keep_best_inv (l : list mention) :
    dedup_inv key_of (fold_left (keep_best key_of) l []) l.
  Proof.
    induction l as [|m l IH] using rev_ind.
    - split; [constructor|split]; [intros k v []|intros m []].
    - rewrite fold_left_app. simpl. now apply keep_best_inv.
  Qed.

  (** The duplicate removal, for any key: the survivors have pairwise
      different keys, each is the first mention of its key with the highest
      score, and every key of the input has its survivor. *)
Lemma remove_duplicates_spec (l : list mention) :
    NoDup (map key_of (remove_duplicates key_of l))
    /\ (forall s, In s (remove_duplicates key_of l) -> champion key_of l s)
    /\ (forall m, In m l ->
          exists s, In s (remove_duplicates key_of l) /\ key_of s = key_of m).
  Proof.
    destruct (fold_keep_best_inv l) as (ND & Hent & Hcov).
    unfold remove_duplicates, dict_values.
    set (d := fold_left (keep_best key_of) l []) in *.
    assert (Hkeys : map key_of (map snd d) = map fst d).
    { rewrite map_map. apply map_ext_in. intros [k v] Hin. simpl.
      now destruct (Hent _ _ Hin). }
    split; [|split].
    - now rewrite Hkeys.
    - intros s Hs. apply in_map_iff in Hs as ([k v] & <- & Hin).
      now destruct (Hent _ _ Hin).
    - intros m Hm. destruct (Hcov _ Hm) as [v Hv]. exists v. split.
      + apply in_map_iff. now exists (key_of m, v).
      + now destruct (Hent _ _ Hv).
  Qed.

Lemma remove_duplicates_In (l : list mention) (m : mention) :
    In m (remove_duplicates key_of l) -> In m l.
  Proof.
    intro H. destruct (remove_duplicates_spec l) as (_ & Hc & _).
    destruct (Hc _ H) as (l1 & l2 & -> & _). apply in_or_app. right. now left.
  Qed.
End DedupFacts.

(** * Facts about the validity scorer *)

Lemma check_category_empty (product_type_lower : str) (v : verdict) :
  check_category [] [] product_type_lower v = v.
Proof.
  unfold check_category.
  destruct (_ || _ || _)%bool; [destruct v; vm_compute; reflexivity|].
  destruct (_ || _ || _ || _)%bool; [destruct v; vm_compute; reflexivity|reflexivity].
Qed.

Lemma check_context_empty (context_text : str) (v : verdict) :
  fst (check_context [] context_text v) <= fst v + 1.
Proof.
  unfold check_context. destruct context_text as [|c rest]; [lia|].
  set (context_lower := lower (c :: rest)).
  assert (Hpre : (if any_in ownership_terms context_lower
                  then if find [] context_lower >=? 0
                       then if any_in ownership_terms
                                 (slice (Z.to_nat (Z.max 0 (find [] context_lower - 50)))
                                        (Z.to_nat (find [] context_lower)) context_lower)
                            then bump 3 `"Product mentioned in ownership context" v
                            else v
                       else v
                  else v) = v).
  { destruct (any_in ownership_terms context_lower); [|reflexivity].
    unfold find. rewrite find_from_empty. simpl. reflexivity. }
  rewrite Hpre.
  destruct (any_in recommend_terms context_lower); simpl; lia.
Qed.

Lemma validity_empty_name (context_text product_type : str) :
  fst (validity [] context_text product_type) <= -4.
Proof.
  unfold validity. simpl lower.
  eapply Z.le_trans; [apply check_context_empty|].
  rewrite check_category_empty. vm_compute. discriminate.
Qed.

Lemma is_valid_product_score (product_name context_text product_type : str) :
  is_valid_product product_name context_text product_type
  = (fst (validity product_name context_text product_type) >=? 3,
     fst (validity product_name context_text product_type),
     join `", " (snd (validity product_name context_text product_type))).
Proof. reflexivity. Qed.

(** * What every built mention satisfies *)

Section BuildFacts.
  Variable svc : capabilities.
  Variable product : str.
  Variable attributes : list str.

Lemma add_model_built (thread_url text : str) (upvotes : Z) (sentiment : Q)
        (acc : list mention) (model : str) :
    Forall well_built acc ->
    Forall well_built (add_model product attributes thread_url text upvotes sentiment acc model).
  Proof.
    intro H. unfold add_model. rewrite is_valid_product_score.
    destruct (_ <? 0) eqn:E; [assumption|].
    apply Forall_app. split; [assumption|]. constructor; [|constructor].
    apply Z.ltb_ge in E. split; simpl; [assumption|].
    intros ->. pose proof (validity_empty_name text product). lia.
  Qed.

Lemma scan_comment_built (thread_url : str) (acc : list mention) (c : comment) :
    Forall well_built acc ->
    Forall well_built (scan_comment svc product attributes thread_url acc c).
  Proof.
    intro H. unfold scan_comment.
    destruct (Utils.extract_product_models svc (c_text c)) as [|model models];
      [assumption|].
    generalize (model :: models). intro l. revert acc H.
    induction l as [|x l IH]; intros acc H; simpl; [assumption|].
    apply IH. now apply add_model_built.
  Qed.

Lemma model_pass_built (th : thread) (st : forum_state) :
    Forall well_built (product_mentions st) ->
    Forall well_built (product_mentions (model_pass svc product attributes th st)).
  Proof.
    unfold model_pass. simpl. generalize (product_mentions st). 
    induction (t_comments th) as [|c l IH]; intros acc H; simpl; [assumption|].
    apply IH. now apply scan_comment_built.
  Qed.

Lemma pattern_comment_built (thread_url : str) (st : forum_state) (c : comment) :
    Forall well_built (product_mentions st) ->
    Forall well_built (product_mentions (pattern_comment svc product attributes thread_url st c)).
  Proof.
    intro H. unfold pattern_comment.
    destruct (extract_model_from_text (c_text c) product) as [[|x name]|];
      [assumption| |assumption].
    rewrite is_valid_product_score.
    destruct (_ <? 0) eqn:E; [assumption|].
    destruct (negb _); [|assumption]. simpl.
    apply Forall_app. split; [assumption|]. constructor; [|constructor].
    apply Z.ltb_ge in E. split; simpl; [assumption|discriminate].
  Qed.

Lemma pattern_pass_built (th : thread) (st : forum_state) :
    Forall well_built (product_mentions st) ->
    Forall well_built (product_mentions (pattern_pass svc product attributes th st)).
  Proof.
    unfold pattern_pass. revert st.
    induction (t_comments th) as [|c l IH]; intros st H; simpl; [assumption|].
    apply IH. now apply pattern_comment_built.
  Qed.

Lemma process_thread_built (st : forum_state) (th : thread) :
    Forall well_built (product_mentions st) ->
    Forall well_built (product_mentions (process_thread svc product attributes st th)).
  Proof.
    intro H. unfold process_thread.
    destruct (_ <? 2)%nat.
    - apply pattern_pass_built. now apply model_pass_built.
    - now apply model_pass_built.
  Qed.

Lemma collect_forum_built (threads : list thread) :
    Forall well_built (product_mentions (collect_forum svc product attributes threads)).
  Proof.
    unfold collect_forum.
    assert (H : Forall well_built (product_mentions (ForumState [] []))) by constructor.
    revert H. generalize (ForumState [] []).
    induction threads as [|th l IH]; intros st H; simpl; [assumption|].
    apply IH. now apply process_thread_built.
  Qed.

Lemma add_video_model_built (v : video) (sentiment : Q) (acc : list mention) (model : str) :
    Forall well_built acc ->
    Forall well_built (add_video_model product attributes v sentiment acc model).
  Proof.
    intro H. unfold add_video_model. rewrite is_valid_product_score.
    destruct (_ <? 0) eqn:E; [assumption|].
    apply Forall_app. split; [assumption|]. constructor; [|constructor].
    apply Z.ltb_ge in E. split; simpl; [assumption|].
    intros ->. pose proof (validity_empty_name (v_transcript v) product). lia.
  Qed.

Lemma scan_video_built (acc : list mention) (v : video) :
    Forall well_built acc ->
    Forall well_built (scan_video svc product attributes acc v).
  Proof.
    intro H. unfold scan_video.
    destruct (Utils.extract_product_models svc (v_transcript v)) as [|model models];
      [assumption|].
    generalize (model :: models). intro l. revert acc H.
    induction l as [|x l IH]; intros acc H; simpl; [assumption|].
    apply IH. now apply add_video_model_built.
  Qed.

Lemma collect_videos_built (videos : list video) :
    Forall well_built (collect_videos svc product attributes videos).
  Proof.
    unfold collect_videos.
    assert (H : Forall well_built (@nil mention)) by constructor.
    revert H. generalize (@nil mention).
    induction videos as [|v l IH]; intros acc H; simpl; [assumption|].
    apply IH. now apply scan_video_built.
  Qed.

Lemma set_score_built (x : Q) (m : mention) : well_built m -> well_built (set_score x m).
  Proof. intros [H1 H2]. split; assumption. Qed.

  (** Every mention that leaves the forum stream was built by it, and only
      its score was assigned afterwards. *)
Lemma process_reddit_data_origin (threads : list thread) (m : mention) :
    In m (process_reddit_data svc product attributes threads) ->
    exists m0,
      In m0 (product_mentions (collect_forum svc product attributes threads))
      /\ m = score_forum (product_type_terms product attributes) m0.
  Proof.
    unfold process_reddit_data. intro H.
    apply remove_duplicates_In in H. apply sort_desc_In in H.
    apply in_map_iff in H as (m0 & <- & H). now exists m0.
  Qed.

Lemma process_youtube_data_origin (videos : list video) (m : mention) :
    In m (process_youtube_data svc product attributes videos) ->
    exists m0,
      In m0 (collect_videos svc product attributes videos)
      /\ m = score_video (product_type_terms product attributes) m0.
  Proof.
    unfold process_youtube_data. intro H.
    apply remove_duplicates_In in H. apply sort_desc_In in H.
    apply in_map_iff in H as (m0 & <- & H). now exists m0.
  Qed.

Lemma process_reddit_data_built (threads : list thread) :
    Forall well_built (process_reddit_data svc product attributes threads).
  Proof.
    apply Forall_forall. intros m H.
    apply process_reddit_data_origin in H as (m0 & H & ->).
    apply set_score_built.
    pose proof (collect_forum_built threads) as B.
    rewrite Forall_forall in B. now apply B.
  Qed.

Lemma process_youtube_data_built (videos : list video) :
    Forall well_built (process_youtube_data svc product attributes videos).
  Proof.
    apply Forall_forall. intros m H.
    apply process_youtube_data_origin in H as (m0 & H & ->).
    apply set_score_built.
    pose proof (collect_videos_built videos) as B.
    rewrite Forall_forall in B. now apply B.
  Qed.
End BuildFacts.

(** * Facts about the rank score *)

Lemma term_bonus_matching (terms : list str) (product_name : str) (start : Q) :
  (term_bonus terms product_name start == start + inject_Z (matching terms product_name))%Q.
Proof.
  unfold term_bonus, matching. revert start.
  induction terms as [|t terms IH]; intro start; simpl.
  - unfold inject_Z. ring.
  - rewrite IH. destruct (contains t product_name); simpl length.
    + rewrite Nat2Z.inj_succ, <- Z.add_1_l, inject_Z_plus. ring.
    + ring.
Qed.

Lemma validity_impact_clamp (m : mention) :
  (inject_Z (validity_impact m * 2) == 2 * inject_Z (clamp 0 5 (validity_score m)))%Q.
Proof.
  unfold validity_impact, clamp.
  replace (Z.min 5 (Z.max 0 (validity_score m)))
    with (Z.max 0 (Z.min 5 (validity_score m))) by lia.
  rewrite inject_Z_mult. ring.
Qed.

Lemma score_forum_rank (terms : list str) (m0 : mention) :
  exists s, score (score_forum terms m0) = Some s
            /\ (s == forum_rank terms (score_forum terms m0))%Q.
Proof.
  unfold score_forum. eexists. split; [reflexivity|].
  unfold forum_rank. simpl.
  change (upvotes (set_score _ m0)) with (upvotes m0).
  destruct (8 <? length (product m0))%nat; unfold indicator;
    rewrite term_bonus_matching, validity_impact_clamp; ring.
Qed.

Lemma score_video_rank (terms : list str) (m0 : mention) :
  exists s, score (score_video terms m0) = Some s
            /\ (s == video_rank terms named_in_title (score_video terms m0))%Q.
Proof.
  unfold score_video. eexists. split; [reflexivity|].
  unfold video_rank, named_in_title. simpl.
  change (likes (set_score _ m0)) with (likes m0).
  change (views (set_score _ m0)) with (views m0).
  change (title (set_score _ m0)) with (title m0).
  rewrite term_bonus_matching.
  destruct (contains (lower (product m0)) (lower (title m0))); unfold indicator;
    rewrite validity_impact_clamp; ring.
Qed.

Lemma product_type_terms_amended (product : str) (attributes : list str) :
  product_type_terms product attributes = query_terms_as_amended product attributes.
Proof.
  unfold product_type_terms, query_terms_as_amended. f_equal.
  induction attributes as [|attr rest IH]; [reflexivity|].
  destruct attr as [|c attr]; simpl; [exact IH|]. now rewrite IH.
Qed.

(** C2. The score of every mention a stream returns follows the formula of
    the stream. Forum: sentiment*5 + min(5, upvotes/10) + 2*clamp(validity, 0, 5)
    + 1 for each query term contained in the lowercased name + 1 when the name
    has more than 8 characters. Video: sentiment*3 + min(3, likes/100)
    + min(4, views/10000) + 2*clamp(validity, 0, 5) + 3 when the lowercased name
    occurs in the lowercased title + 1 for each query term contained in the
    lowercased name. The query terms are the lowercased product type and the
    lowercased attributes that are not empty. *)
Theorem rank_score_formula
  (svc : capabilities) (product : str) (attributes : list str)
  (threads : list thread) (videos : list video) (m : mention) :
  (In m (process_reddit_data svc product attributes threads) ->
   exists s, score m = Some s
             /\ (s == forum_rank (query_terms_as_amended product attributes) m)%Q)
  /\ (In m (process_youtube_data svc product attributes videos) ->
      exists s, score m = Some s
                /\ (s == video_rank (query_terms_as_amended product attributes)
                                    named_in_title m)%Q).
Proof.
  rewrite <- product_type_terms_amended. split; intro H.
  - apply process_reddit_data_origin in H as (m0 & _ & ->). apply score_forum_rank.
  - apply process_youtube_data_origin in H as (m0 & _ & ->). apply score_video_rank.
Qed.

(** * Facts about the category filter *)

Lemma is_system_search_category (first : mention) (rest : list mention) :
  is_system_search (first :: rest) = system_category (product_type first).
Proof.
  unfold is_system_search, system_category.
  destruct (product_type first); reflexivity.
Qed.

Lemma prefer_trusted_cases (l : list mention) (otherwise : selection) :
  (filter is_trusted l <> [] /\ prefer_trusted l otherwise = Fresh (filter is_trusted l))
  \/ (filter is_trusted l = [] /\ prefer_trusted l otherwise = otherwise).
Proof.
  unfold prefer_trusted. destruct (filter is_trusted l) eqn:E.
  - right. split; reflexivity.
  - left. split; [discriminate|reflexivity].
Qed.

Lemma selected_of_prefer_In (mentions l : list mention) (otherwise : selection) (m : mention) :
  In m (selected_of mentions (prefer_trusted l otherwise)) ->
  In m l \/ In m (selected_of mentions otherwise).
Proof.
  destruct (prefer_trusted_cases l otherwise) as [[_ ->]|[_ ->]]; simpl.
  - intro H. apply filter_In in H. left. tauto.
  - now right.
Qed.

Lemma selected_of_prefer_nonempty (mentions l : list mention) (otherwise : selection) :
  selected_of mentions otherwise <> [] ->
  selected_of mentions (prefer_trusted l otherwise) <> [].
Proof.
  destruct (prefer_trusted_cases l otherwise) as [[H ->]|[_ ->]]; simpl; auto.
Qed.

Lemma selected_In (mentions : list mention) (m : mention) :
  In m (selected_products mentions) -> In m mentions.
Proof.
  unfold selected_products. rewrite sort_desc_In. unfold category_filter.
  destruct (is_system_search mentions).
  - destruct (systems_of mentions) as [|s systems] eqn:E.
    + intro H. apply selected_of_prefer_In in H. simpl in H. tauto.
    + intro H. apply selected_of_prefer_In in H.
      assert (In m (systems_of mentions)) as Hs
        by (rewrite E; destruct H as [H|H]; exact H).
      unfold systems_of in Hs. apply filter_In in Hs. tauto.
  - intro H. apply selected_of_prefer_In in H. simpl in H. tauto.
Qed.

Lemma selected_products_nonempty (mentions : list mention) :
  mentions <> [] -> selected_products mentions <> [].
Proof.
  intros H E. unfold selected_products in E. apply sort_desc_nil_inv in E.
  revert E. unfold category_filter.
  destruct (is_system_search mentions).
  - destruct (systems_of mentions) as [|s systems] eqn:Es.
    + now apply selected_of_prefer_nonempty.
    + apply selected_of_prefer_nonempty. simpl. discriminate.
  - now apply selected_of_prefer_nonempty.
Qed.

Lemma selected_from_systems (mentions : list mention) (m : mention) :
  is_system_search mentions = true ->
  systems_of mentions <> [] ->
  In m (selected_products mentions) -> In m (systems_of mentions).
Proof.
  intros Hsys Hne. unfold selected_products. rewrite sort_desc_In.
  unfold category_filter. rewrite Hsys.
  destruct (systems_of mentions) as [|s systems] eqn:E; [contradiction|].
  intro H. apply selected_of_prefer_In in H. destruct H as [H|H]; exact H.
Qed.

(** The head of a list sorted by score has the highest score. *)
Lemma insert_desc_head (x : mention) (l : list mention) :
  (forall top rest, l = top :: rest ->
     forall m, In m l -> (get_score m <= get_score top)%Q) ->
  forall top rest, insert_desc score_lt x l = top :: rest ->
    forall m, In m (x :: l) -> (get_score m <= get_score top)%Q.
Proof.
  intros Hl top rest E m Hm. destruct l as [|y l']; simpl in E.
  - injection E as <- <-. destruct Hm as [<-|[]]. apply Qle_refl.
  - pose proof (Hl y l' eq_refl) as Hy. unfold score_lt in E.
    destruct (Qltb (get_score x) (get_score y)) eqn:C.
    + injection E as <- <-. apply Qltb_lt in C. destruct Hm as [<-|Hm].
      * now apply Qlt_le_weak.
      * now apply Hy.
    + injection E as <- <-. apply Qltb_ge in C. destruct Hm as [<-|Hm].
      * apply Qle_refl.
      * apply Qle_trans with (get_score y); [now apply Hy|exact C].
Qed.

Lemma sort_desc_head (l : list mention) (top : mention) (rest : list mention) :
  sort_desc score_lt l = top :: rest ->
  forall m, In m l -> (get_score m <= get_score top)%Q.
Proof.
  revert top rest. induction l as [|x l IH]; intros top rest E m Hm; [destruct Hm|].
  simpl in E. eapply insert_desc_head; [|exact E|].
  - intros t r Et m' Hm'. apply (IH t r Et). now apply sort_desc_In in Hm'.
  - destruct Hm as [<-|Hm]; [now left|right; now apply sort_desc_In].
Qed.

(** * Facts about the formatter *)

Lemma format_recommendation_cases (svc : capabilities) (mentions : list mention) (src : str) :
  (mentions = [] /\ format_recommendation svc mentions src = None)
  \/ exists top rest,
       selected_products mentions = top :: rest
       /\ ((length (product top) < 3)%nat
           /\ format_recommendation svc mentions src = None
           \/ (3 <= length (product top))%nat
              /\ format_recommendation svc mentions src
                 = Some (Recommendation
                           (sanitize (product top))
                           (generate_ai_description svc (sanitize (product top))
                              (description top) (product_type top)
                              (derived_attributes top))
                           (collect_sources top (mentions_after_sort mentions) src)
                           (generate_amazon_link (sanitize (product top)))
                           (generate_image_url (sanitize (product top)))
                           (validity_score top)
                           (attributes top))).
Proof.
  destruct mentions as [|m0 ms]; [left; split; reflexivity|right].
  pose proof (@selected_products_nonempty (m0 :: ms)) as Hne.
  unfold format_recommendation.
  destruct (selected_products (m0 :: ms)) as [|top rest]; [exfalso; now apply Hne|].
  exists top, rest. split; [reflexivity|].
  destruct (length (product top) <? 3)%nat eqn:E.
  - left. apply Nat.ltb_lt in E. split; [assumption|reflexivity].
  - right. apply Nat.ltb_ge in E. split; [assumption|reflexivity].
Qed.

(** * Facts about the sanitizer *)

Lemma sanitize_unfold (product_model : str) :
  sanitize product_model = strip (collapse_ws (filter keeps product_model)).
Proof.
  unfold sanitize, delete_set.
  change (pat "[^\w\s\-]") with (Cls true [CWord; CSpace; CChar "-"]).
  do 2 f_equal. apply filter_ext. intro c.
  unfold set_matches, keeps. cbn [existsb item_has andb].
  rewrite !orb_false_r, negb_involutive, orb_assoc. reflexivity.
Qed.

Lemma keeps_allowed (c : ascii) :
  keeps c = true -> is_space c = false -> allowed_char c = true.
Proof.
  unfold keeps, allowed_char. intros H Hs. rewrite Hs, orb_false_r in H.
  apply orb_true_iff in H as [H|H].
  - now rewrite H.
  - unfold eqb_char in *. apply Ascii.eqb_eq in H. subst c. reflexivity.
Qed.

Lemma collapse_from_In (in_run : bool) (s : str) (c : ascii) :
  In c (collapse_from in_run s) ->
  (In c s /\ is_space c = false) \/ c = " "%char.
Proof.
  revert in_run. induction s as [|a s IH]; intros in_run H; simpl in H; [destruct H|].
  destruct (is_space a) eqn:E.
  - destruct in_run.
    + destruct (IH _ H) as [[H1 H2]|H1]; [left; split; [now right|assumption]|now right].
    + destruct H as [<-|H]; [now right|].
      destruct (IH _ H) as [[H1 H2]|H1]; [left; split; [now right|assumption]|now right].
  - destruct H as [<-|H]; [left; split; [now left|assumption]|].
    destruct (IH _ H) as [[H1 H2]|H1]; [left; split; [now right|assumption]|now right].
Qed.

Lemma collapse_from_spaced (in_run : bool) (s : str) :
  single_spaced (collapse_from in_run s) = true
  /\ (in_run = true ->
      match collapse_from in_run s with
      | c :: _ => is_space c = false
      | [] => True
      end).
Proof.
  revert in_run. induction s as [|a s IH]; intro in_run; simpl; [split; auto|].
  destruct (is_space a) eqn:E.
  - destruct in_run.
    + apply IH.
    + split; [|discriminate].
      destruct (IH true) as [H1 H2]. specialize (H2 eq_refl).
      destruct (collapse_from true s) as [|b r]; [reflexivity|].
      change (single_spaced (" "%char :: b :: r))
        with (negb (is_space " " && is_space b) && single_spaced (b :: r))%bool.
      rewrite H2, andb_false_r. exact H1.
  - split; [|intros _; exact E].
    destruct (IH false) as [H1 _].
    destruct (collapse_from false s) as [|b r]; [reflexivity|].
    change (single_spaced (a :: b :: r))
      with (negb (is_space a && is_space b) && single_spaced (b :: r))%bool.
    rewrite E. exact H1.
Qed.

Lemma single_spaced_tail (a : ascii) (s : str) :
  single_spaced (a :: s) = true -> single_spaced s = true.
Proof.
  simpl. destruct s as [|b s]; [reflexivity|].
  intro H. apply andb_true_iff in H. tauto.
Qed.

Lemma single_spaced_suffix (l s : str) :
  single_spaced (l ++ s) = true -> single_spaced s = true.
Proof.
  induction l as [|a l IH]; simpl app; [trivial|].
  intro H. apply IH. now apply single_spaced_tail in H.
Qed.

Lemma single_spaced_prefix (s l : str) :
  single_spaced (s ++ l) = true -> single_spaced s = true.
Proof.
  induction s as [|a s IH]; [reflexivity|].
  intro H. pose proof (single_spaced_tail _ _ H) as Ht.
  specialize (IH Ht). destruct s as [|b s]; [reflexivity|].
  simpl in H |- *. apply andb_true_iff in H as [H _].
  apply andb_true_iff. split; [exact H|exact IH].
Qed.

Lemma lstrip_suffix (s : str) : exists l, s = l ++ lstrip s.
Proof.
  induction s as [|a s [l IH]]; simpl; [now exists []|].
  destruct (is_space a).
  - exists (a :: l). simpl. now f_equal.
  - now exists [].
Qed.

Lemma rstrip_prefix (s : str) : exists l, s = rstrip s ++ l.
Proof.
  unfold rstrip. destruct (lstrip_suffix (rev s)) as [l H].
  exists (rev l). rewrite <- rev_app_distr, <- H. now rewrite rev_involutive.
Qed.

Lemma strip_infix (s : str) : exists l1 l2, s = l1 ++ strip s ++ l2.
Proof.
  unfold strip. destruct (lstrip_suffix s) as [l1 H1].
  destruct (rstrip_prefix (lstrip s)) as [l2 H2].
  exists l1, l2. now rewrite <- H2.
Qed.

Lemma sanitize_tidy (product_model : str) :
  Forall (fun c => allowed_char c = true) (sanitize product_model)
  /\ single_spaced (sanitize product_model) = true.
Proof.
  rewrite sanitize_unfold.
  set (t := collapse_ws (filter keeps product_model)).
  destruct (strip_infix t) as (l1 & l2 & Ht). split.
  - apply Forall_forall. intros c Hc.
    assert (In c t) as Hin by (rewrite Ht; apply in_or_app; right; apply in_or_app; now left).
    apply collapse_from_In in Hin as [[Hin Hs] | ->]; [|reflexivity].
    apply filter_In in Hin as [_ Hk]. now apply keeps_allowed.
  - pose proof (proj1 (collapse_from_spaced false (filter keeps product_model))) as Hs.
    fold (collapse_ws (filter keeps product_model)) in Hs. fold t in Hs.
    rewrite Ht in Hs. apply single_spaced_suffix in Hs.
    now apply single_spaced_prefix in Hs.
Qed.

(** * Facts about the source list *)

Lemma add_source_cases (sources : list str) (url : str) :
  add_source sources url = sources
  \/ (add_source sources url = sources ++ [url]
      /\ url <> [] /\ ~ In url sources /\ (length sources < 3)%nat).
Proof.
  unfold add_source. destruct url as [|c u]; [now left|].
  destruct (mem (c :: u) sources) eqn:M; simpl; [now left|].
  destruct (length sources <? 3)%nat eqn:L; [|now left].
  right. split; [reflexivity|]. split; [discriminate|]. split.
  - intro Hin. unfold mem in M.
    assert (existsb (Str.eqb (c :: u)) sources = true) as Hx.
    { apply existsb_exists. exists (c :: u). split; [assumption|apply str_eqb_refl]. }
    congruence.
  - now apply Nat.ltb_lt.
Qed.

Lemma fold_add_source (scanned : list mention) (own : list str) :
  NoDup own -> (length own <= 3)%nat ->
  let l := fold_left (fun acc m => add_source acc (source m)) scanned own in
  NoDup l /\ (length l <= 3)%nat /\ sources_ok own scanned l.
Proof.
  revert own. induction scanned as [|m scanned IH]; intros own ND Len; simpl.
  - split; [assumption|]. split; [assumption|]. split.
    + exists []. now rewrite app_nil_r.
    + intros url H. now left.
  - destruct (add_source_cases own (source m)) as [E|(E & Hne & Hnew & Hlen)];
      rewrite E.
    + destruct (IH own ND Len) as (H1 & H2 & H3 & H4).
      split; [assumption|]. split; [assumption|]. split; [assumption|].
      intros url Hu. destruct (H4 url Hu) as [H|(Hn & x & Hx & Hsx)]; [now left|].
      right. split; [assumption|]. exists x. split; [now right|assumption].
    + assert (NoDup (own ++ [source m])) as ND'.
      { apply NoDup_app; [assumption|constructor; [intros []|constructor]|].
        intros x Hx [<-|[]]. contradiction. }
      assert (length (own ++ [source m]) <= 3)%nat as Len'.
      { rewrite length_app. simpl. lia. }
      destruct (IH _ ND' Len') as (H1 & H2 & [more H3] & H4).
      split; [assumption|]. split; [assumption|]. split.
      * exists (source m :: more). rewrite H3, <- app_assoc. reflexivity.
      * intros url Hu. destruct (H4 url Hu) as [H|(Hn & x & Hx & Hsx)].
        -- apply in_app_or in H as [H|[<-|[]]]; [now left|].
           right. split; [assumption|]. exists m. split; [now left|reflexivity].
        -- right. split; [assumption|]. exists x. split; [now right|assumption].
Qed.

Lemma fold_add_source_empty (scanned : list mention) :
  (forall m, In m scanned -> source m = []) ->
  fold_left (fun acc m => add_source acc (source m)) scanned [] = [].
Proof.
  induction scanned as [|m scanned IH]; intro H; simpl; [reflexivity|].
  rewrite (H m (or_introl eq_refl)). simpl. apply IH.
  intros x Hx. apply H. now right.
Qed.

Lemma default_sources_cases (src : str) :
  default_sources src = [] \/ exists url, default_sources src = [url].
Proof.
  unfold default_sources.
  destruct (Str.eqb src _); [right; eexists; reflexivity|].
  destruct (Str.eqb src _); [right; eexists; reflexivity|now left].
Qed.

Lemma collect_sources_scan (top : mention) (mentions : list mention) :
  (if (1 <? length mentions)%nat
   then fold_left (fun acc m => add_source acc (source m))
                  (firstn 4 (skipn 1 mentions))
                  (match source top with [] => [] | url => [url] end)
   else match source top with [] => [] | url => [url] end)
  = fold_left (fun acc m => add_source acc (source m))
              (firstn 4 (skipn 1 mentions))
              (match source top with [] => [] | url => [url] end).
Proof.
  destruct (1 <? length mentions)%nat eqn:E; [reflexivity|].
  apply Nat.ltb_ge in E. destruct mentions as [|a [|b l]]; simpl in E; try lia; reflexivity.
Qed.

Lemma collect_sources_spec (top : mention) (mentions : list mention) (src : str) :
  let scanned := firstn 4 (skipn 1 mentions) in
  let l := collect_sources top mentions src in
  NoDup l /\ (length l <= 3)%nat
  /\ (source top <> [] -> exists more, l = source top :: more)
  /\ (forall url, In url l ->
        url = source top
        \/ (exists m, In m scanned /\ source m = url)
        \/ l = default_sources src)
  /\ (source top = [] -> (forall m, In m scanned -> source m = []) ->
      l = default_sources src).
Proof.
  intros scanned l. unfold l, collect_sources. cbv zeta.
  rewrite collect_sources_scan. fold scanned.
  match goal with
  | |- context [fold_left _ scanned ?o] => set (own := o)
  end.
  assert (NoDup own) as ND.
  { unfold own. destruct (source top); [constructor|].
    constructor; [intros []|constructor]. }
  assert (length own <= 3)%nat as Len.
  { unfold own. destruct (source top); simpl; lia. }
  destruct (fold_add_source scanned own ND Len) as (H1 & H2 & [more H3] & H4).
  remember (fold_left (fun acc m => add_source acc (source m)) scanned own)
    as f eqn:Ef.
  destruct f as [|u f'].
  - split.
    { destruct (default_sources_cases src) as [->|[url ->]];
        [constructor|constructor; [intros []|constructor]]. }
    split.
    { destruct (default_sources_cases src) as [->|[url ->]]; simpl; lia. }
    split.
    { intro Hne. exfalso. unfold own in H3. destruct (source top); [now apply Hne|].
      discriminate. }
    split; [intros url Hu; right; now right|reflexivity].
  - split; [assumption|]. split; [assumption|]. split.
    { intro Hne. unfold own in H3. destruct (source top) as [|c s] eqn:Es;
        [now exfalso|]. simpl in H3. injection H3 as -> ->. now exists more. }
    split.
    { intros url Hu. destruct (H4 url Hu) as [H|(_ & x & Hx & Hsx)].
      - left. unfold own in H. destruct (source top); [destruct H|].
        destruct H as [<-|[]]. reflexivity.
      - right. left. now exists x. }
    intros Hs Hall. exfalso. unfold own in Ef. rewrite Hs in Ef.
    rewrite (fold_add_source_empty scanned Hall) in Ef. discriminate.
Qed.

(** * Facts about the pattern pass of the forum stream *)

Section PatternFacts.
  Variable svc : capabilities.
  Variable product : str.
  Variable attributes : list str.

Lemma pattern_comment_calls (thread_url : str) (st : forum_state) (c : comment) :
    pattern_calls (pattern_comment svc product attributes thread_url st c)
    = pattern_calls st ++ [c_text c].
  Proof.
    unfold pattern_comment.
    destruct (extract_model_from_text (c_text c) product) as [[|x name]|];
      [reflexivity| |reflexivity].
    rewrite is_valid_product_score.
    destruct (_ <? 0); [reflexivity|].
    destruct (negb _); reflexivity.
  Qed.

Lemma pattern_pass_calls (th : thread) (st : forum_state) :
    pattern_calls (pattern_pass svc product attributes th st)
    = pattern_calls st ++ map c_text (t_comments th).
  Proof.
    unfold pattern_pass. revert st.
    induction (t_comments th) as [|c l IH]; intro st; simpl.
    - now rewrite app_nil_r.
    - rewrite IH, pattern_comment_calls, <- app_assoc. reflexivity.
  Qed.

Lemma already_listed_false (model_name : str) (l : list mention) :
    already_listed model_name l = false ->
    forall m', In m' l -> lower (Recommender.product m') <> lower model_name.
  Proof.
    unfold already_listed. intros H m' Hin E.
    assert (existsb (fun m => Str.eqb (lower (Recommender.product m)) (lower model_name)) l = true) as Hx.
    { apply existsb_exists. exists m'. split; [assumption|]. now apply str_eqb_eq. }
    congruence.
  Qed.

Lemma pattern_comment_mentions (thread_url : str) (st : forum_state) (c : comment) :
    product_mentions (pattern_comment svc product attributes thread_url st c)
    = product_mentions st
    \/ exists m,
         product_mentions (pattern_comment svc product attributes thread_url st c)
         = product_mentions st ++ [m]
         /\ forall m', In m' (product_mentions st) ->
              lower (Recommender.product m') <> lower (Recommender.product m).
  Proof.
    unfold pattern_comment.
    destruct (extract_model_from_text (c_text c) product) as [[|x name]|];
      [now left| |now left].
    rewrite is_valid_product_score.
    destruct (_ <? 0); [now left|].
    destruct (already_listed (x :: name) (product_mentions st)) eqn:E; simpl;
      [now left|].
    right. eexists. split; [reflexivity|]. intros m' Hin.
    change (lower (Recommender.product m') <> lower (x :: name)).
    now apply already_listed_false with (l := product_mentions st).
  Qed.

Lemma fresh_after_snoc (n : nat) (l : list mention) (m : mention) :
    fresh_after n l ->
    (forall m', In m' l -> lower (Recommender.product m') <> lower (Recommender.product m)) ->
    fresh_after n (l ++ [m]).
  Proof.
    intros Hl Hm l1 x l2 E Hn m' Hin.
    destruct l2 as [|y l2] using rev_ind.
    - apply app_inj_tail in E as [-> ->]. now apply Hm.
    - clear IHl2. rewrite app_comm_cons, app_assoc in E.
      apply app_inj_tail in E as [-> _]. now apply (Hl l1 x l2 eq_refl Hn).
  Qed.

Lemma pattern_pass_mentions (th : thread) (st : forum_state) (n : nat) :
    fresh_after n (product_mentions st) ->
    exists added,
      product_mentions (pattern_pass svc product attributes th st)
      = product_mentions st ++ added
      /\ fresh_after n (product_mentions st ++ added).
  Proof.
    unfold pattern_pass. revert st.
    induction (t_comments th) as [|c l IH]; intros st Hf; simpl.
    - exists []. rewrite app_nil_r. split; [reflexivity|assumption].
    - destruct (pattern_comment_mentions (t_url th) st c) as [E|(m & E & Hm)].
      + destruct (IH (pattern_comment svc product attributes (t_url th) st c))
          as (added & Ha & Hfa); [now rewrite E|].
        exists added. rewrite Ha, E. split; [reflexivity|]. now rewrite <- E.
      + destruct (IH (pattern_comment svc product attributes (t_url th) st c))
          as (added & Ha & Hfa).
        { rewrite E. now apply fresh_after_snoc. }
        exists (m :: added). rewrite Ha, E, <- app_assoc. split; [reflexivity|].
        rewrite E, <- app_assoc in Hfa. exact Hfa.
  Qed.

Lemma fresh_after_length (l : list mention) : fresh_after (length l) l.
  Proof.
    intros l1 m l2 E Hn. exfalso. apply (f_equal (@List.length mention)) in E.
    rewrite length_app in E. simpl in E. lia.
  Qed.

Lemma collect_forum_snoc (threads : list thread) (th : thread) :
    collect_forum svc product attributes (threads ++ [th])
    = process_thread svc product attributes
        (collect_forum svc product attributes threads) th.
  Proof. unfold collect_forum. now rewrite fold_left_app. Qed.
End PatternFacts.

(** * Facts about the matcher *)

Lemma succeeded_orelse (a b : option (str * caps)) :
  succeeded (match a with Some res => Some res | None => b end)
  = (succeeded a || succeeded b)%bool.
Proof. destruct a; reflexivity. Qed.

Lemma run_rep (ic : bool) (lo : nat) (hi : option nat) (r : regex) (s : str) (c : caps)
      (k : str -> caps -> option (str * caps)) :
  run ic (Rep lo hi r) s c k = rep_loop (run ic r) k (lo + length s + 1) lo hi s c.
Proof. reflexivity. Qed.

Lemma run_word (w s : str) (c : caps) (k : str -> caps -> option (str * caps)) :
  run false (word w) s c k
  = if starts_with w s then k (skipn (length w) s) c else None.
Proof.
  revert s. induction w as [|a w IH]; intro s; [reflexivity|].
  destruct w as [|b w].
  - destruct s as [|y s]; [reflexivity|]. simpl.
    unfold lit_matches. rewrite andb_true_r. reflexivity.
  - change (word (a :: b :: w)) with (Seq (Lit a) (word (b :: w))).
    destruct s as [|y s]; [reflexivity|].
    cbn [run]. unfold lit_matches. cbn [starts_with].
    destruct (eqb_char a y); [|reflexivity].
    rewrite IH. reflexivity.
Qed.

Lemma run_one_of (words : list string) (s : str) (c : caps)
      (k : str -> caps -> option (str * caps)) (kb : str -> bool) :
  (forall s' c', succeeded (k s' c') = kb s') ->
  succeeded (run false (one_of words) s c k)
  = existsb (fun w => (starts_with `w s && kb (skipn (length `w) s))%bool) words.
Proof.
  intro Hk. induction words as [|w rest IH].
  - destruct s; reflexivity.
  - destruct rest as [|w' rest].
    + cbn [one_of existsb]. rewrite run_word, orb_false_r.
      destruct (starts_with `w s); [apply Hk|reflexivity].
    + change (one_of (w :: w' :: rest)) with (Alt (word `w) (one_of (w' :: rest))).
      cbn [run]. rewrite succeeded_orelse, IH, run_word. cbn [existsb].
      destruct (starts_with `w s); [now rewrite Hk|reflexivity].
Qed.

Lemma search_from_somewhere (r : regex) (i : nat) (s : str) :
  match search_from false r i s with Some _ => true | None => false end
  = somewhere (fun t => succeeded (run false r t [] finish)) s.
Proof.
  revert i. induction s as [|a s IH]; intro i; cbn [search_from somewhere]; unfold match_here.
  - change (fun (s' : str) (c : caps) => Some (s', c)) with finish.
    destruct (run false r [] [] finish) as [[s' c]|]; reflexivity.
  - change (fun (s' : str) (c : caps) => Some (s', c)) with finish.
    destruct (run false r (a :: s) [] finish) as [[s' c]|]; [reflexivity|].
    apply IH.
Qed.

Lemma found_somewhere (r : regex) (s : str) :
  found r s = somewhere (fun t => succeeded (run false r t [] finish)) s.
Proof. unfold found, search. apply search_from_somewhere. Qed.

Lemma contains_somewhere (sub s : str) : contains sub s = somewhere (starts_with sub) s.
Proof.
  induction s as [|a s IH]; cbn [contains somewhere].
  - now rewrite orb_false_r.
  - now rewrite IH.
Qed.

Lemma somewhere_ext (p q : str -> bool) (s : str) :
  (forall t, p t = q t) -> somewhere p s = somewhere q s.
Proof.
  intro H. induction s as [|a s IH]; cbn [somewhere]; rewrite H; [reflexivity|].
  now rewrite IH.
Qed.

Lemma existsb_pointwise {A : Type} (f g : A -> bool) (l : list A) :
  (forall x, f x = g x) -> existsb f l = existsb g l.
Proof.
  intro H. induction l as [|x l IH]; [reflexivity|]. cbn [existsb]. now rewrite H, IH.
Qed.

Lemma somewhere_existsb {A : Type} (f : A -> str -> bool) (l : list A) (s : str) :
  somewhere (fun t => existsb (fun x => f x t) l) s
  = existsb (fun x => somewhere (f x) s) l.
Proof.
  induction s as [|a s IH]; cbn [somewhere].
  - rewrite orb_false_r. apply existsb_pointwise. intro x. now rewrite orb_false_r.
  - rewrite IH. clear IH. induction l as [|x l IHl]; [reflexivity|].
    cbn [existsb]. rewrite <- IHl.
    destruct (f x (a :: s)), (somewhere (f x) s),
      (existsb (fun x0 => f x0 (a :: s)) l), (existsb (fun x0 => somewhere (f x0) s) l);
      reflexivity.
Qed.

(** A search for a choice between literal words is a substring test. *)
Lemma found_one_of (n : nat) (words : list string) (s : str) :
  found (Grp n (one_of words)) s = any_in words s.
Proof.
  rewrite found_somewhere. unfold any_in.
  rewrite (somewhere_ext _
             (fun t => existsb (fun w => starts_with `w t) words)).
  - rewrite (somewhere_existsb (fun w t => starts_with `w t)).
    apply existsb_pointwise. intro w. symmetry. apply contains_somewhere.
  - intro t. cbn [run].
    rewrite (run_one_of words t [] _ (fun _ => true)); [|reflexivity].
    apply existsb_pointwise. intro w. apply andb_true_r.
Qed.

(** * Facts about the component test *)

Lemma set_matches_one (item : citem) (y : ascii) :
  set_matches false false [item] y = item_has y item.
Proof. unfold set_matches. cbn [existsb andb]. now rewrite !orb_false_r. Qed.

Lemma run_cls (items : list citem) (s : str) (c : caps)
      (k : str -> caps -> option (str * caps)) :
  run false (Cls false items) s c k
  = match s with
    | y :: s' => if set_matches false false items y then k s' c else None
    | [] => None
    end.
Proof. reflexivity. Qed.

(** [\s*] before a continuation that refuses whitespace takes all of it. *)
Lemma spaces_loop (k : str -> caps -> option (str * caps)) :
  (forall y s c, is_space y = true -> k (y :: s) c = None) ->
  forall (fuel : nat) (s : str) (c : caps),
    (length s < fuel)%nat ->
    rep_loop (run false (Cls false [CSpace])) k fuel 0 None s c = k (lstrip s) c.
Proof.
  intros Hk fuel. induction fuel as [|f IH]; intros s c Hf; [lia|].
  cbn [rep_loop]. rewrite run_cls. destruct s as [|y s]; [reflexivity|].
  rewrite set_matches_one. cbn [item_has lstrip].
  destruct (is_space y) eqn:E; [|reflexivity].
  cbn [Nat.eqb andb length].
  replace (Nat.eqb (length s) (S (length s))) with false
    by (symmetry; apply Nat.eqb_neq; lia).
  cbn [Nat.pred option_map]. rewrite IH by (simpl in Hf; lia).
  rewrite (Hk y s c E). destruct (k (lstrip s) c); reflexivity.
Qed.

Lemma run_spaces (k : str -> caps -> option (str * caps)) (s : str) (c : caps) :
  (forall y s c, is_space y = true -> k (y :: s) c = None) ->
  run false (Rep 0 None (Cls false [CSpace])) s c k = k (lstrip s) c.
Proof. intro Hk. rewrite run_rep. apply spaces_loop; [exact Hk|lia]. Qed.

(** [[a-z]?]. *)
Lemma run_letter_opt (k : str -> caps -> option (str * caps)) (s : str) (c : caps) :
  run false (Rep 0 (Some 1%nat) (Cls false [CRange "a" "z"])) s c k
  = match s with
    | y :: s' =>
        if between 97 122 y
        then match k s' c with Some res => Some res | None => k s c end
        else k s c
    | [] => k [] c
    end.
Proof.
  rewrite run_rep. destruct s as [|y s]; [reflexivity|].
  cbn [length Nat.add rep_loop]. rewrite run_cls, set_matches_one.
  change (item_has y (CRange "a" "z")) with (between 97 122 y).
  destruct (between 97 122 y); [|reflexivity].
  cbn [Nat.eqb andb length].
  replace (Nat.eqb (length s) (S (length s))) with false
    by (symmetry; apply Nat.eqb_neq; lia).
  cbn [Nat.pred option_map].
  replace (length s + 1)%nat with (S (length s)) by lia. cbn [rep_loop Nat.eqb].
  reflexivity.
Qed.

(** [\d{3,4}] at the end of a pattern. *)
Lemma run_digits (s : str) (c : caps) :
  succeeded (run false (Rep 3 (Some 4%nat) (Cls false [CDigit])) s c finish)
  = three_digits s.
Proof.
  rewrite run_rep.
  replace (3 + length s + 1)%nat with (S (S (S (S (length s))))) by lia.
  destruct s as [|a s]; [reflexivity|].
  cbn [rep_loop]. rewrite run_cls, set_matches_one. cbn [item_has Nat.eqb andb].
  destruct (is_digit a) eqn:Ea; [|destruct s as [|b [|d s]]; cbn [three_digits]; rewrite ?Ea; reflexivity].
  cbn [Nat.pred option_map]. destruct s as [|b s]; [cbn; rewrite ?Ea; reflexivity|].
  cbn [rep_loop]. rewrite run_cls, set_matches_one. cbn [item_has Nat.eqb andb].
  destruct (is_digit b) eqn:Eb; [|destruct s as [|d s]; cbn [three_digits]; rewrite ?Ea, ?Eb; reflexivity].
  cbn [Nat.pred option_map]. destruct s as [|d s]; [cbn; rewrite ?Ea, ?Eb; reflexivity|].
  cbn [rep_loop]. rewrite run_cls, set_matches_one. cbn [item_has Nat.eqb andb].
  cbn [three_digits]. rewrite Ea, Eb. cbn [andb].
  destruct (is_digit d) eqn:Ed; [|reflexivity].
  cbn [Nat.pred option_map length].
  replace (Nat.eqb (length s) (S (length s))) with false
    by (symmetry; apply Nat.eqb_neq; lia).
  cbn [rep_loop]. rewrite run_cls.
  destruct s as [|e s]; [reflexivity|].
  rewrite set_matches_one. destruct (item_has e CDigit); [|reflexivity].
  cbn [Nat.eqb andb length].
  replace (Nat.eqb (length s) (S (length s))) with false
    by (symmetry; apply Nat.eqb_neq; lia).
  cbn [Nat.pred option_map].
  destruct (length s) as [|n]; reflexivity.
Qed.

Lemma space_not_letter (y : ascii) : is_space y = true -> between 97 122 y = false.
Proof.
  destruct y as [b0 b1 b2 b3 b4 b5 b6 b7].
  destruct b0, b1, b2, b3, b4, b5, b6, b7; vm_compute; intro H;
    try discriminate; reflexivity.
Qed.

Lemma space_not_digit (y : ascii) : is_space y = true -> is_digit y = false.
Proof.
  destruct y as [b0 b1 b2 b3 b4 b5 b6 b7].
  destruct b0, b1, b2, b3, b4, b5, b6, b7; vm_compute; intro H;
    try discriminate; reflexivity.
Qed.

Lemma three_digits_space (y : ascii) (s : str) :
  is_space y = true -> three_digits (y :: s) = false.
Proof.
  intro H. destruct s as [|b [|d s]]; cbn [three_digits]; try reflexivity.
  now rewrite (space_not_digit y H).
Qed.

Lemma succeeded_none (o : option (str * caps)) : succeeded o = false -> o = None.
Proof. destruct o; [discriminate|reflexivity]. Qed.

(** What follows the family name in the GPU pattern of the filter. *)
Lemma run_model_number (s : str) (c : caps) :
  succeeded
    (run false
       (Seq (Rep 0 None (Cls false [CSpace]))
            (Seq (Rep 0 (Some 1%nat) (Cls false [CRange "a" "z"]))
                 (Rep 3 (Some 4%nat) (Cls false [CDigit])))) s c finish)
  = model_number s.
Proof.
  change (run false (Seq ?a (Seq ?b ?d)) s c finish)
    with (run false a s c (fun s1 c1 => run false b s1 c1 (fun s2 c2 => run false d s2 c2 finish))).
  rewrite run_spaces.
  - rewrite run_letter_opt. unfold model_number. cbv zeta.
    destruct (lstrip s) as [|y s'].
    + apply run_digits.
    + destruct (between 97 122 y).
      * rewrite succeeded_orelse, !run_digits. cbn [andb]. apply orb_comm.
      * rewrite run_digits. cbn [andb]. now rewrite orb_false_r.
  - intros y s' c' Hy. rewrite run_letter_opt, (space_not_letter y Hy).
    apply succeeded_none. rewrite run_digits. now apply three_digits_space.
Qed.

Lemma filter_system_pattern_shape :
  pat filter_system_pattern = Grp 1 (one_of system_keywords).
Proof. vm_compute. reflexivity. Qed.

Lemma filter_gpu_pattern_shape :
  pat filter_gpu_pattern
  = Seq (Grp 1 (one_of gpu_families))
        (Seq (Rep 0 None (Cls false [CSpace]))
             (Seq (Rep 0 (Some 1%nat) (Cls false [CRange "a" "z"]))
                  (Rep 3 (Some 4%nat) (Cls false [CDigit])))).
Proof. vm_compute. reflexivity. Qed.

Lemma found_system_pattern (s : str) :
  found (pat filter_system_pattern) s = any_in system_keywords s.
Proof. rewrite filter_system_pattern_shape. apply found_one_of. Qed.

Lemma found_gpu_pattern (s : str) :
  found (pat filter_gpu_pattern) s = somewhere gpu_model s.
Proof.
  rewrite filter_gpu_pattern_shape, found_somewhere.
  apply somewhere_ext. intro t. unfold gpu_model.
  change (run false (Seq (Grp 1 ?g) ?rest) t [] finish)
    with (run false g t []
            (fun s' c' => (fun s2 c2 => run false rest s2 c2 finish)
                            s' ((1%nat, consumed t s') :: c'))).
  apply (run_one_of gpu_families t [] _ model_number).
  intros s' c'. apply run_model_number.
Qed.

(** The component test of the filter is the amended one. *)
Lemma is_component_amended (m : mention) : is_component m = is_component_as_amended m.
Proof.
  unfold is_component, is_component_as_amended. cbv zeta.
  rewrite found_system_pattern, found_gpu_pattern, lower_length.
  change system_brands with known_system_brands.
  change filter_component_terms with component_keywords.
  destruct (any_in known_system_brands (lower (product m))),
    (any_in system_keywords (lower (product m))),
    (somewhere gpu_model (lower (product m))),
    (length (product m) <? 20)%nat,
    (any_in component_keywords (lower (product m))); reflexivity.
Qed.

(** * Facts about the characters of a product *)

Lemma allowed_char_amended (c : ascii) : allowed_char c = allowed_as_amended c.
Proof.
  destruct c as [b0 b1 b2 b3 b4 b5 b6 b7].
  destruct b0, b1, b2, b3, b4, b5, b6, b7; vm_compute; reflexivity.
Qed.

Lemma single_spaced_apart (s : str) : single_spaced s = true -> spaces_apart s = true.
Proof.
  induction s as [|a s IH]; [reflexivity|].
  destruct s as [|b s]; [reflexivity|].
  change (single_spaced (a :: b :: s))
    with (negb (is_space a && is_space b) && single_spaced (b :: s))%bool.
  change (spaces_apart (a :: b :: s))
    with (negb (eqb_char a " " && eqb_char b " ") && spaces_apart (b :: s))%bool.
  intro H. apply andb_true_iff in H as [H1 H2]. rewrite (IH H2), andb_true_r.
  destruct (eqb_char a " ") eqn:Ea; [|reflexivity].
  destruct (eqb_char b " ") eqn:Eb; [|reflexivity].
  apply eqb_char_eq in Ea, Eb. subst. discriminate.
Qed.

(** * Facts about the list scanned for sources *)













(** * Facts about the keys of the duplicate removal *)

Lemma forum_key_stated (m : mention) : forum_key m = forum_key_as_stated m.
Proof.
  unfold forum_key, forum_key_as_stated.
  change (pat "[^a-zA-Z0-9]")
    with (Cls true [CRange "a" "z"; CRange "A" "Z"; CRange "0" "9"]).
  unfold delete_set. apply filter_ext. intro c.
  destruct c as [b0 b1 b2 b3 b4 b5 b6 b7].
  destruct b0, b1, b2, b3, b4, b5, b6, b7; vm_compute; reflexivity.
Qed.

Lemma video_key_stated (m : mention) : video_key m = video_key_as_stated m.
Proof. reflexivity. Qed.

Lemma champion_key (key key' : mention -> str) (l : list mention) (s : mention) :
  (forall m, key m = key' m) -> champion key l s -> champion key' l s.
Proof.
  intros E (l1 & l2 & H & H1 & H2). exists l1, l2. split; [exact H|]. split.
  - intros m Hm Hk. apply H1; [exact Hm|]. now rewrite !E.
  - intros m Hm Hk. apply H2; [exact Hm|]. now rewrite !E.
Qed.

(** What duplicate removal leaves, for a key equal to the key of the code. *)
Lemma remove_duplicates_keyed (key key' : mention -> str) (l : list mention) :
  (forall m, key m = key' m) ->
  NoDup (map key' (remove_duplicates key l))
  /\ (forall m, In m l ->
        exists s, In s (remove_duplicates key l)
                  /\ key' s = key' m /\ (get_score m <= get_score s)%Q)
  /\ (forall s, In s (remove_duplicates key l) -> champion key' l s).
Proof.
  intro E. destruct (remove_duplicates_spec key l) as (H1 & H2 & H3).
  split; [|split].
  - rewrite <- (map_ext key key' E). exact H1.
  - intros m Hm. destruct (H3 m Hm) as (s & Hs & Hk). exists s.
    split; [exact Hs|]. split; [now rewrite <- !E|].
    apply (champion_bound key _ s m (H2 s Hs) Hm). now symmetry.
  - intros s Hs. apply (champion_key key key' l s E). now apply H2.
Qed.

(** * The claims *)

Section Claims.
  Variable svc : capabilities.
  Variable product : str.
  Variable attributes : list str.

(** C1. No mention with a negative validity score leaves either stream: every
    mention returned by [process_reddit_data] or [process_youtube_data] has
    [validity_score >= 0]. *)
Theorem validity_floor (threads : list thread) (videos : list video) (m : mention) :
  In m (process_reddit_data svc product attributes threads)
  \/ In m (process_youtube_data svc product attributes videos) ->
  0 <= validity_score m.
Proof.
  intros [H|H].
  - pose proof (process_reddit_data_built svc product attributes threads) as B.
    rewrite Forall_forall in B. now apply B.
  - pose proof (process_youtube_data_built svc product attributes videos) as B.
    rewrite Forall_forall in B. now apply B.
Qed.

(** C9. The empty name always gets a negative validity score, and so no
    mention built or returned by either stream has an empty product name. *)
Theorem product_never_empty (threads : list thread) (videos : list video) :
  (forall context_text product_type,
      snd (fst (is_valid_product [] context_text product_type)) < 0)
  /\ (forall m,
        In m (product_mentions (collect_forum svc product attributes threads))
        \/ In m (collect_videos svc product attributes videos)
        \/ In m (process_reddit_data svc product attributes threads)
        \/ In m (process_youtube_data svc product attributes videos) ->
        Recommender.product m <> []).
Proof.
  split.
  - intros context_text product_type. rewrite is_valid_product_score. simpl.
    pose proof (validity_empty_name context_text product_type). lia.
  - intros m [H|[H|[H|H]]].
    + pose proof (collect_forum_built svc product attributes threads) as B.
      rewrite Forall_forall in B. now apply B.
    + pose proof (collect_videos_built svc product attributes videos) as B.
      rewrite Forall_forall in B. now apply B.
    + pose proof (process_reddit_data_built svc product attributes threads) as B.
      rewrite Forall_forall in B. now apply B.
    + pose proof (process_youtube_data_built svc product attributes videos) as B.
      rewrite Forall_forall in B. now apply B.
Qed.

End Claims.

Lemma validity_floor_witness :
  In (vacuum_mention []) (process_reddit_data offline `"vacuum" [] [vacuum_thread])
  /\ 0 <= validity_score (vacuum_mention []).
Proof.
  assert (H : In (vacuum_mention [])
                 (process_reddit_data offline `"vacuum" [] [vacuum_thread])).
  { vm_compute. left. reflexivity. }
  split; [exact H|].
  apply (validity_floor offline `"vacuum" [] [vacuum_thread] [] (vacuum_mention [])).
  left. exact H.
Defined.

Lemma product_never_empty_witness :
  In (vacuum_mention []) (process_reddit_data offline `"vacuum" [] [vacuum_thread])
  /\ Recommender.product (vacuum_mention []) <> [].
Proof.
  assert (H : In (vacuum_mention [])
                 (process_reddit_data offline `"vacuum" [] [vacuum_thread])).
  { vm_compute. left. reflexivity. }
  split; [exact H|].
  apply (proj2 (product_never_empty offline `"vacuum" [] [vacuum_thread] [])).
  right. right. left. exact H.
Defined.

(** The formulas on the mentions of [vacuum_thread] and [vacuum_video]. *)
Lemma rank_score_formula_witness :
  (In (vacuum_mention [`"cordless"])
      (process_reddit_data offline `"vacuum" [`"cordless"] [vacuum_thread])
   /\ exists s, score (vacuum_mention [`"cordless"]) = Some s
                /\ (s == forum_rank [`"vacuum"; `"cordless"]
                                    (vacuum_mention [`"cordless"]))%Q)
  /\ (In vacuum_video_mention (process_youtube_data offline `"vacuum" [] [vacuum_video])
      /\ exists s, score vacuum_video_mention = Some s
                   /\ (s == video_rank [`"vacuum"] named_in_title
                                       vacuum_video_mention)%Q).
Proof.
  assert (H : In (vacuum_mention [`"cordless"])
                 (process_reddit_data offline `"vacuum" [`"cordless"] [vacuum_thread])).
  { vm_compute. left. reflexivity. }
  assert (H' : In vacuum_video_mention
                  (process_youtube_data offline `"vacuum" [] [vacuum_video])).
  { vm_compute. left. reflexivity. }
  split; (split; [assumption|]).
  - apply (proj1 (rank_score_formula offline `"vacuum" [`"cordless"]
                    [vacuum_thread] [] (vacuum_mention [`"cordless"]))).
    exact H.
  - apply (proj2 (rank_score_formula offline `"vacuum" []
                    [] [vacuum_video] vacuum_video_mention)).
    exact H'.
Defined.

(** Against C2 as stated. With the request attributes [[""]] the forum score of
    "Dyson V15 Detect" is 17, one less than the formula that counts every
    attribute as a query term; and a video titled "Dyson V15 Detect review"
    earns the title bonus although the lowercased name does not occur in the
    title as written. *)
Lemma rank_score_formula_counterexample :
  (In (vacuum_mention [[]]) (process_reddit_data offline `"vacuum" [[]] [vacuum_thread])
   /\ (get_score (vacuum_mention [[]]) == 17)%Q
   /\ ~ (get_score (vacuum_mention [[]])
         == forum_rank (query_terms_as_claimed `"vacuum" [[]]) (vacuum_mention [[]]))%Q)
  /\ (In vacuum_video_mention (process_youtube_data offline `"vacuum" [] [vacuum_video])
      /\ (get_score vacuum_video_mention == 21)%Q
      /\ ~ (get_score vacuum_video_mention
            == video_rank (query_terms_as_claimed `"vacuum" []) named_in_title_as_claimed
                          vacuum_video_mention)%Q).
Proof.
  split; (split; [vm_compute; left; reflexivity|split; [vm_compute; reflexivity|]]);
    intro H; vm_compute in H; discriminate.
Qed.

(** C3. On the video stream two mentions whose names differ only in
    punctuation both survive: the transcripts "Dyson V15 Detect" and
    "Dyson V15-Detect" leave two survivors with the same normalized name,
    where the forum stream keeps one for the same two texts. *)
Theorem video_duplicates_survive :
  map product (process_youtube_data offline `"vacuum" []
                 [spaced_video; hyphen_video])
  = [`"Dyson V15 Detect"; `"Dyson V15"; `"Dyson V15-Detect"]
  /\ delete_set (pat "[^a-zA-Z0-9]") (lower `"Dyson V15 Detect")
     = delete_set (pat "[^a-zA-Z0-9]") (lower `"Dyson V15-Detect")
  /\ map product (process_reddit_data offline `"vacuum" [] [spaced_hyphen_thread])
     = [`"Dyson V15 Detect"; `"Dyson V15"].
Proof.
  split; [vm_compute; reflexivity|]. split; vm_compute; reflexivity.
Qed.

Section FormatterClaims.
  Variable svc : capabilities.

(** C4. On a system-category request (the product type contains computer,
    pc, desktop, gaming pc or laptop), when some mention is classified as a
    complete system the selected mentions are all systems, none a component;
    and for a "gaming pc" request with the mentions "RTX 4090" (validity 4)
    and "Alienware Aurora R16" (validity 6), in either order and whatever
    their other fields, the recommended product is "Alienware Aurora R16". *)
Theorem systems_preferred :
  (forall (request_type : str) (mentions : list mention) (system : mention),
      system_category request_type = true ->
      Forall (fun m => product_type m = request_type) mentions ->
      In system mentions -> is_component system = false ->
      forall m, In m (selected_products mentions) ->
                In m mentions /\ is_component m = false)
  /\ (forall (gpu prebuilt : mention) (src : str),
        product gpu = `"RTX 4090" -> product_type gpu = `"gaming pc" ->
        validity_score gpu = 4 ->
        product prebuilt = `"Alienware Aurora R16" ->
        product_type prebuilt = `"gaming pc" -> validity_score prebuilt = 6 ->
        option_map r_product (format_recommendation svc [gpu; prebuilt] src)
        = Some `"Alienware Aurora R16"
        /\ option_map r_product (format_recommendation svc [prebuilt; gpu] src)
           = Some `"Alienware Aurora R16").
Proof.
  split.
  - intros request_type mentions system Hcat Hall Hin Hsys m Hm.
    assert (is_system_search mentions = true) as Hs.
    { destruct mentions as [|first rest]; [destruct Hin|].
      rewrite is_system_search_category.
      inversion Hall as [|? ? Hfirst _]; subst. exact Hcat. }
    assert (systems_of mentions <> []) as Hne.
    { intro E. assert (In system (systems_of mentions)) as Hx.
      { apply filter_In. split; [assumption|]. now rewrite Hsys. }
      rewrite E in Hx. destruct Hx. }
    apply (selected_from_systems mentions m Hs Hne) in Hm.
    apply filter_In in Hm as [H1 H2]. split; [assumption|].
    now apply negb_true_iff in H2.
  - intros gpu prebuilt src Hg1 Hg2 Hg3 Hp1 Hp2 Hp3.
    destruct gpu, prebuilt. simpl in *. subst.
    split; vm_compute; reflexivity.
Qed.

(** C5. The component test of the category filter, with the tables it
    uses. A mention is a component exactly when its lowercased name holds none
    of the brands alienware, hp omen, dell xps, lenovo legion, asus rog,
    corsair, msi, acer predator, ibuypower and cyberpower, none of the keywords
    system, desktop, tower, pc, computer, gaming pc and laptop, and either
    holds a GPU model (rtx, gtx, radeon rx or arc, then whitespace if any, at
    most one letter from a to z and three digits) in a name of fewer than 20
    characters, or holds one of the keywords ryzen, core i, intel, amd,
    processor, cpu, gpu, card, ram and memory, whatever the length of the name.
    The systems of the partition are the mentions that are no component. *)
Theorem component_classification (m : mention) :
  (is_component m = true <->
     any_in known_system_brands (lower (product m)) = false
     /\ any_in system_keywords (lower (product m)) = false
     /\ ((somewhere gpu_model (lower (product m)) = true
          /\ (length (product m) < 20)%nat)
         \/ any_in component_keywords (lower (product m)) = true))
  /\ (forall mentions,
        systems_of mentions
        = filter (fun x => negb (is_component_as_amended x)) mentions
        /\ components_of mentions = filter is_component_as_amended mentions).
Proof.
  split.
  - rewrite is_component_amended. unfold is_component_as_amended. cbv zeta.
    rewrite !andb_true_iff, orb_true_iff, andb_true_iff, !negb_true_iff, Nat.ltb_lt.
    tauto.
  - intro mentions. unfold systems_of, components_of.
    split; apply filter_ext; intro x; now rewrite is_component_amended.
Qed.

(** C6. The product of a recommendation holds only letters and digits
    (those of the Latin-1 supplement among them), underscores, spaces and
    hyphens, and never two spaces in a row. *)
Theorem product_sanitized (mentions : list mention) (src : str) (r : recommendation) :
  format_recommendation svc mentions src = Some r ->
  Forall (fun c => allowed_as_amended c = true) (r_product r)
  /\ spaces_apart (r_product r) = true.
Proof.
  intro H.
  destruct (format_recommendation_cases svc mentions src)
    as [[_ E]|(top & rest & _ & [[_ E]|[_ E]])]; rewrite E in H; try discriminate.
  injection H as <-. cbn [r_product].
  destruct (sanitize_tidy (product top)) as [H1 H2]. split.
  - apply Forall_forall. intros c Hc. rewrite <- allowed_char_amended.
    rewrite Forall_forall in H1. now apply H1.
  - now apply single_spaced_apart.
Qed.

(** The outcome of the formatter case by case: nothing for an empty input
    or a winner whose name, as extracted, has fewer than 3 characters;
    otherwise the record of the winner, the first mention of the filtered list
    re-sorted by score, which holds the highest score of that list. *)
Lemma formatter_outcome (mentions : list mention) (src : str) :
  (format_recommendation svc mentions src = None <->
     mentions = []
     \/ exists top rest, selected_products mentions = top :: rest
                         /\ (length (product top) < 3)%nat)
  /\ (forall r, format_recommendation svc mentions src = Some r ->
        exists top rest,
          selected_products mentions = top :: rest
          /\ (forall m, In m (selected_products mentions) ->
                (get_score m <= get_score top)%Q)
          /\ r_product r = sanitize (product top)
          /\ r_description r
             = generate_ai_description svc (sanitize (product top)) (description top)
                 (product_type top) (derived_attributes top)
          /\ r_buy_link r = generate_amazon_link (sanitize (product top))
          /\ r_image_url r = generate_image_url (sanitize (product top))
          /\ r_validity_score r = validity_score top
          /\ r_attributes r = attributes top).
Proof.
  destruct (format_recommendation_cases svc mentions src)
    as [[Hm E]|(top & rest & Hsel & [[Hlen E]|[Hlen E]])]; rewrite E.
  - split; [split; [now left|reflexivity]|discriminate].
  - split; [|discriminate]. split; [|reflexivity].
    intros _. right. now exists top, rest.
  - split.
    + split; [discriminate|]. intros [->|(top' & rest' & Hsel' & Hlen')].
      * discriminate.
      * rewrite Hsel in Hsel'. injection Hsel' as <- <-. lia.
    + intros r [= <-]. exists top, rest. split; [assumption|]. split.
      * intros m Hm. unfold selected_products in Hsel, Hm.
        apply (sort_desc_head _ top rest Hsel). now apply sort_desc_In in Hm.
      * simpl. repeat split; reflexivity.
Qed.


End FormatterClaims.

(** Against C5 as stated. "Ryzen 9 7950X3D Boxed Edition" has 29 characters, a
    component keyword, no system keyword and no system brand: the filter
    classifies it as a component although the name is not short. *)
Lemma component_classification_counterexample :
  is_component boxed_cpu = true
  /\ is_component_as_claimed boxed_cpu = false
  /\ length (product boxed_cpu) = 29%nat.
Proof. repeat split; vm_compute; reflexivity. Qed.

(** Against C6 as stated. The underscore of "Dyson_V15" stays in the product
    of the recommendation. *)
Lemma product_sanitized_counterexample :
  option_map r_product (format_recommendation offline [underscore_mention] `"reddit")
  = Some `"Dyson_V15"
  /\ existsb (fun c => negb (allowed_as_claimed c)) `"Dyson_V15" = true.
Proof. split; vm_compute; reflexivity. Qed.

(** C7. The length test of the formatter reads the name before it is
    sanitized, so a winner whose sanitized name has fewer than 3 characters is
    recommended all the same: "A1!!" gives the product "A1", also through the
    whole pipeline when the remote extraction names it in a comment, and
    "!!!!!!" gives the empty product with a search link for nothing. The name
    "A1" itself, short as extracted, is refused. *)
Theorem sanitized_length_unchecked :
  option_map r_product
    (format_recommendation offline [short_after_cleaning] `"reddit")
  = Some `"A1"
  /\ length (sanitize (product short_after_cleaning)) = 2%nat
  /\ option_map (fun r => (r_product r, r_buy_link r))
       (format_recommendation offline [punctuation_mention] `"reddit")
     = Some ([], `"https://www.amazon.com/s?k=&tag=allurecomreco-20")
  /\ option_map r_product
       (fst (process_and_rank_products naming_a1 `"phone" [] [a1_thread] []))
     = Some `"A1"
  /\ format_recommendation offline [short_mention] `"reddit" = None.
Proof. repeat split; vm_compute; reflexivity. Qed.


Lemma systems_preferred_witness :
  In prebuilt_mention (selected_products [gpu_mention; prebuilt_mention])
  /\ (In prebuilt_mention [gpu_mention; prebuilt_mention]
      /\ is_component prebuilt_mention = false)
  /\ option_map r_product
       (format_recommendation offline [gpu_mention; prebuilt_mention] `"reddit")
     = Some `"Alienware Aurora R16".
Proof.
  assert (H : In prebuilt_mention (selected_products [gpu_mention; prebuilt_mention])).
  { vm_compute. left. reflexivity. }
  split; [exact H|]. split.
  - apply (proj1 (systems_preferred offline) `"gaming pc"
                 [gpu_mention; prebuilt_mention] prebuilt_mention).
    + vm_compute. reflexivity.
    + repeat constructor.
    + right. left. reflexivity.
    + vm_compute. reflexivity.
    + exact H.
  - apply (proj2 (systems_preferred offline) gpu_mention prebuilt_mention `"reddit");
      reflexivity.
Defined.

Lemma product_sanitized_witness :
  exists r,
    format_recommendation offline [trusted_mention] `"reddit" = Some r
    /\ Forall (fun c => allowed_as_amended c = true) (r_product r)
    /\ spaces_apart (r_product r) = true.
Proof.
  destruct (format_recommendation offline [trusted_mention] `"reddit") as [r|] eqn:E;
    [|vm_compute in E; discriminate].
  exists r. split; [reflexivity|].
  exact (product_sanitized offline [trusted_mention] `"reddit" r E).
Defined.


(** C10. The pattern pass over a thread's comments runs only while fewer
    than 2 mentions are held after the first pass, counting those of the
    threads processed before: with 2 or more the thread leaves the state of
    the first pass untouched and no call of [extract_model_from_text] is
    recorded; with fewer, the extractor is called once per comment. A model
    added by the pattern pass never repeats, up to letter case, the name of a
    mention already held; in particular its lowercased name equals none of
    those names. *)
Theorem pattern_pass_gate
  (svc : capabilities) (product : str) (attributes : list str)
  (st : forum_state) (th : thread) :
  let st1 := model_pass svc product attributes th st in
  pattern_calls st1 = pattern_calls st
  /\ ((2 <= length (product_mentions st1))%nat ->
      process_thread svc product attributes st th = st1)
  /\ ((length (product_mentions st1) < 2)%nat ->
      process_thread svc product attributes st th
      = pattern_pass svc product attributes th st1
      /\ pattern_calls (process_thread svc product attributes st th)
         = pattern_calls st ++ map c_text (t_comments th))
  /\ (exists added,
        product_mentions (pattern_pass svc product attributes th st1)
        = product_mentions st1 ++ added
        /\ forall l1 m l2,
             product_mentions st1 ++ added = l1 ++ m :: l2 ->
             (length (product_mentions st1) <= length l1)%nat ->
             forall m', In m' l1 ->
               lower (Recommender.product m') <> lower (Recommender.product m)
               /\ Recommender.product m' <> lower (Recommender.product m))
  /\ (forall threads,
        collect_forum svc product attributes (threads ++ [th])
        = process_thread svc product attributes
            (collect_forum svc product attributes threads) th).
Proof.
  intro st1. split; [reflexivity|]. split; [|split; [|split]].
  - intro H. unfold process_thread. fold st1.
    destruct (length (product_mentions st1) <? 2)%nat eqn:E; [|reflexivity].
    apply Nat.ltb_lt in E. lia.
  - intro H. unfold process_thread. fold st1.
    destruct (length (product_mentions st1) <? 2)%nat eqn:E.
    + split; [reflexivity|]. now rewrite pattern_pass_calls.
    + apply Nat.ltb_ge in E. lia.
  - destruct (pattern_pass_mentions svc product attributes th st1
                (length (product_mentions st1)) (fresh_after_length _))
      as (added & Ha & Hf).
    exists added. split; [exact Ha|].
    intros l1 m l2 E Hlen m' Hin.
    pose proof (Hf l1 m l2 E Hlen m' Hin) as Hne. split; [exact Hne|].
    intro Heq. apply Hne. rewrite Heq. apply lower_idem.
  - intro threads. apply collect_forum_snoc.
Qed.

Lemma pattern_pass_gate_witness :
  (* gate open: one mention after the first pass, the extractor is called *)
  pattern_calls (process_thread offline `"vacuum" [] (ForumState [] []) single_thread)
  = [`"Dyson V15 Detect"]
  (* gate closed: three mentions held, the thread adds no call *)
  /\ process_thread offline `"vacuum" []
       (collect_forum offline `"vacuum" [] [spaced_hyphen_thread]) single_thread
     = model_pass offline `"vacuum" [] single_thread
         (collect_forum offline `"vacuum" [] [spaced_hyphen_thread]).
Proof.
  split.
  - apply (proj2 (proj1 (proj2 (proj2
             (pattern_pass_gate offline `"vacuum" [] (ForumState [] []) single_thread)))
             ltac:(vm_compute; lia))).
  - apply (proj1 (proj2
             (pattern_pass_gate offline `"vacuum" []
                (collect_forum offline `"vacuum" [] [spaced_hyphen_thread])
                single_thread))).
    vm_compute. lia.
Defined.

(** X1. Duplicate removal on each stream, for the key of that stream (the
    lowercased name without the characters that are no ASCII letter or digit
    on the forum stream, the lowercased name without the whitespace at its ends
    on the video stream): no two survivors share a key, every scored mention
    has a survivor of its key whose score is at least its own, and each
    survivor is the first mention of its key, in the order of the sorted list,
    that reaches the highest score. *)
Theorem duplicates_removed
  (svc : capabilities) (product : str) (attributes : list str)
  (threads : list thread) (videos : list video) :
  (NoDup (map forum_key_as_stated (process_reddit_data svc product attributes threads))
   /\ (forall m, In m (forum_candidates svc product attributes threads) ->
         exists s, In s (process_reddit_data svc product attributes threads)
                   /\ forum_key_as_stated s = forum_key_as_stated m
                   /\ (get_score m <= get_score s)%Q)
   /\ (forall s, In s (process_reddit_data svc product attributes threads) ->
         champion forum_key_as_stated
                  (forum_candidates svc product attributes threads) s))
  /\ (NoDup (map video_key_as_stated (process_youtube_data svc product attributes videos))
      /\ (forall m, In m (video_candidates svc product attributes videos) ->
            exists s, In s (process_youtube_data svc product attributes videos)
                      /\ video_key_as_stated s = video_key_as_stated m
                      /\ (get_score m <= get_score s)%Q)
      /\ (forall s, In s (process_youtube_data svc product attributes videos) ->
            champion video_key_as_stated
                     (video_candidates svc product attributes videos) s)).
Proof.
  split.
  - exact (remove_duplicates_keyed forum_key forum_key_as_stated
             (forum_candidates svc product attributes threads) forum_key_stated).
  - exact (remove_duplicates_keyed video_key video_key_as_stated
             (video_candidates svc product attributes videos) video_key_stated).
Qed.

(** Scenario A: with no remote capability, the forum comment "I bought
    the Dyson V15 Detect and love it, 200 upvotes" for the category "vacuum
    cleaner" and the attribute "cordless" yields the candidate
    "Dyson V15 Detect" with validity score 8, and that name is recommended. *)
Theorem scenario_a :
  map (fun m => (product m, validity_score m))
      (process_reddit_data offline `"vacuum cleaner" [`"cordless"] [scenario_a_thread])
  = [(`"Dyson V15 Detect", 8)]
  /\ option_map r_product
       (format_recommendation offline
          (process_reddit_data offline `"vacuum cleaner" [`"cordless"]
             [scenario_a_thread]) `"reddit")
     = Some `"Dyson V15 Detect".
Proof. split; vm_compute; reflexivity. Qed.

(** * Where the mentions come from *)

Lemma count_in_nonneg (terms : list string) (s : str) : 0 <= Utils.count_in terms s.
Proof. unfold Utils.count_in. lia. Qed.

Lemma basic_sentiment_analysis_range (text : str) :
  unit_interval (Utils.basic_sentiment_analysis text).
Proof.
  unfold Utils.basic_sentiment_analysis, unit_interval.
  set (p := Utils.count_in Utils.positive_terms (lower text)).
  set (n := Utils.count_in Utils.negative_terms (lower text)).
  pose proof (count_in_nonneg Utils.positive_terms (lower text)) as Hp.
  pose proof (count_in_nonneg Utils.negative_terms (lower text)) as Hn.
  fold p in Hp. fold n in Hn.
  destruct (p + n =? 0) eqn:E.
  - split; unfold Qle; simpl; lia.
  - apply Z.eqb_neq in E.
    assert (0 < inject_Z (p + n))%Q as Hpos.
    { unfold Qlt, inject_Z. simpl. lia. }
    split.
    + apply Qle_shift_div_l; [exact Hpos|].
      rewrite Qmult_0_l. change 0%Q with (inject_Z 0). rewrite <- Zle_Qle. exact Hp.
    + apply Qle_shift_div_r; [exact Hpos|].
      rewrite Qmult_1_l, <- Zle_Qle. lia.
Qed.

Lemma analyze_sentiment_range (svc : capabilities) (text : str) :
  unit_interval (Utils.analyze_sentiment svc text).
Proof.
  unfold Utils.analyze_sentiment. destruct text as [|c rest].
  - split; unfold Qle; simpl; lia.
  - destruct (nlp_sentiment svc (c :: rest)) as [x|].
    + split.
      * apply Q.le_max_l.
      * apply Q.max_lub; [unfold Qle; simpl; lia|apply Q.le_min_l].
    + apply basic_sentiment_analysis_range.
Qed.



Lemma fold_left_invariant {S A : Type} (inv : S -> Prop) (ok : A -> Prop)
      (f : S -> A -> S) (l : list A) :
  (forall s x, ok x -> inv s -> inv (f s x)) ->
  Forall ok l -> forall s, inv s -> inv (fold_left f l s).
Proof.
  intros Hstep Hl. induction Hl as [|x l Hx _ IH]; intros s Hs; simpl; [assumption|].
  apply IH. now apply Hstep.
Qed.

Lemma Forall_In_self {A : Type} (l : list A) : Forall (fun x => In x l) l.
Proof. apply Forall_forall. auto. Qed.

Section Provenance.
Variable svc : capabilities.
Variable product : str.
Variable attributes : list str.

Section ForumProvenance.
Variable threads : list thread.

#[local] Abbreviation built := (built_from_forum svc product attributes threads).

Lemma add_model_origin (th : thread) (c : comment) (acc : list mention) (model : str) :
  In th threads -> In c (t_comments th) ->
  In model (Utils.extract_product_models svc (c_text c)) ->
  Forall built acc ->
  Forall built (add_model product attributes (t_url th) (c_text c) (c_upvotes c)
                  (Utils.analyze_sentiment svc (c_text c)) acc model).
Proof.
  intros Hth Hc Hm Hacc. unfold add_model. rewrite is_valid_product_score.
  destruct (_ <? 0); [assumption|].
  apply Forall_app. split; [assumption|]. constructor; [|constructor].
  exists th, c, model. split; [assumption|]. split; [assumption|]. split; [now left|].
  unfold forum_record. now rewrite is_valid_product_score.
Qed.

Lemma scan_comment_origin (th : thread) (acc : list mention) (c : comment) :
  In th threads -> In c (t_comments th) ->
  Forall built acc ->
  Forall built (scan_comment svc product attributes (t_url th) acc c).
Proof.
  intros Hth Hc Hacc. unfold scan_comment.
  destruct (Utils.extract_product_models svc (c_text c)) as [|model models] eqn:E;
    [assumption|].
  apply (fold_left_invariant (Forall built)
           (fun x => In x (Utils.extract_product_models svc (c_text c)))).
  - intros s x Hx Hs. now apply add_model_origin.
  - rewrite E. apply Forall_In_self.
  - assumption.
Qed.

Lemma model_pass_origin (th : thread) (st : forum_state) :
  In th threads ->
  Forall built (product_mentions st) ->
  Forall built (product_mentions (model_pass svc product attributes th st)).
Proof.
  intros Hth Hst. unfold model_pass. simpl.
  apply (fold_left_invariant (Forall built) (fun c => In c (t_comments th))).
  - intros s c Hc Hs. now apply scan_comment_origin.
  - apply Forall_In_self.
  - assumption.
Qed.

Lemma pattern_comment_origin (th : thread) (st : forum_state) (c : comment) :
  In th threads -> In c (t_comments th) ->
  Forall built (product_mentions st) ->
  Forall built
    (product_mentions (pattern_comment svc product attributes (t_url th) st c)).
Proof.
  intros Hth Hc Hst. unfold pattern_comment.
  destruct (extract_model_from_text (c_text c) product) as [[|x name]|] eqn:E;
    [assumption| |assumption].
  rewrite is_valid_product_score.
  destruct (_ <? 0); [assumption|].
  destruct (negb _); [|assumption]. simpl.
  apply Forall_app. split; [assumption|]. constructor; [|constructor].
  exists th, c, (x :: name). split; [assumption|]. split; [assumption|]. split; [now right|].
  unfold forum_record. now rewrite is_valid_product_score.
Qed.

Lemma pattern_pass_origin (th : thread) (st : forum_state) :
  In th threads ->
  Forall built (product_mentions st) ->
  Forall built (product_mentions (pattern_pass svc product attributes th st)).
Proof.
  intros Hth Hst. unfold pattern_pass.
  apply (fold_left_invariant (fun s => Forall built (product_mentions s))
           (fun c => In c (t_comments th))).
  - intros s c Hc Hs. now apply pattern_comment_origin.
  - apply Forall_In_self.
  - assumption.
Qed.

Lemma process_thread_origin (st : forum_state) (th : thread) :
  In th threads ->
  Forall built (product_mentions st) ->
  Forall built (product_mentions (process_thread svc product attributes st th)).
Proof.
  intros Hth Hst. unfold process_thread. destruct (_ <? 2)%nat.
  - apply pattern_pass_origin; [assumption|]. now apply model_pass_origin.
  - now apply model_pass_origin.
Qed.

Lemma collect_forum_origin :
  Forall built (product_mentions (collect_forum svc product attributes threads)).
Proof.
  unfold collect_forum.
  apply (fold_left_invariant (fun s => Forall built (product_mentions s))
           (fun th => In th threads)).
  - intros s th Hth Hs. now apply process_thread_origin.
  - apply Forall_In_self.
  - constructor.
Qed.
End ForumProvenance.

Section VideoProvenance.
Variable videos : list video.

#[local] Abbreviation built := (built_from_video svc product attributes videos).

Lemma scan_video_origin (acc : list mention) (v : video) :
  In v videos -> Forall built acc ->
  Forall built (scan_video svc product attributes acc v).
Proof.
  intros Hv Hacc. unfold scan_video.
  destruct (Utils.extract_product_models svc (v_transcript v)) as [|model models] eqn:E;
    [assumption|].
  apply (fold_left_invariant (Forall built)
           (fun x => In x (Utils.extract_product_models svc (v_transcript v)))).
  - intros s x Hx Hs. unfold add_video_model. rewrite is_valid_product_score.
    destruct (_ <? 0); [assumption|].
    apply Forall_app. split; [assumption|]. constructor; [|constructor].
    exists v, x. split; [assumption|]. split; [assumption|].
    unfold video_record. now rewrite is_valid_product_score.
  - rewrite E. apply Forall_In_self.
  - assumption.
Qed.

Lemma collect_videos_origin :
  Forall built (collect_videos svc product attributes videos).
Proof.
  unfold collect_videos.
  apply (fold_left_invariant (Forall built) (fun v => In v videos)).
  - intros s v Hv Hs. now apply scan_video_origin.
  - apply Forall_In_self.
  - constructor.
Qed.
End VideoProvenance.

Lemma forum_output_traced (threads : list thread) (m : mention) :
  In m (process_reddit_data svc product attributes threads) ->
  (exists m0, built_from_forum svc product attributes threads m0
              /\ m = score_forum (product_type_terms product attributes) m0)
  /\ product_type m = product /\ Recommender.attributes m = attributes
  /\ (exists th c, In th threads /\ In c (t_comments th)
                   /\ source m = t_url th
                   /\ metrics m = ForumMetrics (c_upvotes c))
  /\ unit_interval (sentiment m).
Proof.
  intro H. apply process_reddit_data_origin in H as (m0 & H0 & ->).
  pose proof (collect_forum_origin threads) as B. rewrite Forall_forall in B.
  pose proof (B m0 H0) as Hb.
  split; [now exists m0|].
  destruct Hb as (th & c & model & Hth & Hc & _ & ->).
  unfold forum_record. rewrite is_valid_product_score. simpl.
  split; [reflexivity|]. split; [reflexivity|]. split.
  + exists th, c. repeat split; assumption.
  + apply analyze_sentiment_range.
Qed.

Lemma video_output_traced (videos : list video) (m : mention) :
  In m (process_youtube_data svc product attributes videos) ->
  (exists m0, built_from_video svc product attributes videos m0
              /\ m = score_video (product_type_terms product attributes) m0)
  /\ product_type m = product /\ Recommender.attributes m = attributes
  /\ (exists v, In v videos /\ source m = v_url v
                /\ metrics m = VideoMetrics (v_views v) (v_likes v) (v_title v))
  /\ unit_interval (sentiment m).
Proof.
  intro H. apply process_youtube_data_origin in H as (m0 & H0 & ->).
  pose proof (collect_videos_origin videos) as B. rewrite Forall_forall in B.
  pose proof (B m0 H0) as Hb.
  split; [now exists m0|].
  destruct Hb as (v & model & Hv & _ & ->).
  unfold video_record. rewrite is_valid_product_score. simpl.
  split; [reflexivity|]. split; [reflexivity|]. split.
  + exists v. repeat split; assumption.
  + apply analyze_sentiment_range.
Qed.

(** X2. Every mention a stream returns is the record of one candidate name of
    one comment of one input thread (of one input video), with only its score
    assigned afterwards: it carries the product type and the attributes of the
    request, the URL of that thread (video), the engagement counters of that
    comment (video), and a sentiment between 0 and 1. *)
Theorem mentions_traced_to_evidence (threads : list thread) (videos : list video)
        (m : mention) :
  (In m (process_reddit_data svc product attributes threads) ->
   (exists m0, built_from_forum svc product attributes threads m0
               /\ m = score_forum (product_type_terms product attributes) m0)
   /\ product_type m = product /\ Recommender.attributes m = attributes
   /\ (exists th c, In th threads /\ In c (t_comments th)
                    /\ source m = t_url th
                    /\ metrics m = ForumMetrics (c_upvotes c))
   /\ unit_interval (sentiment m))
  /\ (In m (process_youtube_data svc product attributes videos) ->
      (exists m0, built_from_video svc product attributes videos m0
                  /\ m = score_video (product_type_terms product attributes) m0)
      /\ product_type m = product /\ Recommender.attributes m = attributes
      /\ (exists v, In v videos /\ source m = v_url v
                    /\ metrics m = VideoMetrics (v_views v) (v_likes v) (v_title v))
      /\ unit_interval (sentiment m)).
Proof.
  split; [apply forum_output_traced|apply video_output_traced].
Qed.

End Provenance.

(** * Bounds of the validity scorer *)

Lemma moves_by_refl (lo hi : Z) (v : verdict) : lo <= 0 <= hi -> moves_by lo hi v v.
Proof. intro H. unfold moves_by. repeat split; auto; lia. Qed.

Lemma moves_by_bump (lo hi d : Z) (why : str) (v : verdict) :
  lo <= d <= hi -> why <> [] -> moves_by lo hi v (bump d why v).
Proof.
  intros Hd Hw. unfold moves_by, bump. simpl. split; [lia|]. split.
  - intro H. apply Forall_app. split; [assumption|]. now constructor.
  - intros _ E. apply app_eq_nil in E as [_ E]. discriminate.
Qed.

Lemma moves_by_trans (lo1 hi1 lo2 hi2 : Z) (v1 v2 v3 : verdict) :
  moves_by lo1 hi1 v1 v2 -> moves_by lo2 hi2 v2 v3 ->
  moves_by (lo1 + lo2) (hi1 + hi2) v1 v3.
Proof.
  intros (A1 & A2 & A3) (B1 & B2 & B3). unfold moves_by. repeat split; auto; lia.
Qed.

Lemma moves_by_weaken (lo hi lo' hi' : Z) (v v' : verdict) :
  moves_by lo hi v v' -> lo' <= lo -> hi <= hi' -> moves_by lo' hi' v v'.
Proof. intros (A1 & A2 & A3) Hl Hh. unfold moves_by. repeat split; auto; lia. Qed.

Lemma literal_prefix_nonempty (c : ascii) (s t : str) : (c :: s) ++ t <> [].
Proof. discriminate. Qed.

Ltac settle_move :=
  first [ apply moves_by_refl; lia
        | apply moves_by_bump; [lia|discriminate] ].

Lemma check_length_moves (product_name : str) (v : verdict) :
  moves_by (-3) 1 v (check_length product_name v).
Proof.
  unfold check_length. destruct (_ <? 6); [settle_move|].
  unfold moves_by. simpl. repeat split; auto; lia.
Qed.

Lemma check_alnum_moves (product_name : str) (v : verdict) :
  moves_by (-1) 2 v (check_alnum product_name v).
Proof.
  unfold check_alnum. destruct (_ && _)%bool; [settle_move|].
  destruct (negb _); settle_move.
Qed.

(** The brand check always leaves a reason. *)
Lemma check_brand_moves (product_name product_lower : str) (v : verdict) :
  moves_by (-1) 2 v (check_brand product_name product_lower v)
  /\ snd (check_brand product_name product_lower v) <> [].
Proof.
  unfold check_brand.
  destruct (any_in brands product_lower); [|destruct (found _ product_name)];
    (split; [settle_move|unfold bump; simpl; intro E;
                          apply app_eq_nil in E as [_ E]; discriminate]).
Qed.

Lemma check_nvidia_moves (product_lower : str) (v : verdict) :
  moves_by (-3) 2 v (check_nvidia product_lower v).
Proof.
  unfold check_nvidia. destruct (search false _ product_lower); [|settle_move].
  destruct (_ >=? 5000); settle_move.
Qed.

Lemma check_intel_moves (product_lower : str) (v : verdict) :
  moves_by (-3) 2 v (check_intel product_lower v).
Proof.
  unfold check_intel. destruct (search false _ product_lower) as [mo|]; [|settle_move].
  destruct (upper (group_text mo 1)) as [|c s] eqn:E; [settle_move|].
  destruct (negb (Str.eqb _ _)); [settle_move|].
  destruct (negb (existsb _ _)); settle_move.
Qed.

Lemma check_amd_moves (product_lower : str) (v : verdict) :
  moves_by (-3) 2 v (check_amd product_lower v).
Proof.
  unfold check_amd. destruct (search false _ product_lower); [|settle_move].
  destruct (_ >=? 8000); settle_move.
Qed.

Lemma check_memory_moves (product_lower : str) (v : verdict) :
  moves_by 0 1 v (check_memory product_lower v).
Proof. unfold check_memory. destruct (contains _ _); settle_move. Qed.

Lemma check_gpu_moves (product_lower : str) (v : verdict) :
  moves_by (-9) 7 v (check_gpu product_lower v).
Proof.
  unfold check_gpu. destruct (found _ product_lower); [|settle_move].
  eapply moves_by_weaken.
  - eapply moves_by_trans; [|apply check_memory_moves].
    eapply moves_by_trans; [|apply check_amd_moves].
    eapply moves_by_trans; [apply check_nvidia_moves|apply check_intel_moves].
  - lia.
  - lia.
Qed.

Lemma check_system_moves (product_name product_lower : str) (v : verdict) :
  moves_by (-5) 5 v (check_system product_name product_lower v).
Proof.
  unfold check_system.
  set (v1 := if any_in system_terms product_lower then _ else v).
  set (v2 := if any_in prebuilt_brands product_lower then _ else v1).
  set (v3 := if (_ && _)%bool then _ else v2).
  assert (moves_by 0 2 v v1) as H1.
  { unfold v1. destruct (any_in system_terms product_lower); settle_move. }
  assert (moves_by 0 3 v1 v2) as H2.
  { unfold v2. destruct (any_in prebuilt_brands product_lower); settle_move. }
  assert (moves_by (-3) 0 v2 v3) as H3.
  { unfold v3. destruct (_ && _)%bool; [|settle_move]. destruct (_ <? 20); settle_move. }
  assert (moves_by (-2) 0 v3
            (if any_in component_terms product_lower
             then if ((Z.of_nat (length product_name) <? 15)
                      && negb (found (pat system_pattern) product_lower))%bool
                  then bump (-2) `"Appears to be just a component, not a complete system" v3
                  else v3
             else v3)) as H4.
  { destruct (any_in component_terms product_lower); [|settle_move].
    destruct ((Z.of_nat (length product_name) <? 15)
              && negb (found (pat system_pattern) product_lower))%bool; settle_move. }
  eapply moves_by_weaken.
  - eapply moves_by_trans; [|exact H4].
    eapply moves_by_trans; [|exact H3].
    eapply moves_by_trans; [exact H1|exact H2].
  - lia.
  - lia.
Qed.

Lemma check_category_moves (product_name product_lower product_type_lower : str)
      (v : verdict) :
  moves_by (-9) 7 v (check_category product_name product_lower product_type_lower v).
Proof.
  unfold check_category. destruct (_ || _ || _)%bool; [apply check_gpu_moves|].
  destruct (_ || _ || _ || _)%bool; [|settle_move].
  eapply moves_by_weaken; [apply check_system_moves|lia|lia].
Qed.

Lemma check_context_moves (product_lower context_text : str) (v : verdict) :
  moves_by 0 4 v (check_context product_lower context_text v).
Proof.
  unfold check_context. destruct context_text as [|c rest]; [settle_move|].
  set (context_lower := lower (c :: rest)).
  set (v1 := if any_in ownership_terms context_lower then _ else v).
  assert (moves_by 0 3 v v1) as H1.
  { unfold v1. destruct (any_in ownership_terms context_lower); [|settle_move].
    destruct (_ >=? 0); [|settle_move]. destruct (any_in ownership_terms _); settle_move. }
  assert (moves_by 0 1 v1
            (if any_in recommend_terms context_lower
             then bump 1 `"Product mentioned in recommendation context" v1 else v1)) as H2.
  { destruct (any_in recommend_terms context_lower); settle_move. }
  eapply moves_by_weaken; [eapply moves_by_trans; [exact H1|exact H2]|lia|lia].
Qed.

Lemma validity_context (product_name context_text product_type : str) :
  validity product_name context_text product_type
  = check_context (lower product_name) context_text
      (validity product_name [] product_type).
Proof. reflexivity. Qed.

Lemma join_nonempty (sep : str) (parts : list str) : telling parts -> join sep parts <> [].
Proof.
  intros [Hne Hall]. destruct parts as [|p rest]; [contradiction|].
  inversion Hall as [|? ? Hp _]; subst. destruct p as [|c p]; [contradiction|].
  destruct rest; simpl; discriminate.
Qed.

Lemma validity_telling (product_name context_text product_type : str) :
  -14 <= fst (validity product_name context_text product_type) <= 16
  /\ telling (snd (validity product_name context_text product_type)).
Proof.
  unfold validity.
  set (v1 := check_length product_name (0, [])).
  set (v2 := check_alnum product_name v1).
  set (v3 := check_brand product_name (lower product_name) v2).
  set (v4 := check_category product_name (lower product_name) (lower product_type) v3).
  pose proof (check_length_moves product_name (0, [])) as H1. fold v1 in H1.
  pose proof (check_alnum_moves product_name v1) as H2. fold v2 in H2.
  destruct (check_brand_moves product_name (lower product_name) v2) as [H3 N3].
  fold v3 in H3, N3.
  pose proof (check_category_moves product_name (lower product_name)
                (lower product_type) v3) as H4. fold v4 in H4.
  pose proof (check_context_moves (lower product_name) context_text v4) as H5.
  destruct H1 as (A1 & B1 & _), H2 as (A2 & B2 & _), H3 as (A3 & B3 & _),
           H4 as (A4 & B4 & C4), H5 as (A5 & B5 & C5).
  simpl in A1. split; [lia|]. split.
  - apply C5, C4, N3.
  - apply B5, B4, B3, B2, B1. constructor.
Qed.

(** X3. The validity score lies between -14 and 16 whatever the name, the
    context and the product type, and the reason text is never empty: the brand
    check always leaves a reason. *)
Theorem validity_score_bounded (product_name context_text product_type : str) :
  let '(is_valid, confidence_score, reason) :=
    is_valid_product product_name context_text product_type in
  -14 <= confidence_score <= 16
  /\ reason <> []
  /\ (is_valid = true <-> 3 <= confidence_score).
Proof.
  rewrite is_valid_product_score.
  destruct (validity_telling product_name context_text product_type) as [H1 H2].
  split; [exact H1|]. split; [now apply join_nonempty|].
  rewrite Z.geb_le. reflexivity.
Qed.

(** X4. The surrounding text never lowers the validity score and raises it by
    at most 4: a name accepted without context is accepted with any context,
    and a verdict of validity without context stays one. *)
Theorem context_only_helps (product_name context_text product_type : str) :
  let '(valid_bare, score_bare, _) := is_valid_product product_name [] product_type in
  let '(valid_seen, score_seen, _) :=
    is_valid_product product_name context_text product_type in
  score_bare <= score_seen <= score_bare + 4
  /\ (valid_bare = true -> valid_seen = true).
Proof.
  unfold is_valid_product. cbv beta iota zeta.
  rewrite (validity_context product_name context_text product_type).
  pose proof (check_context_moves (lower product_name) context_text
                (validity product_name [] product_type)) as (H & _ & _).
  split; [lia|].
  rewrite !Z.geb_le. lia.
Qed.

(** * The order of the returned mentions *)

Lemma outranks_trans (a b c : mention) : outranks a b -> outranks b c -> outranks a c.
Proof. unfold outranks. intros H1 H2. now apply Qle_trans with (get_score b). Qed.

Section SortedFacts.
Variable lt : mention -> mention -> bool.
Hypothesis lt_below : forall x y, lt x y = true -> outranks y x.
Hypothesis lt_above : forall x y, lt x y = false -> outranks x y.

Lemma insert_desc_descending (x : mention) (l : list mention) :
  descending l -> descending (insert_desc lt x l).
Proof.
  intro H. induction H as [|y l Hl IH Hy]; simpl.
  - constructor; constructor.
  - destruct (lt x y) eqn:E.
    + constructor; [exact IH|].
      apply Forall_forall. intros z Hz.
      apply (Permutation_in _ (insert_desc_perm mention lt x l)) in Hz.
      destruct Hz as [<-|Hz]; [now apply lt_below|].
      rewrite Forall_forall in Hy. now apply Hy.
    + constructor; [now constructor|].
      constructor; [now apply lt_above|].
      apply Forall_forall. intros z Hz. rewrite Forall_forall in Hy.
      apply outranks_trans with y; [now apply lt_above|now apply Hy].
Qed.

Lemma sort_desc_descending (l : list mention) : descending (sort_desc lt l).
Proof.
  induction l as [|x l IH]; simpl; [constructor|]. now apply insert_desc_descending.
Qed.
End SortedFacts.

Lemma forum_key_lt_below (x y : mention) : forum_key_lt x y = true -> outranks y x.
Proof.
  unfold forum_key_lt, outranks. intro H. apply orb_true_iff in H as [H|H].
  - apply Qltb_lt in H. now apply Qlt_le_weak.
  - apply andb_true_iff in H as [H _]. apply Qeq_bool_iff in H. rewrite H. apply Qle_refl.
Qed.

Lemma forum_key_lt_above (x y : mention) : forum_key_lt x y = false -> outranks x y.
Proof.
  unfold forum_key_lt, outranks. intro H. apply orb_false_iff in H as [H _].
  now apply Qltb_ge in H.
Qed.

Lemma video_key_lt_below (x y : mention) : video_key_lt x y = true -> outranks y x.
Proof. unfold video_key_lt, outranks. intro H. apply Qltb_lt in H. now apply Qlt_le_weak. Qed.

Lemma video_key_lt_above (x y : mention) : video_key_lt x y = false -> outranks x y.
Proof. unfold video_key_lt, outranks. intro H. now apply Qltb_ge in H. Qed.

Lemma descending_before (l1 l2 : list mention) (m : mention) :
  descending (l1 ++ m :: l2) -> forall v, In v l1 -> outranks v m.
Proof.
  induction l1 as [|a l1 IH]; intros H v Hv; [destruct Hv|].
  simpl in H. inversion H as [|? ? Hl Ha]; subst.
  destruct Hv as [<-|Hv]; [|now apply IH].
  rewrite Forall_forall in Ha. apply Ha. apply in_or_app. right. now left.
Qed.

Lemma descending_snoc (l : list mention) (m : mention) :
  descending l -> (forall v, In v l -> outranks v m) -> descending (l ++ [m]).
Proof.
  intros H Hm. induction H as [|a l Hl IH Ha]; simpl.
  - constructor; constructor.
  - constructor.
    + apply IH. intros v Hv. apply Hm. now right.
    + apply Forall_app. split; [exact Ha|]. constructor; [|constructor].
      apply Hm. now left.
Qed.

Section DedupSorted.
Variable key_of : mention -> str.

(** On a list in descending order the scan never replaces a kept mention. *)
Lemma fold_keep_best_descending (l prefix : list mention) (d : dict) :
  descending (dict_values d) ->
  (forall v, In v (dict_values d) -> In v prefix) ->
  descending (prefix ++ l) ->
  descending (dict_values (fold_left (keep_best key_of) l d)).
Proof.
  revert prefix d. induction l as [|m l IH]; intros prefix d Hd Hin Hs; simpl;
    [exact Hd|].
  assert (Hs' : descending ((prefix ++ [m]) ++ l)) by now rewrite <- app_assoc.
  assert (Hm : forall v, In v (dict_values d) -> outranks v m).
  { intros v Hv. apply (descending_before prefix l m Hs). now apply Hin. }
  apply (IH (prefix ++ [m])); [| |exact Hs'].
  - unfold keep_best. destruct (dict_get (key_of m) d) as [kept|] eqn:G.
    + destruct (Qltb (get_score kept) (get_score m)) eqn:C; [|exact Hd].
      exfalso. apply Qltb_lt in C.
      assert (outranks kept m) as Ho.
      { apply Hm. unfold dict_values. apply in_map_iff.
        exists (key_of m, kept). split; [reflexivity|]. now apply dict_get_In. }
      unfold outranks in Ho. apply (Qlt_not_le _ _ C Ho).
    + rewrite (dict_set_keys_new _ m _ G). unfold dict_values in *.
      rewrite map_app. simpl. now apply descending_snoc.
  - intros v Hv. apply in_or_app. unfold keep_best in Hv.
    destruct (dict_get (key_of m) d) as [kept|] eqn:G.
    + destruct (Qltb (get_score kept) (get_score m)) eqn:C; [|left; now apply Hin].
      exfalso. apply Qltb_lt in C.
      assert (outranks kept m) as Ho.
      { apply Hm. unfold dict_values. apply in_map_iff.
        exists (key_of m, kept). split; [reflexivity|]. now apply dict_get_In. }
      unfold outranks in Ho. apply (Qlt_not_le _ _ C Ho).
    + rewrite (dict_set_keys_new _ m _ G) in Hv. unfold dict_values in *.
      rewrite map_app in Hv. apply in_app_or in Hv as [Hv|[<-|[]]].
      * left. now apply Hin.
      * right. now left.
Qed.

Lemma remove_duplicates_descending (l : list mention) :
  descending l -> descending (remove_duplicates key_of l).
Proof.
  intro H. unfold remove_duplicates.
  apply (fold_keep_best_descending l [] []); [constructor|intros v []|exact H].
Qed.
End DedupSorted.

Lemma descending_head (top : mention) (rest : list mention) (m : mention) :
  descending (top :: rest) -> In m (top :: rest) -> outranks top m.
Proof.
  intros H [<-|Hm]; [unfold outranks; apply Qle_refl|].
  inversion H as [|? ? _ Ha]; subst. rewrite Forall_forall in Ha. now apply Ha.
Qed.

(** X5. Each stream returns its mentions in descending order of rank score,
    so the first mention of the output ranks no lower than any scored
    candidate of the stream, kept or removed as a duplicate. *)
Theorem output_descending
  (svc : capabilities) (product : str) (attributes : list str)
  (threads : list thread) (videos : list video) :
  (descending (process_reddit_data svc product attributes threads)
   /\ forall top rest m,
        process_reddit_data svc product attributes threads = top :: rest ->
        In m (forum_candidates svc product attributes threads) ->
        outranks top m)
  /\ (descending (process_youtube_data svc product attributes videos)
      /\ forall top rest m,
           process_youtube_data svc product attributes videos = top :: rest ->
           In m (video_candidates svc product attributes videos) ->
           outranks top m).
Proof.
  assert (F : descending (process_reddit_data svc product attributes threads)).
  { apply remove_duplicates_descending.
    apply sort_desc_descending; [apply forum_key_lt_below|apply forum_key_lt_above]. }
  assert (V : descending (process_youtube_data svc product attributes videos)).
  { apply remove_duplicates_descending.
    apply sort_desc_descending; [apply video_key_lt_below|apply video_key_lt_above]. }
  split; (split; [assumption|]); intros top rest m E Hm.
  - destruct (remove_duplicates_spec forum_key
                (forum_candidates svc product attributes threads)) as (_ & H2 & H3).
    destruct (H3 m Hm) as (s & Hs & Hk).
    apply outranks_trans with s.
    + rewrite E in F. apply (descending_head top rest s F).
      change (In s (process_reddit_data svc product attributes threads)) in Hs.
      now rewrite E in Hs.
    + apply (champion_bound forum_key _ s m (H2 s Hs) Hm). now symmetry.
  - destruct (remove_duplicates_spec video_key
                (video_candidates svc product attributes videos)) as (_ & H2 & H3).
    destruct (H3 m Hm) as (s & Hs & Hk).
    apply outranks_trans with s.
    + rewrite E in V. apply (descending_head top rest s V).
      change (In s (process_youtube_data svc product attributes videos)) in Hs.
      now rewrite E in Hs.
    + apply (champion_bound video_key _ s m (H2 s Hs) Hm). now symmetry.
Qed.

(** * How the forum stream grows *)

Lemma extends_refl (l : list mention) : extends l l.
Proof. exists []. now rewrite app_nil_r. Qed.

Lemma extends_trans (l1 l2 l3 : list mention) :
  extends l1 l2 -> extends l2 l3 -> extends l1 l3.
Proof. intros [a ->] [b ->]. exists (a ++ b). now rewrite app_assoc. Qed.

Lemma extends_length (l l' : list mention) :
  extends l l' -> (length l <= length l')%nat.
Proof. intros [a ->]. rewrite length_app. lia. Qed.

Section GrowthFacts.
Variable svc : capabilities.
Variable product : str.
Variable attributes : list str.

Lemma scan_comment_extends (thread_url : str) (acc : list mention) (c : comment) :
  extends acc (scan_comment svc product attributes thread_url acc c).
Proof.
  unfold scan_comment.
  destruct (Utils.extract_product_models svc (c_text c)) as [|model models];
    [apply extends_refl|].
  generalize (model :: models). intro l. revert acc.
  induction l as [|x l IH]; intro acc; simpl; [apply extends_refl|].
  eapply extends_trans; [|apply IH].
  unfold add_model. rewrite is_valid_product_score.
  destruct (_ <? 0); [apply extends_refl|]. eexists. reflexivity.
Qed.

Lemma model_pass_extends (th : thread) (st : forum_state) :
  extends (product_mentions st)
          (product_mentions (model_pass svc product attributes th st)).
Proof.
  unfold model_pass. simpl. generalize (product_mentions st).
  induction (t_comments th) as [|c l IH]; intro acc; simpl; [apply extends_refl|].
  eapply extends_trans; [apply scan_comment_extends|apply IH].
Qed.

Lemma process_thread_extends (st : forum_state) (th : thread) :
  extends (product_mentions st)
          (product_mentions (process_thread svc product attributes st th)).
Proof.
  unfold process_thread. destruct (_ <? 2)%nat; [|apply model_pass_extends].
  eapply extends_trans; [apply model_pass_extends|].
  destruct (pattern_pass_mentions svc product attributes th
              (model_pass svc product attributes th st) _ (fresh_after_length _))
    as (added & E & _).
  exists added. exact E.
Qed.

Lemma run_threads_extends (threads : list thread) (st : forum_state) :
  extends (product_mentions st)
          (product_mentions
             (fold_left (process_thread svc product attributes) threads st)).
Proof.
  revert st. induction threads as [|th l IH]; intro st; simpl; [apply extends_refl|].
  eapply extends_trans; [apply process_thread_extends|apply IH].
Qed.

Lemma run_threads_quiet (threads : list thread) (st : forum_state) :
  (2 <= length (product_mentions st))%nat ->
  pattern_calls (fold_left (process_thread svc product attributes) threads st)
  = pattern_calls st.
Proof.
  revert st. induction threads as [|th l IH]; intros st H; simpl; [reflexivity|].
  pose proof (extends_length _ _ (model_pass_extends th st)) as Hlen.
  assert (E : process_thread svc product attributes st th
              = model_pass svc product attributes th st).
  { unfold process_thread.
    destruct (length (product_mentions (model_pass svc product attributes th st)) <? 2)%nat
      eqn:C; [|reflexivity].
    apply Nat.ltb_lt in C. lia. }
  rewrite E, IH; [reflexivity|lia].
Qed.

(** X6. While it gathers, the forum stream only ever appends to its mention
    list, so the mentions gathered from the first threads stay, in place,
    whatever threads follow; and once two mentions are held no later thread is
    handed to [extract_model_from_text]. *)
Theorem pattern_extractor_retires (earlier later : list thread) :
  extends (product_mentions (collect_forum svc product attributes earlier))
          (product_mentions (collect_forum svc product attributes (earlier ++ later)))
  /\ ((2 <= length (product_mentions (collect_forum svc product attributes earlier)))%nat ->
      pattern_calls (collect_forum svc product attributes (earlier ++ later))
      = pattern_calls (collect_forum svc product attributes earlier)).
Proof.
  unfold collect_forum. rewrite fold_left_app. split.
  - apply run_threads_extends.
  - apply run_threads_quiet.
Qed.

(** **** Empty text *)

Lemma slice_nil (a b : nat) : slice a b (@nil ascii) = [].
Proof. unfold slice. rewrite firstn_nil. apply skipn_nil. Qed.

Lemma extract_model_from_empty_text (product_type : str) :
  extract_model_from_text [] product_type = None.
Proof.
  unfold extract_model_from_text.
  assert (first_match (patterns_for (lower product_type)) [] = None) as ->.
  { unfold patterns_for.
    repeat (match goal with
            | |- context [if ?b then _ else _] => destruct b
            end); vm_compute; reflexivity. }
  destruct (_ =? -1); [reflexivity|].
  change (lower []) with (@nil ascii). rewrite slice_nil. vm_compute. reflexivity.
Qed.

(** X7. A comment or a video without text contributes nothing: the pattern
    extractor finds no model in the empty text for any product type, and
    neither pass of the forum stream, nor the video stream, adds a mention for
    it. *)
Theorem empty_text_is_skipped :
  (forall product_type, extract_model_from_text [] product_type = None)
  /\ (forall thread_url acc c,
        c_text c = [] ->
        scan_comment svc product attributes thread_url acc c = acc)
  /\ (forall thread_url st c,
        c_text c = [] ->
        product_mentions (pattern_comment svc product attributes thread_url st c)
        = product_mentions st)
  /\ (forall acc v,
        v_transcript v = [] ->
        scan_video svc product attributes acc v = acc).
Proof.
  split; [apply extract_model_from_empty_text|]. split; [|split].
  - intros thread_url acc c E. unfold scan_comment. now rewrite E.
  - intros thread_url st c E. unfold pattern_comment.
    rewrite E, extract_model_from_empty_text. reflexivity.
  - intros acc v E. unfold scan_video. now rewrite E.
Qed.

End GrowthFacts.

(** * What the pattern extractors return *)

Lemma infix_refl (s : str) : infix s s.
Proof. exists [], []. now rewrite app_nil_r. Qed.

Lemma infix_trans (a b c : str) : infix a b -> infix b c -> infix a c.
Proof.
  intros (l1 & l2 & ->) (k1 & k2 & ->). exists (k1 ++ l1), (l2 ++ k2).
  now rewrite <- !app_assoc.
Qed.

Lemma infix_suffix (l s : str) : infix s (l ++ s).
Proof. exists l, []. now rewrite app_nil_r. Qed.

Lemma infix_prefix (s l : str) : infix s (s ++ l).
Proof. now exists [], l. Qed.

Lemma infix_firstn (n : nat) (s : str) : infix (firstn n s) s.
Proof. rewrite <- (firstn_skipn n s) at 2. apply infix_prefix. Qed.

Lemma infix_skipn (n : nat) (s : str) : infix (skipn n s) s.
Proof. rewrite <- (firstn_skipn n s) at 2. apply infix_suffix. Qed.

Lemma infix_slice (a b : nat) (s : str) : infix (slice a b s) s.
Proof.
  unfold slice. apply infix_trans with (firstn b s); [apply infix_skipn|apply infix_firstn].
Qed.

Lemma infix_strip (s : str) : infix (strip s) s.
Proof. destruct (strip_infix s) as (l1 & l2 & H). now exists l1, l2. Qed.

Lemma match_here_infix (ic : bool) (r : regex) (i : nat) (s : str) (mo : match_obj) :
  match_here ic r i s = Some mo -> infix (m_text mo) s.
Proof.
  unfold match_here. destruct (run ic r s [] _) as [[s' c]|]; [|discriminate].
  intros [= <-]. simpl. apply infix_firstn.
Qed.

Lemma search_from_infix (ic : bool) (r : regex) (i : nat) (s : str) (mo : match_obj) :
  search_from ic r i s = Some mo -> infix (m_text mo) s.
Proof.
  revert i. induction s as [|a s IH]; intros i; simpl.
  - destruct (match_here ic r i []) eqn:E; [|discriminate].
    intros [= <-]. now apply match_here_infix in E.
  - destruct (match_here ic r i (a :: s)) eqn:E.
    + intros [= <-]. now apply match_here_infix in E.
    + intro H. apply IH in H. apply infix_trans with s; [exact H|].
      apply (infix_suffix [a] s).
Qed.

Lemma finditer_from_infix (ic : bool) (fuel : nat) (r : regex) (s : str) (mo : match_obj) :
  In mo (finditer_from ic fuel r s) -> infix (m_text mo) s.
Proof.
  revert s. induction fuel as [|f IH]; intros s H; simpl in H; [destruct H|].
  destruct (search_from ic r 0 s) as [first|] eqn:E; [|destruct H].
  destruct H as [<-|H].
  - now apply search_from_infix in E.
  - apply IH in H. apply infix_trans with (skipn (m_start first
                       + Nat.max 1 (length (m_text first))) s); [exact H|].
    apply infix_skipn.
Qed.

Lemma finditer_infix (ic : bool) (r : regex) (s : str) (mo : match_obj) :
  In mo (finditer ic r s) -> infix (m_text mo) s.
Proof. apply finditer_from_infix. Qed.

(** *** Trimming twice *)

Lemma lstrip_head (s : str) :
  match lstrip s with
  | c :: _ => is_space c = false
  | [] => True
  end.
Proof.
  induction s as [|a s IH]; simpl; [exact I|].
  destruct (is_space a) eqn:E; [exact IH|exact E].
Qed.

Lemma lstrip_fixed (c : ascii) (s : str) : is_space c = false -> lstrip (c :: s) = c :: s.
Proof. intro H. simpl. now rewrite H. Qed.

Lemma lstrip_idem (s : str) : lstrip (lstrip s) = lstrip s.
Proof.
  pose proof (lstrip_head s) as H. destruct (lstrip s) as [|c t]; [reflexivity|].
  now apply lstrip_fixed.
Qed.

Lemma lstrip_snoc (l : str) (c : ascii) :
  is_space c = false -> exists l', lstrip (l ++ [c]) = l' ++ [c].
Proof.
  intro H. induction l as [|a l [l' IH]]; simpl.
  - rewrite H. now exists [].
  - destruct (is_space a).
    + now exists l'.
    + now exists (a :: l).
Qed.

Lemma rstrip_idem (s : str) : rstrip (rstrip s) = rstrip s.
Proof. unfold rstrip. now rewrite rev_involutive, lstrip_idem. Qed.

Lemma rstrip_keeps_head (c : ascii) (s : str) :
  is_space c = false -> exists t, rstrip (c :: s) = c :: t.
Proof.
  intro H. unfold rstrip. simpl rev.
  destruct (lstrip_snoc (rev s) c H) as [l' ->].
  rewrite rev_app_distr. simpl. now exists (rev l').
Qed.

Lemma strip_idem (s : str) : strip (strip s) = strip s.
Proof.
  unfold strip. pose proof (lstrip_head s) as H.
  destruct (lstrip s) as [|c t] eqn:E.
  - reflexivity.
  - destruct (rstrip_keeps_head c t H) as [u Hu].
    assert (lstrip (rstrip (c :: t)) = rstrip (c :: t)) as ->.
    { rewrite Hu. now apply lstrip_fixed. }
    apply rstrip_idem.
Qed.

(** *** The extractors quote the text *)

Lemma first_match_quotes (patterns : list string) (text model : str) :
  first_match patterns text = Some model -> infix model text /\ trimmed model.
Proof.
  induction patterns as [|p rest IH]; simpl; [discriminate|].
  destruct (search true (pat p) text) as [mo|] eqn:E; [|exact IH].
  intros [= <-]. split.
  - apply infix_trans with (m_text mo); [apply infix_strip|].
    now apply search_from_infix in E.
  - apply strip_idem.
Qed.

Lemma extract_model_from_text_quotes (text product_type model : str) :
  extract_model_from_text text product_type = Some model ->
  infix model text /\ trimmed model.
Proof.
  unfold extract_model_from_text.
  destruct (first_match _ text) as [found_model|] eqn:E.
  - intros [= <-]. now apply first_match_quotes in E.
  - destruct (_ =? -1); [discriminate|].
    destruct (search false _ _) as [mo|] eqn:S; [|discriminate].
    intros [= <-]. split; [|apply strip_idem].
    apply infix_trans with (m_text mo); [apply infix_strip|].
    apply search_from_infix in S. eapply infix_trans; [exact S|apply infix_slice].
Qed.

Lemma regex_extract_product_models_quotes (text : str) :
  Forall (fun p => infix p text /\ trimmed p) (Utils.regex_extract_product_models text).
Proof.
  unfold Utils.regex_extract_product_models.
  set (quotes := fun p : str => infix p text /\ trimmed p).
  assert (step : forall mo ic r, In mo (finditer ic r text) -> quotes (strip (m_text mo))).
  { intros mo ic r H. split; [|apply strip_idem].
    apply infix_trans with (m_text mo); [apply infix_strip|].
    now apply finditer_infix in H. }
  apply (fold_left_invariant (Forall quotes)
           (fun mo => In mo (finditer false (pat Utils.generic_pattern) text))).
  - intros s mo Hmo Hs. destruct (mem (m_text mo) s); [assumption|].
    apply Forall_app. split; [assumption|]. constructor; [|constructor].
    now apply (step mo false (pat Utils.generic_pattern)).
  - apply Forall_In_self.
  - apply (fold_left_invariant (Forall quotes) (fun _ : string => True)).
    + intros s p _ Hs. apply Forall_app. split; [assumption|].
      apply Forall_forall. intros x Hx. apply in_map_iff in Hx as (mo & <- & Hmo).
      now apply (step mo true (pat p)).
    + apply Forall_forall. auto.
    + constructor.
Qed.

(** X8. The pattern extractors only quote: a model name returned by
    [extract_model_from_text], and every name returned by
    [regex_extract_product_models], occurs in the text as a run of consecutive
    characters and has no whitespace at either end. *)
Theorem extractors_quote_the_text (text : str) :
  (forall product_type model,
      extract_model_from_text text product_type = Some model ->
      infix model text /\ trimmed model)
  /\ (forall model,
        In model (Utils.regex_extract_product_models text) ->
        infix model text /\ trimmed model)
  /\ (forall model,
        In model (Utils.extract_product_models offline text) ->
        infix model text /\ trimmed model).
Proof.
  split; [intros pt model; apply extract_model_from_text_quotes|].
  pose proof (regex_extract_product_models_quotes text) as H.
  rewrite Forall_forall in H. split; [exact H|].
  intros model Hm. unfold Utils.extract_product_models in Hm.
  destruct text as [|c rest]; [destruct Hm|]. simpl in Hm. now apply H.
Qed.

(** * Sanitizing twice, links and trusted mentions *)

Lemma allowed_space (c : ascii) :
  allowed_char c = true -> is_space c = true -> c = " "%char.
Proof.
  destruct c as [b0 b1 b2 b3 b4 b5 b6 b7].
  destruct b0, b1, b2, b3, b4, b5, b6, b7; vm_compute; intros H1 H2;
    try discriminate; reflexivity.
Qed.

Lemma allowed_keeps (c : ascii) : allowed_char c = true -> keeps c = true.
Proof.
  destruct c as [b0 b1 b2 b3 b4 b5 b6 b7].
  destruct b0, b1, b2, b3, b4, b5, b6, b7; vm_compute; intro H;
    try discriminate; reflexivity.
Qed.

Lemma allowed_not_plus (c : ascii) : allowed_char c = true -> eqb_char c "+" = false.
Proof.
  destruct c as [b0 b1 b2 b3 b4 b5 b6 b7].
  destruct b0, b1, b2, b3, b4, b5, b6, b7; vm_compute; intro H;
    try discriminate; reflexivity.
Qed.

Lemma filter_fixed {A : Type} (f : A -> bool) (l : list A) :
  Forall (fun x => f x = true) l -> filter f l = l.
Proof.
  intro H. induction H as [|x l Hx _ IH]; simpl; [reflexivity|].
  now rewrite Hx, IH.
Qed.

Lemma collapse_from_fixed (in_run : bool) (s : str) :
  Forall (fun c => allowed_char c = true) s ->
  single_spaced s = true ->
  (in_run = true -> match s with c :: _ => is_space c = false | [] => True end) ->
  collapse_from in_run s = s.
Proof.
  intro H. revert in_run. induction H as [|c s Hc Hs IH]; intros in_run Hsp Hrun;
    [reflexivity|].
  pose proof (single_spaced_tail c s Hsp) as Htail. simpl.
  destruct (is_space c) eqn:E.
  - destruct in_run; [specialize (Hrun eq_refl); congruence|].
    rewrite (allowed_space c Hc E). f_equal. apply IH; [exact Htail|].
    intros _. destruct s as [|b s']; [exact I|].
    simpl in Hsp. rewrite E in Hsp. simpl in Hsp.
    apply andb_true_iff in Hsp as [Hb _]. now apply negb_true_iff in Hb.
  - f_equal. apply IH; [exact Htail|discriminate].
Qed.

(** X9. Sanitizing is idempotent: a sanitized name is left as it is. *)
Theorem sanitize_idempotent (product_model : str) :
  sanitize (sanitize product_model) = sanitize product_model.
Proof.
  destruct (sanitize_tidy product_model) as [Hall Hsp].
  rewrite (sanitize_unfold (sanitize product_model)).
  rewrite filter_fixed.
  - unfold collapse_ws. rewrite collapse_from_fixed; [|exact Hall|exact Hsp|discriminate].
    rewrite (sanitize_unfold product_model). apply strip_idem.
  - apply Forall_forall. intros c Hc. rewrite Forall_forall in Hall.
    apply allowed_keeps. now apply Hall.
Qed.

(** *** Links *)

Lemma replace_space_unbroken (s : str) :
  Forall (fun c => allowed_char c = true) s -> unbroken (replace_char " " `"+" s).
Proof.
  intro H. unfold unbroken, replace_char. induction H as [|c s Hc _ IH]; simpl;
    [constructor|].
  destruct (eqb_char c " ") eqn:E.
  - simpl. constructor; [reflexivity|exact IH].
  - simpl. constructor; [|exact IH].
    destruct (is_space c) eqn:S; [|reflexivity].
    rewrite (allowed_space c Hc S) in E. discriminate.
Qed.

Lemma replace_round_trip (s : str) :
  Forall (fun c => allowed_char c = true) s ->
  replace_char "+" `" " (replace_char " " `"+" s) = s.
Proof.
  intro H. unfold replace_char. induction H as [|c s Hc _ IH]; [reflexivity|].
  cbn [flat_map]. rewrite flat_map_app, IH.
  destruct (eqb_char c " ") eqn:E.
  - apply eqb_char_eq in E. subst c. reflexivity.
  - cbn [flat_map app]. rewrite (allowed_not_plus c Hc). reflexivity.
Qed.

Lemma unbroken_app (a b : str) : unbroken a -> unbroken b -> unbroken (a ++ b).
Proof. intros Ha Hb. apply Forall_app. now split. Qed.

Lemma unbroken_literal (s : str) : forallb (fun c => negb (is_space c)) s = true -> unbroken s.
Proof.
  intro H. apply Forall_forall. intros c Hc.
  rewrite forallb_forall in H. apply negb_true_iff. now apply H.
Qed.

Section FormatterFacts.
Variable svc : capabilities.

(** X10. The links of a recommendation are built from its product alone, hold
    no whitespace, and give the product back: replacing each "+" of the encoded
    name by a space returns the name. *)
Theorem links_well_formed (mentions : list mention) (src : str) (r : recommendation) :
  format_recommendation svc mentions src = Some r ->
  r_buy_link r = generate_amazon_link (r_product r)
  /\ r_image_url r = generate_image_url (r_product r)
  /\ unbroken (r_buy_link r) /\ unbroken (r_image_url r)
  /\ replace_char "+" `" " (replace_char " " `"+" (r_product r)) = r_product r.
Proof.
  intro H.
  destruct (format_recommendation_cases svc mentions src)
    as [[_ E]|(top & rest & _ & [[_ E]|[_ E]])]; rewrite E in H; try discriminate.
  injection H as <-. simpl.
  destruct (sanitize_tidy (product top)) as [Hall _].
  split; [reflexivity|]. split; [reflexivity|]. split; [|split].
  - unfold generate_amazon_link. apply unbroken_app; [now apply unbroken_literal|].
    apply unbroken_app; [now apply replace_space_unbroken|now apply unbroken_literal].
  - unfold generate_image_url. apply unbroken_app; [now apply unbroken_literal|].
    now apply replace_space_unbroken.
  - now apply replace_round_trip.
Qed.

(** *** Trusted mentions first *)

Lemma prefer_trusted_all (mentions l : list mention) (otherwise : selection) (m : mention) :
  (exists t, In t l /\ is_trusted t = true) ->
  In m (selected_of mentions (prefer_trusted l otherwise)) ->
  In m l /\ is_trusted m = true.
Proof.
  intros (t & Ht & Htr) Hm.
  destruct (prefer_trusted_cases l otherwise) as [[_ E]|[E _]].
  - rewrite E in Hm. simpl in Hm. now apply filter_In in Hm.
  - exfalso. assert (In t (filter is_trusted l)) as Hx by now apply filter_In.
    rewrite E in Hx. destruct Hx.
Qed.

(** X11. A trusted mention is never passed over for an untrusted one: when the
    list the filter chooses from (the systems on a system search that has
    any, all the mentions otherwise) holds a mention with a validity score of 3
    or more, the recommendation has a validity score of 3 or more. *)
Theorem trusted_mentions_first (mentions : list mention) (src : str) (r : recommendation) :
  format_recommendation svc mentions src = Some r ->
  let pool :=
    if is_system_search mentions
    then match systems_of mentions with [] => mentions | systems => systems end
    else mentions in
  (exists t, In t pool /\ 3 <= validity_score t) ->
  3 <= r_validity_score r.
Proof.
  intros H pool (t & Ht & Htr).
  destruct (format_recommendation_cases svc mentions src)
    as [[_ E]|(top & rest & Hsel & [[_ E]|[_ E]])]; rewrite E in H; try discriminate.
  injection H as <-. simpl.
  assert (In top (selected_of mentions (category_filter mentions))) as Htop.
  { apply (sort_desc_In mention score_lt). unfold selected_products in Hsel.
    rewrite Hsel. now left. }
  assert (Hex : exists t, In t pool /\ is_trusted t = true).
  { exists t. split; [assumption|]. unfold is_trusted. now apply Z.leb_le. }
  assert (is_trusted top = true) as Hok.
  { unfold category_filter in Htop. unfold pool in Hex.
    destruct (is_system_search mentions).
    - destruct (systems_of mentions) as [|s systems].
      + now apply (prefer_trusted_all mentions mentions Aliased top Hex) in Htop.
      + now apply (prefer_trusted_all mentions (s :: systems) _ top Hex) in Htop.
    - now apply (prefer_trusted_all mentions mentions Aliased top Hex) in Htop. }
  unfold is_trusted in Hok. now apply Z.leb_le in Hok.
Qed.

End FormatterFacts.

(** * Facts about the rank bounds *)

Lemma matching_bound (terms : list str) (product_name : str) :
  0 <= matching terms product_name <= Z.of_nat (length terms).
Proof.
  unfold matching. pose proof (filter_length_le (fun term => contains term product_name) terms).
  lia.
Qed.

Lemma product_type_terms_length (product : str) (attributes : list str) :
  (length (product_type_terms product attributes) <= 1 + length attributes)%nat.
Proof.
  unfold product_type_terms. simpl. rewrite length_map.
  pose proof (filter_length_le (fun attr => negb (Str.eqb attr [])) attributes). lia.
Qed.

Lemma clamp_range (x : Z) : 0 <= clamp 0 5 x <= 5.
Proof. unfold clamp. lia. Qed.

Lemma indicator_range (b : bool) : (0 <= indicator b <= 1)%Q.
Proof. destruct b; simpl; split; unfold Qle; simpl; lia. Qed.

Lemma inject_Z_range (lo hi x : Z) :
  lo <= x <= hi -> (inject_Z lo <= inject_Z x <= inject_Z hi)%Q.
Proof. intros [H1 H2]. split; now rewrite <- Zle_Qle. Qed.

Lemma forum_rank_bound (terms : list str) (m : mention) :
  unit_interval (sentiment m) ->
  (forum_rank terms m <= 21 + inject_Z (Z.of_nat (length terms)))%Q
  /\ (0 <= upvotes m -> (0 <= forum_rank terms m)%Q).
Proof.
  intros [S0 S1]. unfold forum_rank.
  pose proof (inject_Z_range _ _ _ (clamp_range (validity_score m))) as [C0 C1].
  pose proof (inject_Z_range _ _ _ (matching_bound terms (lower (product m)))) as [M0 M1].
  pose proof (indicator_range (8 <? length (product m))%nat) as [I0 I1].
  pose proof (Q.le_min_l 5 (inject_Z (upvotes m) / 10)) as U1.
  change (inject_Z 0) with 0%Q in *. change (inject_Z 5) with 5%Q in *.
  split.
  - lra.
  - intro Hu.
    assert (0 <= Qmin 5 (inject_Z (upvotes m) / 10))%Q as U0.
    { apply Q.min_glb; [lra|]. apply Qle_shift_div_l; [lra|].
      rewrite Qmult_0_l. change 0%Q with (inject_Z 0). now rewrite <- Zle_Qle. }
    lra.
Qed.

Lemma video_rank_bound (terms : list str) (in_title : mention -> bool) (m : mention) :
  unit_interval (sentiment m) ->
  (video_rank terms in_title m <= 23 + inject_Z (Z.of_nat (length terms)))%Q
  /\ (0 <= likes m -> 0 <= views m -> (0 <= video_rank terms in_title m)%Q).
Proof.
  intros [S0 S1]. unfold video_rank.
  pose proof (inject_Z_range _ _ _ (clamp_range (validity_score m))) as [C0 C1].
  pose proof (inject_Z_range _ _ _ (matching_bound terms (lower (product m)))) as [M0 M1].
  pose proof (indicator_range (in_title m)) as [I0 I1].
  pose proof (Q.le_min_l 3 (inject_Z (likes m) / 100)) as L1.
  pose proof (Q.le_min_l 4 (inject_Z (views m) / 10000)) as V1.
  change (inject_Z 0) with 0%Q in *. change (inject_Z 5) with 5%Q in *.
  split.
  - lra.
  - intros Hl Hv.
    assert (0 <= Qmin 3 (inject_Z (likes m) / 100))%Q as L0.
    { apply Q.min_glb; [lra|]. apply Qle_shift_div_l; [lra|].
      rewrite Qmult_0_l. change 0%Q with (inject_Z 0). now rewrite <- Zle_Qle. }
    assert (0 <= Qmin 4 (inject_Z (views m) / 10000))%Q as V0.
    { apply Q.min_glb; [lra|]. apply Qle_shift_div_l; [lra|].
      rewrite Qmult_0_l. change 0%Q with (inject_Z 0). now rewrite <- Zle_Qle. }
    lra.
Qed.

(** X12. The rank score is bounded by the request: a forum mention scores at
    most 22 plus the number of attributes, a video mention at most 24 plus the
    number of attributes, and neither scores below 0 when its engagement
    counters are not negative. *)
Theorem rank_score_bounded
  (svc : capabilities) (product : str) (attributes : list str)
  (threads : list thread) (videos : list video) (m : mention) :
  (In m (process_reddit_data svc product attributes threads) ->
   (get_score m <= 22 + inject_Z (Z.of_nat (length attributes)))%Q
   /\ (0 <= upvotes m -> (0 <= get_score m)%Q))
  /\ (In m (process_youtube_data svc product attributes videos) ->
      (get_score m <= 24 + inject_Z (Z.of_nat (length attributes)))%Q
      /\ (0 <= likes m -> 0 <= views m -> (0 <= get_score m)%Q)).
Proof.
  pose proof (product_type_terms_length product attributes) as Ht.
  assert (Hq : (inject_Z (Z.of_nat (length (product_type_terms product attributes)))
                <= 1 + inject_Z (Z.of_nat (length attributes)))%Q).
  { change 1%Q with (inject_Z 1). rewrite <- inject_Z_plus, <- Zle_Qle. lia. }
  split; intro H.
  - destruct (forum_output_traced svc product attributes threads m H)
      as ((m0 & _ & E) & _ & _ & _ & Hs).
    destruct (score_forum_rank (product_type_terms product attributes) m0)
      as (s & Es & Hr).
    rewrite <- E in Es, Hr. unfold get_score. rewrite Es.
    destruct (forum_rank_bound (product_type_terms product attributes) m Hs) as [B1 B2].
    split; [lra|]. intro Hu. specialize (B2 Hu). lra.
  - destruct (video_output_traced svc product attributes videos m H)
      as ((m0 & _ & E) & _ & _ & _ & Hs).
    destruct (score_video_rank (product_type_terms product attributes) m0)
      as (s & Es & Hr).
    rewrite <- E in Es, Hr. unfold get_score. rewrite Es.
    destruct (video_rank_bound (product_type_terms product attributes)
                named_in_title m Hs) as [B1 B2].
    split; [lra|]. intros Hl Hv. specialize (B2 Hl Hv). lra.
Qed.

(** * The pipeline from evidence to recommendation *)

Lemma mentions_after_sort_In (mentions : list mention) (m : mention) :
  In m (mentions_after_sort mentions) -> In m mentions.
Proof.
  unfold mentions_after_sort. destruct (category_filter mentions) eqn:E; [trivial|].
  apply selected_In.
Qed.

Lemma firstn_In {A : Type} (n : nat) (l : list A) (x : A) : In x (firstn n l) -> In x l.
Proof. intro H. rewrite <- (firstn_skipn n l). apply in_or_app. now left. Qed.

Lemma skipn_In {A : Type} (n : nat) (l : list A) (x : A) : In x (skipn n l) -> In x l.
Proof. intro H. rewrite <- (firstn_skipn n l). apply in_or_app. now right. Qed.

Lemma scanned_for_sources_In (mentions : list mention) (m : mention) :
  In m (firstn 4 (skipn 1 (mentions_after_sort mentions))) -> In m mentions.
Proof.
  intro H. apply mentions_after_sort_In.
  apply (skipn_In 1). now apply (firstn_In 4).
Qed.

Lemma collect_sources_nonempty (top : mention) (mentions : list mention) (src : str) :
  default_sources src <> [] -> collect_sources top mentions src <> [].
Proof.
  intro H. unfold collect_sources. cbv zeta.
  destruct (if (1 <? length mentions)%nat then _ else _); [exact H|discriminate].
Qed.

Section EndToEnd.
Variable svc : capabilities.

Lemma format_grounded (mentions : list mention) (src fallback : str)
      (attributes urls : list str) (r : recommendation) :
  default_sources src = [fallback] ->
  (forall m, In m mentions ->
     0 <= validity_score m /\ Recommender.attributes m = attributes
     /\ In (source m) urls) ->
  format_recommendation svc mentions src = Some r ->
  grounded attributes urls fallback r.
Proof.
  intros Hdef Hall H.
  destruct (format_recommendation_cases svc mentions src)
    as [[_ E]|(top & rest & Hsel & [[_ E]|[_ E]])]; rewrite E in H; try discriminate.
  injection H as <-. unfold grounded. simpl.
  assert (In top mentions) as Htop.
  { apply selected_In. rewrite Hsel. now left. }
  destruct (Hall top Htop) as (Hv & Ha & Hu).
  destruct (collect_sources_spec top (mentions_after_sort mentions) src)
    as (H1 & H2 & _ & H4 & _).
  split; [exact Hv|]. split; [exact Ha|]. split; [|split; [exact H1|]].
  - split; [|exact H2].
    pose proof (collect_sources_nonempty top (mentions_after_sort mentions) src) as Hne.
    rewrite Hdef in Hne. specialize (Hne ltac:(discriminate)).
    destruct (collect_sources top (mentions_after_sort mentions) src);
      [contradiction|simpl; lia].
  - intros url Hin. destruct (H4 url Hin) as [->|[(m & Hm & <-)|Hd]].
    + now right.
    + right. apply scanned_for_sources_In in Hm. now destruct (Hall m Hm) as (_ & _ & ?).
    + left. rewrite Hd, Hdef in Hin. destruct Hin as [<-|[]]. reflexivity.
Qed.

(** X13. The whole pipeline: a stream without evidence gives no
    recommendation; a recommendation of the forum (video) stream has a
    validity score of 0 or more, carries the attributes of the request, and
    lists between 1 and 3 different sources, each the URL of an input thread
    (video) or the default URL of the stream. *)
Theorem pipeline_grounded
  (product : str) (attributes : list str) (threads : list thread) (videos : list video) :
  let '(forum_result, video_result) :=
    process_and_rank_products svc product attributes threads videos in
  (threads = [] -> forum_result = None)
  /\ (videos = [] -> video_result = None)
  /\ (forall r, forum_result = Some r ->
        grounded attributes (map t_url threads) `"https://www.reddit.com" r)
  /\ (forall r, video_result = Some r ->
        grounded attributes (map v_url videos) `"https://www.youtube.com" r).
Proof.
  unfold process_and_rank_products. cbv zeta.
  assert (F : match process_reddit_data svc product attributes threads with
              | [] => None
              | _ => format_recommendation svc
                       (process_reddit_data svc product attributes threads) `"reddit"
              end
              = format_recommendation svc
                  (process_reddit_data svc product attributes threads) `"reddit").
  { destruct (process_reddit_data svc product attributes threads); reflexivity. }
  assert (V : match process_youtube_data svc product attributes videos with
              | [] => None
              | _ => format_recommendation svc
                       (process_youtube_data svc product attributes videos) `"youtube"
              end
              = format_recommendation svc
                  (process_youtube_data svc product attributes videos) `"youtube").
  { destruct (process_youtube_data svc product attributes videos); reflexivity. }
  rewrite F, V. split; [|split; [|split]].
  - intros ->. reflexivity.
  - intros ->. reflexivity.
  - intros r H.
    apply (format_grounded (process_reddit_data svc product attributes threads)
             `"reddit" `"https://www.reddit.com" attributes (map t_url threads) r
             eq_refl); [|exact H].
    intros m Hm.
    destruct (forum_output_traced svc product attributes threads m Hm)
      as (_ & _ & Ha & (th & c & Hth & _ & Hs & _) & _).
    pose proof (process_reddit_data_built svc product attributes threads) as B.
    rewrite Forall_forall in B. destruct (B m Hm) as [Hv _].
    split; [exact Hv|]. split; [exact Ha|]. rewrite Hs. now apply in_map.
  - intros r H.
    apply (format_grounded (process_youtube_data svc product attributes videos)
             `"youtube" `"https://www.youtube.com" attributes (map v_url videos) r
             eq_refl); [|exact H].
    intros m Hm.
    destruct (video_output_traced svc product attributes videos m Hm)
      as (_ & _ & Ha & (v & Hv' & Hs & _) & _).
    pose proof (process_youtube_data_built svc product attributes videos) as B.
    rewrite Forall_forall in B. destruct (B m Hm) as [Hv _].
    split; [exact Hv|]. split; [exact Ha|]. rewrite Hs. now apply in_map.
Qed.

End EndToEnd.

(** * The sentiment range *)

(** X14. The sentiment of a text always lies between 0 and 1, whatever the
    remote capability answers, and so does the keyword fallback on its own; the
    empty text is neutral (1/2), and the fallback is neutral for a text that
    holds none of the listed terms. *)
Theorem sentiment_in_unit_interval (svc : capabilities) (text : str) :
  unit_interval (Utils.analyze_sentiment svc text)
  /\ unit_interval (Utils.basic_sentiment_analysis text)
  /\ Utils.analyze_sentiment svc [] = 1 # 2
  /\ (Utils.count_in Utils.positive_terms (lower text) = 0 ->
      Utils.count_in Utils.negative_terms (lower text) = 0 ->
      Utils.basic_sentiment_analysis text = 1 # 2).
Proof.
  split; [apply analyze_sentiment_range|]. split; [apply basic_sentiment_analysis_range|].
  split; [reflexivity|].
  intros Hp Hn. unfold Utils.basic_sentiment_analysis. now rewrite Hp, Hn.
Qed.

(** * Facts about the excerpt builder *)

Lemma join_cons_length (sep p : str) (rest : list str) :
  (length (join sep (p :: rest)) <= length p + length sep + length (join sep rest))%nat.
Proof.
  destruct rest as [|q rest].
  - simpl. lia.
  - change (join sep (p :: q :: rest)) with (p ++ sep ++ join sep (q :: rest)).
    rewrite !length_app. lia.
Qed.

Lemma join_cons_nonempty (sep p q : str) (rest : list str) :
  length (join sep (p :: q :: rest))
  = (length p + length sep + length (join sep (q :: rest)))%nat.
Proof.
  change (join sep (p :: q :: rest)) with (p ++ sep ++ join sep (q :: rest)).
  rewrite !length_app. lia.
Qed.

Lemma join_firstn_length (sep : str) (n : nat) (parts : list str) :
  (length (join sep (firstn n parts)) <= length (join sep parts))%nat.
Proof.
  revert n. induction parts as [|p rest IH]; intro n.
  - rewrite firstn_nil. simpl. lia.
  - destruct n as [|n]; [simpl; lia|]. simpl firstn.
    destruct rest as [|q rest].
    + rewrite firstn_nil. simpl. lia.
    + destruct n as [|n].
      * simpl firstn. rewrite join_cons_nonempty. simpl. lia.
      * specialize (IH (S n)). simpl firstn in IH |- *.
        rewrite !join_cons_nonempty. lia.
Qed.

Lemma split_sentences_aux_nonempty (cur : str) (mode : split_mode) (s : str) :
  split_sentences_aux cur mode s <> [].
Proof.
  revert cur mode. induction s as [|c s IH]; intros cur mode; simpl; [discriminate|].
  destruct (is_space c); [destruct mode|]; try discriminate; apply IH.
Qed.

Lemma split_sentences_aux_length (cur : str) (mode : split_mode) (s : str) :
  (length (join `" " (split_sentences_aux cur mode s)) <= length cur + length s)%nat.
Proof.
  revert cur mode. induction s as [|c s IH]; intros cur mode; simpl split_sentences_aux.
  - simpl. rewrite length_rev. lia.
  - destruct (is_space c).
    + destruct mode.
      * specialize (IH (c :: cur) InText). cbn [List.length] in IH |- *. lia.
      * pose proof (split_sentences_aux_nonempty [] InGap s) as Hne.
        destruct (split_sentences_aux [] InGap s) as [|q rest] eqn:E; [contradiction|].
        rewrite join_cons_nonempty, length_rev. specialize (IH [] InGap).
        rewrite E in IH. change (List.length `" ") with 1%nat.
        cbn [List.length] in IH |- *. lia.
      * specialize (IH [] InGap). cbn [List.length] in IH |- *. lia.
    + specialize (IH (c :: cur) (if is_sentence_end c then AfterEnd else InText)).
      cbn [List.length] in IH |- *. lia.
Qed.

Lemma squeeze_pairs_length (s : str) : (length (squeeze_pairs s) <= length s)%nat.
Proof.
  assert (H : forall n s, (length s <= n)%nat -> (length (squeeze_pairs s) <= length s)%nat).
  { intro n. induction n as [|n IH]; intros t Ht.
    - destruct t; [simpl; lia|simpl in Ht; lia].
    - destruct t as [|a [|b t]]; [simpl; lia|simpl; lia|].
      simpl squeeze_pairs. destruct (eqb_char a " " && eqb_char b " ")%bool.
      + assert (length t <= n)%nat as Hl by (simpl in Ht |- *; lia).
        specialize (IH t Hl). simpl. lia.
      + assert (length (b :: t) <= n)%nat as Hl by (simpl in Ht |- *; lia).
        specialize (IH (b :: t) Hl). simpl in IH |- *. lia. }
  apply (H (length s)). lia.
Qed.

Lemma infix_length (a b : str) : infix a b -> (length a <= length b)%nat.
Proof. intros (l1 & l2 & ->). rewrite !length_app. lia. Qed.

Lemma strip_length (s : str) : (length (strip s) <= length s)%nat.
Proof. apply infix_length, infix_strip. Qed.

Lemma slice_length (a b : nat) (s : str) : (length (slice a b s) <= b - a)%nat.
Proof.
  unfold slice. rewrite length_skipn, length_firstn. lia.
Qed.

Lemma excerpt_length (ctx : str) :
  (length (strip (squeeze_pairs
                    (if (2 <=? length (split_sentences ctx))%nat
                     then join `" " (firstn 3 (split_sentences ctx)) else ctx)))
   <= length ctx)%nat.
Proof.
  eapply Nat.le_trans; [apply strip_length|].
  eapply Nat.le_trans; [apply squeeze_pairs_length|].
  destruct (2 <=? length (split_sentences ctx))%nat; [|lia].
  eapply Nat.le_trans; [apply join_firstn_length|].
  unfold split_sentences.
  eapply Nat.le_trans; [apply split_sentences_aux_length|]. simpl. lia.
Qed.

Lemma context_length (text : str) (i : Z) :
  (length (slice (Z.to_nat (Z.max 0 (i - 100)))
                 (Z.to_nat (Z.min (Z.of_nat (length text)) (i + 150))) text)
   <= 250)%nat.
Proof. eapply Nat.le_trans; [apply slice_length|]. lia. Qed.

(** X15. The raw description is short: never more than 278 characters plus
    the lengths of the model name and of the attributes joined by ", "; and
    for a model found in the text and no attributes, never more than 250
    characters (the excerpt from 100 characters before the model to 150 after
    its start). *)
Theorem description_bounded (text product_model : str) (attributes : list str) :
  (length (generate_description text product_model attributes)
   <= 278 + length product_model + length (join `", " attributes))%nat
  /\ (find product_model text <> -1 ->
      (length (generate_description text product_model []) <= 250)%nat).
Proof.
  split.
  - unfold generate_description.
    destruct (negb (find product_model text =? -1)).
    + pose proof (context_length text (find product_model text)) as Hctx.
      set (ctx := slice _ _ text) in *.
      pose proof (excerpt_length ctx) as Hs.
      set (description := strip (squeeze_pairs _)) in *.
      destruct (join `", " attributes) as [|c rest] eqn:J; [lia|].
      destruct (negb (existsb _ attributes)); [|lia].
      rewrite !length_app. simpl length. lia.
    + destruct attributes as [|a rest].
      * rewrite !length_app. simpl. lia.
      * rewrite !length_app. simpl length. lia.
  - intro Hfound. unfold generate_description.
    destruct (find product_model text =? -1) eqn:E; [apply Z.eqb_eq in E; contradiction|].
    cbn [negb join].
    pose proof (context_length text (find product_model text)) as Hctx.
    set (ctx := slice _ _ text) in *.
    pose proof (excerpt_length ctx) as Hs. lia.
Qed.

(** * The properties at sample evidence *)

Lemma mentions_traced_to_evidence_witness :
  exists m,
    In m (process_reddit_data offline `"vacuum cleaner" [`"cordless"] [scenario_a_thread])
    /\ product_type m = `"vacuum cleaner"
    /\ unit_interval (sentiment m).
Proof.
  destruct (process_reddit_data offline `"vacuum cleaner" [`"cordless"] [scenario_a_thread])
    as [|m rest] eqn:E; [vm_compute in E; discriminate|].
  exists m. split; [left; reflexivity|].
  assert (In m (process_reddit_data offline `"vacuum cleaner" [`"cordless"]
                  [scenario_a_thread])) as Hin by (rewrite E; left; reflexivity).
  destruct (proj1 (mentions_traced_to_evidence offline `"vacuum cleaner" [`"cordless"]
                     [scenario_a_thread] [] m) Hin) as (_ & Hp & _ & _ & Hs).
  split; assumption.
Defined.

Lemma context_only_helps_witness :
  fst (fst (is_valid_product `"Dyson V15 Detect" `"I love the Dyson V15 Detect" `"vacuum"))
  = true.
Proof.
  generalize (context_only_helps `"Dyson V15 Detect" `"I love the Dyson V15 Detect"
                `"vacuum").
  vm_compute. intros [_ H]. apply H. reflexivity.
Defined.

Lemma output_descending_witness :
  exists top rest,
    process_reddit_data offline `"vacuum" [] [spaced_hyphen_thread] = top :: rest
    /\ forall m, In m (forum_candidates offline `"vacuum" [] [spaced_hyphen_thread]) ->
                 outranks top m.
Proof.
  destruct (process_reddit_data offline `"vacuum" [] [spaced_hyphen_thread])
    as [|top rest] eqn:E; [vm_compute in E; discriminate|].
  exists top, rest. split; [reflexivity|]. intros m Hm.
  exact (proj2 (proj1 (output_descending offline `"vacuum" [] [spaced_hyphen_thread] []))
           top rest m E Hm).
Defined.

Lemma pattern_extractor_retires_witness :
  pattern_calls (collect_forum offline `"vacuum" [] ([spaced_hyphen_thread] ++ [single_thread]))
  = pattern_calls (collect_forum offline `"vacuum" [] [spaced_hyphen_thread]).
Proof.
  apply (proj2 (pattern_extractor_retires offline `"vacuum" [] [spaced_hyphen_thread]
                  [single_thread])).
  vm_compute. lia.
Defined.

Lemma empty_text_is_skipped_witness :
  scan_comment offline `"vacuum" [] `"https://www.reddit.com/r/vacuums/1" []
    (Comment [] 5) = [].
Proof.
  apply (proj1 (proj2 (empty_text_is_skipped offline `"vacuum" []))). reflexivity.
Defined.

Lemma extractors_quote_the_text_witness :
  infix `"Dyson V15 Detect" `"I love the Dyson V15 Detect"
  /\ trimmed `"Dyson V15 Detect".
Proof.
  apply (proj1 (extractors_quote_the_text `"I love the Dyson V15 Detect") `"vacuum").
  vm_compute. reflexivity.
Defined.

Lemma links_well_formed_witness :
  exists r,
    format_recommendation offline [trusted_mention] `"reddit" = Some r
    /\ unbroken (r_buy_link r) /\ unbroken (r_image_url r).
Proof.
  destruct (format_recommendation offline [trusted_mention] `"reddit") as [r|] eqn:E;
    [|vm_compute in E; discriminate].
  exists r. split; [reflexivity|].
  destruct (links_well_formed offline [trusted_mention] `"reddit" r E)
    as (_ & _ & H1 & H2 & _).
  split; assumption.
Defined.

Lemma trusted_mentions_first_witness :
  exists r,
    format_recommendation offline [doubtful_mention; trusted_mention] `"reddit" = Some r
    /\ 3 <= r_validity_score r.
Proof.
  destruct (format_recommendation offline [doubtful_mention; trusted_mention] `"reddit")
    as [r|] eqn:E; [|vm_compute in E; discriminate].
  exists r. split; [reflexivity|].
  apply (trusted_mentions_first offline [doubtful_mention; trusted_mention] `"reddit" r E).
  exists trusted_mention. split; [right; left; reflexivity|vm_compute; discriminate].
Defined.

Lemma rank_score_bounded_witness :
  exists m,
    In m (process_reddit_data offline `"vacuum cleaner" [`"cordless"] [scenario_a_thread])
    /\ (0 <= get_score m)%Q /\ (get_score m <= 22 + 1)%Q.
Proof.
  destruct (process_reddit_data offline `"vacuum cleaner" [`"cordless"] [scenario_a_thread])
    as [|m rest] eqn:E; [vm_compute in E; discriminate|].
  exists m. split; [left; reflexivity|].
  assert (In m (process_reddit_data offline `"vacuum cleaner" [`"cordless"]
                  [scenario_a_thread])) as Hin by (rewrite E; left; reflexivity).
  destruct (proj1 (rank_score_bounded offline `"vacuum cleaner" [`"cordless"]
                     [scenario_a_thread] [] m) Hin) as [Hhi Hlo].
  split; [apply Hlo|exact Hhi].
  vm_compute in E. injection E as Em _. rewrite <- Em. vm_compute. discriminate.
Defined.

Lemma pipeline_grounded_witness :
  exists r,
    fst (process_and_rank_products offline `"vacuum cleaner" [`"cordless"]
           [scenario_a_thread] []) = Some r
    /\ grounded [`"cordless"] (map t_url [scenario_a_thread]) `"https://www.reddit.com" r.
Proof.
  generalize (pipeline_grounded offline `"vacuum cleaner" [`"cordless"]
                [scenario_a_thread] []).
  destruct (process_and_rank_products offline `"vacuum cleaner" [`"cordless"]
              [scenario_a_thread] []) as [forum_result video_result] eqn:E.
  intros (_ & _ & Hf & _).
  destruct forum_result as [r|]; [|vm_compute in E; discriminate].
  exists r. split; [reflexivity|]. apply Hf. reflexivity.
Defined.

Lemma sentiment_in_unit_interval_witness :
  Utils.basic_sentiment_analysis `"It works" = 1 # 2.
Proof.
  apply (proj2 (proj2 (proj2 (sentiment_in_unit_interval offline `"It works"))));
    reflexivity.
Defined.

Lemma description_bounded_witness :
  (length (generate_description `"I love the Dyson V15 Detect" `"Dyson V15 Detect" [])
   <= 250)%nat.
Proof.
  apply (proj2 (description_bounded `"I love the Dyson V15 Detect" `"Dyson V15 Detect" [])).
  vm_compute. discriminate.
Defined.
